(** * auduo: the brown-noise / binaural-beat generator

    A shallow embedding of [src/lib/BrownNoiseGenerator.svelte].

    Numbers: JavaScript numbers are modelled as exact rationals ([Q]); the
    rounding of doubles and of the [Float32Array] that backs an audio buffer
    is not modelled.  [Math.random] is modelled by a tape of draws in [0,1)
    that the platform state carries together with a read position.

    Effects: the script runs in a state-and-exception monad over its
    variables and the platform (audio nodes, buffers, animation frames);
    every platform call is recorded in a trace.

    - [Noise]: the synthesis loop of [createBrownNoise]
    - [Audio]: nodes, contexts, the state, the monad and the platform calls
    - [Generator]: the functions of the script and the actions on it
    - [Effects], [Invariant], [Observe]: closed forms of the state changes,
      the invariant of reachable states, and what the properties observe
    - [Exec], [Preserve]: the script computes the closed forms and keeps the
      invariant
    - [NoiseFacts], [NoiseProperties], [Properties]: the properties *)

From Stdlib Require Import QArith Lqa Lia List.
From Stdlib Require Import String.
From stdpp Require Import base list.

Local Open Scope Q_scope.

(** ** Noise synthesis *)

Module Noise.

(** The body of the [for] loop of [createBrownNoise], iterated [n] times
    from index [i]:
<<
      const white = Math.random() * 2 - 1
      data[i] = (lastOut + 0.02 * white) / 1.02
      lastOut = data[i]
      data[i] *= 3.5
>>
    [rand k] is the result of the k-th call of [Math.random] made by this
    run.  A read outside the buffer yields [0] here; the loop never makes
    one, as [i] stays below the buffer length. *)
Definition readSample (data : list Q) (i : nat) : Q :=
  default 0 (data !! i).

Fixpoint fill (rand : nat -> Q) (n i : nat) (lastOut : Q) (data : list Q)
  : list Q :=
  match n with
  | O => data
  | S n' =>
      let white := rand i * 2 - 1 in
      let data1 := <[i := (lastOut + (2 # 100) * white) / (102 # 100)]> data in
      let lastOut' := readSample data1 i in
      let data2 := <[i := readSample data1 i * (35 # 10)]> data1 in
      fill rand n' (S i) lastOut' data2
  end.

(** [createBrownNoise(duration, sampleRate)]: a fresh one-channel buffer of
    [duration * sampleRate] zeroed samples, filled by the loop. *)
Definition createBrownNoise (rand : nat -> Q) (duration sampleRate : nat)
  : list Q :=
  let bufferSize := (duration * sampleRate)%nat in
  fill rand bufferSize 0 0 (replicate bufferSize 0).

(** The value of [lastOut] after [i] iterations: the leaky integrator
    before the loudness scaling. *)
Fixpoint integrator (rand : nat -> Q) (i : nat) : Q :=
  match i with
  | O => 0
  | S j => (integrator rand j + (2 # 100) * (rand j * 2 - 1)) / (102 # 100)
  end.

(** The white-noise draw of iteration [i]. *)
Definition white (rand : nat -> Q) (i : nat) : Q := rand i * 2 - 1.

End Noise.


(** ** The platform: Web Audio nodes, buffers and animation frames *)

Module Audio.

Inductive node_kind :=
| Destination | Gain | Analyser | Oscillator | BufferSource | ChannelMerger.

(** One audio node.  [value] is the node's audio parameter ([gain.value] of
    a gain node, [frequency.value] of an oscillator); [outputs] lists the
    connections made from the node as (destination, output, input). *)
Record node := mkNode {
  kind : node_kind;
  value : Q;
  buffer : option nat;
  loop : bool;
  fftSize : nat;
  started : bool;
  stopped : bool;
  outputs : list (nat * nat * nat)
}.

Definition with_value (v : Q) (n : node) : node :=
  mkNode (kind n) v (buffer n) (loop n) (fftSize n) (started n) (stopped n)
    (outputs n).
Definition with_buffer (b : option nat) (n : node) : node :=
  mkNode (kind n) (value n) b (loop n) (fftSize n) (started n) (stopped n)
    (outputs n).
Definition with_loop (b : bool) (n : node) : node :=
  mkNode (kind n) (value n) (buffer n) b (fftSize n) (started n) (stopped n)
    (outputs n).
Definition with_fftSize (k : nat) (n : node) : node :=
  mkNode (kind n) (value n) (buffer n) (loop n) k (started n) (stopped n)
    (outputs n).
Definition with_started (b : bool) (n : node) : node :=
  mkNode (kind n) (value n) (buffer n) (loop n) (fftSize n) b (stopped n)
    (outputs n).
Definition with_stopped (b : bool) (n : node) : node :=
  mkNode (kind n) (value n) (buffer n) (loop n) (fftSize n) (started n) b
    (outputs n).
Definition with_outputs (o : list (nat * nat * nat)) (n : node) : node :=
  mkNode (kind n) (value n) (buffer n) (loop n) (fftSize n) (started n)
    (stopped n) o.

(** A node as the platform creates it: gain 1, frequency 440 Hz. *)
Definition defaultValue (k : node_kind) : Q :=
  match k with
  | Gain => 1
  | Oscillator => 440
  | _ => 0
  end.

Definition newNode (k : node_kind) : node :=
  mkNode k (defaultValue k) None false 2048 false false [].

Record context := mkContext {
  sampleRate : nat;
  destination : nat;
  closed : bool
}.

Record canvas_t := mkCanvas {
  width : nat;
  height : nat;
  context2d : bool      (* whether [getContext('2d')] yields a context *)
}.

Inductive exn := TypeError | InvalidStateError.

Inductive event :=
| EvNewContext (c : nat)
| EvCreate (n : nat) (k : node_kind)
| EvSetValue (n : nat) (v : Q)
| EvNewBuffer (b : nat)
| EvConnect (src dst output input : nat)
| EvDisconnect (n : nat)
| EvStart (n : nat)
| EvStop (n : nat)
| EvClose (c : nat)
| EvDraw (analyser : nat)
| EvRequestFrame (id : nat)
| EvCancelFrame (id : nat).

(** The state: the script's variables and what the platform holds.  Nodes,
    contexts and buffers are referred to by their position in the lists
    that hold them.  The script's [stereoPanner] (never assigned) and
    [showVolumeControl] (used by the markup only) are left out. *)
Record state := mkState {
  (* component variables, lines 4-20 of the script *)
  audioContext : option nat;
  brownNoiseNode : option nat;
  gainNode : option nat;
  analyserNode : option nat;
  leftOscillator : option nat;
  rightOscillator : option nat;
  leftGain : option nat;
  rightGain : option nat;
  isBrownNoisePlaying : bool;
  isBinauralPlaying : bool;
  volume : Q;
  baseFrequency : Q;
  beatFrequency : Q;
  canvas : option canvas_t;
  animationFrameId : option nat;
  (* platform: the audio contexts, nodes and buffers allocated so far *)
  contexts : list context;
  nodes : list node;
  buffers : list (list Q);
  (* platform: the draws of Math.random and how many were consumed *)
  tape : nat -> Q;
  rng : nat;
  (* platform: the sample rate a new context gets *)
  deviceSampleRate : nat;
  (* platform: scheduled animation-frame callbacks, next handle *)
  pending : list nat;
  nextFrame : nat;
  (* every platform call made so far, oldest first *)
  trace : list event
}.

(** Assignments to one variable (or one platform component). *)
Definition set_audioContext (x : option nat) (s : state) : state :=
  mkState x (brownNoiseNode s) (gainNode s) (analyserNode s)
    (leftOscillator s) (rightOscillator s) (leftGain s) (rightGain s)
    (isBrownNoisePlaying s) (isBinauralPlaying s) (volume s)
    (baseFrequency s) (beatFrequency s) (canvas s) (animationFrameId s)
    (contexts s) (nodes s) (buffers s) (tape s) (rng s) (deviceSampleRate s)
    (pending s) (nextFrame s) (trace s).
Definition set_brownNoiseNode (x : option nat) (s : state) : state :=
  mkState (audioContext s) x (gainNode s) (analyserNode s)
    (leftOscillator s) (rightOscillator s) (leftGain s) (rightGain s)
    (isBrownNoisePlaying s) (isBinauralPlaying s) (volume s)
    (baseFrequency s) (beatFrequency s) (canvas s) (animationFrameId s)
    (contexts s) (nodes s) (buffers s) (tape s) (rng s) (deviceSampleRate s)
    (pending s) (nextFrame s) (trace s).
Definition set_gainNode (x : option nat) (s : state) : state :=
  mkState (audioContext s) (brownNoiseNode s) x (analyserNode s)
    (leftOscillator s) (rightOscillator s) (leftGain s) (rightGain s)
    (isBrownNoisePlaying s) (isBinauralPlaying s) (volume s)
    (baseFrequency s) (beatFrequency s) (canvas s) (animationFrameId s)
    (contexts s) (nodes s) (buffers s) (tape s) (rng s) (deviceSampleRate s)
    (pending s) (nextFrame s) (trace s).
Definition set_analyserNode (x : option nat) (s : state) : state :=
  mkState (audioContext s) (brownNoiseNode s) (gainNode s) x
    (leftOscillator s) (rightOscillator s) (leftGain s) (rightGain s)
    (isBrownNoisePlaying s) (isBinauralPlaying s) (volume s)
    (baseFrequency s) (beatFrequency s) (canvas s) (animationFrameId s)
    (contexts s) (nodes s) (buffers s) (tape s) (rng s) (deviceSampleRate s)
    (pending s) (nextFrame s) (trace s).
Definition set_leftOscillator (x : option nat) (s : state) : state :=
  mkState (audioContext s) (brownNoiseNode s) (gainNode s) (analyserNode s)
    x (rightOscillator s) (leftGain s) (rightGain s) (isBrownNoisePlaying s)
    (isBinauralPlaying s) (volume s) (baseFrequency s) (beatFrequency s)
    (canvas s) (animationFrameId s) (contexts s) (nodes s) (buffers s)
    (tape s) (rng s) (deviceSampleRate s) (pending s) (nextFrame s)
    (trace s).
Definition set_rightOscillator (x : option nat) (s : state) : state :=
  mkState (audioContext s) (brownNoiseNode s) (gainNode s) (analyserNode s)
    (leftOscillator s) x (leftGain s) (rightGain s) (isBrownNoisePlaying s)
    (isBinauralPlaying s) (volume s) (baseFrequency s) (beatFrequency s)
    (canvas s) (animationFrameId s) (contexts s) (nodes s) (buffers s)
    (tape s) (rng s) (deviceSampleRate s) (pending s) (nextFrame s)
    (trace s).
Definition set_leftGain (x : option nat) (s : state) : state :=
  mkState (audioContext s) (brownNoiseNode s) (gainNode s) (analyserNode s)
    (leftOscillator s) (rightOscillator s) x (rightGain s)
    (isBrownNoisePlaying s) (isBinauralPlaying s) (volume s)
    (baseFrequency s) (beatFrequency s) (canvas s) (animationFrameId s)
    (contexts s) (nodes s) (buffers s) (tape s) (rng s) (deviceSampleRate s)
    (pending s) (nextFrame s) (trace s).
Definition set_rightGain (x : option nat) (s : state) : state :=
  mkState (audioContext s) (brownNoiseNode s) (gainNode s) (analyserNode s)
    (leftOscillator s) (rightOscillator s) (leftGain s) x
    (isBrownNoisePlaying s) (isBinauralPlaying s) (volume s)
    (baseFrequency s) (beatFrequency s) (canvas s) (animationFrameId s)
    (contexts s) (nodes s) (buffers s) (tape s) (rng s) (deviceSampleRate s)
    (pending s) (nextFrame s) (trace s).
Definition set_isBrownNoisePlaying (x : bool) (s : state) : state :=
  mkState (audioContext s) (brownNoiseNode s) (gainNode s) (analyserNode s)
    (leftOscillator s) (rightOscillator s) (leftGain s) (rightGain s) x
    (isBinauralPlaying s) (volume s) (baseFrequency s) (beatFrequency s)
    (canvas s) (animationFrameId s) (contexts s) (nodes s) (buffers s)
    (tape s) (rng s) (deviceSampleRate s) (pending s) (nextFrame s)
    (trace s).
Definition set_isBinauralPlaying (x : bool) (s : state) : state :=
  mkState (audioContext s) (brownNoiseNode s) (gainNode s) (analyserNode s)
    (leftOscillator s) (rightOscillator s) (leftGain s) (rightGain s)
    (isBrownNoisePlaying s) x (volume s) (baseFrequency s) (beatFrequency s)
    (canvas s) (animationFrameId s) (contexts s) (nodes s) (buffers s)
    (tape s) (rng s) (deviceSampleRate s) (pending s) (nextFrame s)
    (trace s).
Definition set_volume (x : Q) (s : state) : state :=
  mkState (audioContext s) (brownNoiseNode s) (gainNode s) (analyserNode s)
    (leftOscillator s) (rightOscillator s) (leftGain s) (rightGain s)
    (isBrownNoisePlaying s) (isBinauralPlaying s) x (baseFrequency s)
    (beatFrequency s) (canvas s) (animationFrameId s) (contexts s) (nodes s)
    (buffers s) (tape s) (rng s) (deviceSampleRate s) (pending s)
    (nextFrame s) (trace s).
Definition set_beatFrequency (x : Q) (s : state) : state :=
  mkState (audioContext s) (brownNoiseNode s) (gainNode s) (analyserNode s)
    (leftOscillator s) (rightOscillator s) (leftGain s) (rightGain s)
    (isBrownNoisePlaying s) (isBinauralPlaying s) (volume s)
    (baseFrequency s) x (canvas s) (animationFrameId s) (contexts s)
    (nodes s) (buffers s) (tape s) (rng s) (deviceSampleRate s) (pending s)
    (nextFrame s) (trace s).
Definition set_canvas (x : option canvas_t) (s : state) : state :=
  mkState (audioContext s) (brownNoiseNode s) (gainNode s) (analyserNode s)
    (leftOscillator s) (rightOscillator s) (leftGain s) (rightGain s)
    (isBrownNoisePlaying s) (isBinauralPlaying s) (volume s)
    (baseFrequency s) (beatFrequency s) x (animationFrameId s) (contexts s)
    (nodes s) (buffers s) (tape s) (rng s) (deviceSampleRate s) (pending s)
    (nextFrame s) (trace s).
Definition set_animationFrameId (x : option nat) (s : state) : state :=
  mkState (audioContext s) (brownNoiseNode s) (gainNode s) (analyserNode s)
    (leftOscillator s) (rightOscillator s) (leftGain s) (rightGain s)
    (isBrownNoisePlaying s) (isBinauralPlaying s) (volume s)
    (baseFrequency s) (beatFrequency s) (canvas s) x (contexts s) (nodes s)
    (buffers s) (tape s) (rng s) (deviceSampleRate s) (pending s)
    (nextFrame s) (trace s).
Definition set_contexts (x : list context) (s : state) : state :=
  mkState (audioContext s) (brownNoiseNode s) (gainNode s) (analyserNode s)
    (leftOscillator s) (rightOscillator s) (leftGain s) (rightGain s)
    (isBrownNoisePlaying s) (isBinauralPlaying s) (volume s)
    (baseFrequency s) (beatFrequency s) (canvas s) (animationFrameId s) x
    (nodes s) (buffers s) (tape s) (rng s) (deviceSampleRate s) (pending s)
    (nextFrame s) (trace s).
Definition set_nodes (x : list node) (s : state) : state :=
  mkState (audioContext s) (brownNoiseNode s) (gainNode s) (analyserNode s)
    (leftOscillator s) (rightOscillator s) (leftGain s) (rightGain s)
    (isBrownNoisePlaying s) (isBinauralPlaying s) (volume s)
    (baseFrequency s) (beatFrequency s) (canvas s) (animationFrameId s)
    (contexts s) x (buffers s) (tape s) (rng s) (deviceSampleRate s)
    (pending s) (nextFrame s) (trace s).
Definition set_buffers (x : list (list Q)) (s : state) : state :=
  mkState (audioContext s) (brownNoiseNode s) (gainNode s) (analyserNode s)
    (leftOscillator s) (rightOscillator s) (leftGain s) (rightGain s)
    (isBrownNoisePlaying s) (isBinauralPlaying s) (volume s)
    (baseFrequency s) (beatFrequency s) (canvas s) (animationFrameId s)
    (contexts s) (nodes s) x (tape s) (rng s) (deviceSampleRate s)
    (pending s) (nextFrame s) (trace s).
Definition set_rng (x : nat) (s : state) : state :=
  mkState (audioContext s) (brownNoiseNode s) (gainNode s) (analyserNode s)
    (leftOscillator s) (rightOscillator s) (leftGain s) (rightGain s)
    (isBrownNoisePlaying s) (isBinauralPlaying s) (volume s)
    (baseFrequency s) (beatFrequency s) (canvas s) (animationFrameId s)
    (contexts s) (nodes s) (buffers s) (tape s) x (deviceSampleRate s)
    (pending s) (nextFrame s) (trace s).
Definition set_pending (x : list nat) (s : state) : state :=
  mkState (audioContext s) (brownNoiseNode s) (gainNode s) (analyserNode s)
    (leftOscillator s) (rightOscillator s) (leftGain s) (rightGain s)
    (isBrownNoisePlaying s) (isBinauralPlaying s) (volume s)
    (baseFrequency s) (beatFrequency s) (canvas s) (animationFrameId s)
    (contexts s) (nodes s) (buffers s) (tape s) (rng s) (deviceSampleRate s)
    x (nextFrame s) (trace s).
Definition set_nextFrame (x : nat) (s : state) : state :=
  mkState (audioContext s) (brownNoiseNode s) (gainNode s) (analyserNode s)
    (leftOscillator s) (rightOscillator s) (leftGain s) (rightGain s)
    (isBrownNoisePlaying s) (isBinauralPlaying s) (volume s)
    (baseFrequency s) (beatFrequency s) (canvas s) (animationFrameId s)
    (contexts s) (nodes s) (buffers s) (tape s) (rng s) (deviceSampleRate s)
    (pending s) x (trace s).
Definition set_trace (x : list event) (s : state) : state :=
  mkState (audioContext s) (brownNoiseNode s) (gainNode s) (analyserNode s)
    (leftOscillator s) (rightOscillator s) (leftGain s) (rightGain s)
    (isBrownNoisePlaying s) (isBinauralPlaying s) (volume s)
    (baseFrequency s) (beatFrequency s) (canvas s) (animationFrameId s)
    (contexts s) (nodes s) (buffers s) (tape s) (rng s) (deviceSampleRate s)
    (pending s) (nextFrame s) x.

(** *** A state-and-exception monad for the script *)

Inductive result (A : Type) : Type :=
| Ok (a : A) (s : state)
| Throw (e : exn).
Arguments Ok {A} a s.
Arguments Throw {A} e.

Definition M (A : Type) : Type := state -> result A.

#[global] Instance M_ret : MRet M := fun A a s => Ok a s.
#[global] Instance M_bind : MBind M := fun A B f m s =>
  match m s with
  | Ok a s' => f a s'
  | Throw e => Throw e
  end.

Definition get {A} (f : state -> A) : M A := fun s => Ok (f s) s.
Definition modify (f : state -> state) : M unit := fun s => Ok tt (f s).
Definition throw {A} (e : exn) : M A := fun _ => Throw e.
Definition skip : M unit := mret tt.

(** Reading a property of a variable that may hold [null]. *)
Definition deref {A} (f : state -> option A) : M A := fun s =>
  match f s with
  | Some a => Ok a s
  | None => Throw TypeError
  end.

Definition log (e : event) : M unit :=
  modify (fun s => set_trace (trace s ++ [e]) s).

Definition updateNode (n : nat) (f : node -> node) : M unit :=
  modify (fun s => set_nodes (alter f n (nodes s)) s).

(** *** Platform calls *)

(** [new AudioContext()]: a running context with its destination node. *)
Definition newAudioContext : M nat := fun s =>
  let c := length (contexts s) in
  let d := length (nodes s) in
  Ok c (set_trace (trace s ++ [EvNewContext c])
         (set_contexts (contexts s ++ [mkContext (deviceSampleRate s) d false])
           (set_nodes (nodes s ++ [newNode Destination]) s))).

(** [ctx.createGain()], [ctx.createOscillator()], ... *)
Definition createNode (k : node_kind) : M nat := fun s =>
  let n := length (nodes s) in
  Ok n (set_trace (trace s ++ [EvCreate n k])
         (set_nodes (nodes s ++ [newNode k]) s)).

Definition sampleRateOf (c : nat) : M nat := fun s =>
  match contexts s !! c with
  | Some cx => Ok (sampleRate cx) s
  | None => Throw TypeError
  end.

Definition destinationOf (c : nat) : M nat := fun s =>
  match contexts s !! c with
  | Some cx => Ok (destination cx) s
  | None => Throw TypeError
  end.

(** [param.value = v] *)
Definition setValue (n : nat) (v : Q) : M unit :=
  updateNode n (with_value v);; log (EvSetValue n v).

Definition setFftSize (n k : nat) : M unit := updateNode n (with_fftSize k).
Definition setBuffer (n b : nat) : M unit := updateNode n (with_buffer (Some b)).
Definition setLoop (n : nat) (b : bool) : M unit := updateNode n (with_loop b).

(** [src.connect(dst, output, input)] *)
Definition connect (src dst output input : nat) : M unit :=
  updateNode src (fun nd => with_outputs (outputs nd ++ [(dst, output, input)]) nd);;
  log (EvConnect src dst output input).

(** [node.disconnect()]: drops every outgoing connection. *)
Definition disconnect (n : nat) : M unit :=
  updateNode n (with_outputs []);; log (EvDisconnect n).

(** [source.start()]: a source can be started once. *)
Definition start (n : nat) : M unit := fun s =>
  match nodes s !! n with
  | Some nd =>
      if started nd then Throw InvalidStateError
      else (updateNode n (with_started true);; log (EvStart n)) s
  | None => Throw TypeError
  end.

(** [source.stop()]: only a started source can be stopped. *)
Definition stop (n : nat) : M unit := fun s =>
  match nodes s !! n with
  | Some nd =>
      if started nd
      then (updateNode n (with_stopped true);; log (EvStop n)) s
      else Throw InvalidStateError
  | None => Throw TypeError
  end.

(** [ctx.close()] *)
Definition closeContext (c : nat) : M unit :=
  modify (fun s =>
    set_contexts
      (alter (fun cx => mkContext (sampleRate cx) (destination cx) true) c
         (contexts s)) s);;
  log (EvClose c).

(** [new AudioBuffer({length, numberOfChannels: 1, sampleRate})] holding
    [data]. *)
Definition newAudioBuffer (data : list Q) : M nat := fun s =>
  let b := length (buffers s) in
  Ok b (set_trace (trace s ++ [EvNewBuffer b])
         (set_buffers (buffers s ++ [data]) s)).

(** [requestAnimationFrame(drawWaveform)]: handles are positive and
    increase. *)
Definition requestAnimationFrame : M nat := fun s =>
  let id := nextFrame s in
  Ok id (set_trace (trace s ++ [EvRequestFrame id])
          (set_nextFrame (S id) (set_pending (pending s ++ [id]) s))).

Definition cancelAnimationFrame (id : nat) : M unit :=
  modify (fun s =>
    set_pending (List.filter (fun k => negb (Nat.eqb k id)) (pending s)) s);;
  log (EvCancelFrame id).

(** Truth value of a [number | null] handle in a condition. *)
Definition truthy (h : option nat) : bool :=
  match h with
  | Some (S _) => true
  | _ => false
  end.

End Audio.

(** ** The component script *)

Module Generator.
Import Audio.

(** [brainwavePresets]: name, beat frequency ([None] is the noise preset)
    and description, in display order. *)
Definition brainwavePresets : list (string * option Q * string) :=
  [ ("Brown Noise", None, "Ambient focus, relaxation");
    ("Delta", Some (1 # 2), "Deep sleep, healing");
    ("Theta", Some 4, "Meditation, creativity");
    ("Alpha", Some 8, "Relaxation, focus");
    ("Beta", Some 13, "Active thinking, alertness");
    ("Gamma", Some 30, "Peak performance") ]%string.

(** The script's top-level initialisers, on a platform that has allocated
    nothing yet. *)
Definition init (tape : nat -> Q) (deviceSampleRate : nat) : state :=
  {| audioContext := None;
     brownNoiseNode := None;
     gainNode := None;
     analyserNode := None;
     leftOscillator := None;
     rightOscillator := None;
     leftGain := None;
     rightGain := None;
     isBrownNoisePlaying := false;
     isBinauralPlaying := false;
     volume := 1 # 2;
     baseFrequency := 200;
     beatFrequency := 1 # 2;
     canvas := None;
     animationFrameId := None;
     contexts := [];
     nodes := [];
     buffers := [];
     tape := tape;
     rng := 0%nat;
     deviceSampleRate := deviceSampleRate;
     pending := [];
     nextFrame := 1%nat;
     trace := [] |}.

(** An [if] without [else]. *)
Definition when (b : bool) (m : M unit) : M unit :=
  if b then m else skip.

(** A call of [createBrownNoise(duration, sampleRate)] by the script:
    allocates the buffer and fills it as [Noise.createBrownNoise] does,
    consuming [duration * sampleRate] draws of the tape. *)
Definition callCreateBrownNoise (duration sampleRate : nat) : M nat :=
  r ← get rng;
  t ← get tape;
  b ← newAudioBuffer
         (Noise.createBrownNoise (fun k => t (r + k)%nat) duration sampleRate);
  modify (set_rng (r + duration * sampleRate)%nat);;
  mret b.

(** [drawWaveform]: the drawing itself is one [EvDraw] event. *)
Definition drawWaveform : M unit :=
  a ← get analyserNode;
  cv ← get canvas;
  match a, cv with
  | Some a, Some cv =>
      if context2d cv then
        log (EvDraw a);;
        id ← requestAnimationFrame;
        modify (set_animationFrameId (Some id))
      else skip
  | _, _ => skip
  end.

Definition setupAnalyser : M unit :=
  ctx ← get audioContext;
  match ctx with
  | None => skip
  | Some c =>
      a ← createNode Analyser;
      modify (set_analyserNode (Some a));;
      a ← deref analyserNode;
      setFftSize a 2048;;
      g ← get gainNode;
      match g with
      | Some g =>
          a ← deref analyserNode;
          connect g a 0 0;;
          a ← deref analyserNode;
          d ← destinationOf c;
          connect a d 0 0
      | None => skip
      end;;
      noise ← get isBrownNoisePlaying;
      tones ← get isBinauralPlaying;
      frame ← get animationFrameId;
      if (noise || tones) && negb (truthy frame) then drawWaveform else skip
  end.

(** The block shared by [setupBinauralBeats] and [toggleBrownNoise]:
<<
    if (!audioContext) {
      audioContext = new AudioContext()
      gainNode = audioContext.createGain()
      setupAnalyser()
      gainNode.gain.value = volume
    }
>> *)
Definition ensureContext : M unit :=
  ctx ← get audioContext;
  match ctx with
  | Some _ => skip
  | None =>
      c ← newAudioContext;
      modify (set_audioContext (Some c));;
      _ ← deref audioContext;
      g ← createNode Gain;
      modify (set_gainNode (Some g));;
      setupAnalyser;;
      g ← deref gainNode;
      v ← get volume;
      setValue g v
  end.

Definition setupBinauralBeats : M unit :=
  ensureContext;;
  _ ← deref audioContext;
  l ← createNode Oscillator;
  modify (set_leftOscillator (Some l));;
  _ ← deref audioContext;
  r ← createNode Oscillator;
  modify (set_rightOscillator (Some r));;
  _ ← deref audioContext;
  lg ← createNode Gain;
  modify (set_leftGain (Some lg));;
  _ ← deref audioContext;
  rg ← createNode Gain;
  modify (set_rightGain (Some rg));;
  l ← deref leftOscillator;
  base ← get baseFrequency;
  setValue l base;;
  r ← deref rightOscillator;
  base ← get baseFrequency;
  beat ← get beatFrequency;
  setValue r (base + beat);;
  _ ← deref audioContext;
  merger ← createNode ChannelMerger;
  l ← deref leftOscillator;
  lg ← deref leftGain;
  connect l lg 0 0;;
  lg ← deref leftGain;
  connect lg merger 0 0;;
  r ← deref rightOscillator;
  rg ← deref rightGain;
  connect r rg 0 0;;
  rg ← deref rightGain;
  connect rg merger 0 1;;
  g ← get gainNode;
  match g with
  | Some g => connect merger g 0 0
  | None => skip
  end;;
  lg ← deref leftGain;
  setValue lg (1 # 10);;
  rg ← deref rightGain;
  setValue rg (1 # 10);;
  l ← deref leftOscillator;
  start l;;
  r ← deref rightOscillator;
  start r.

Definition updateBinauralBeats : M unit :=
  l ← get leftOscillator;
  r ← get rightOscillator;
  match l, r with
  | Some l, Some r =>
      base ← get baseFrequency;
      setValue l base;;
      base ← get baseFrequency;
      beat ← get beatFrequency;
      setValue r (base + beat)
  | _, _ => skip
  end.

Definition toggleBrownNoise : M unit :=
  ensureContext;;
  playing ← get isBrownNoisePlaying;
  if negb playing then
    c ← deref audioContext;
    n ← createNode BufferSource;
    modify (set_brownNoiseNode (Some n));;
    n ← deref brownNoiseNode;
    c ← deref audioContext;
    rate ← sampleRateOf c;
    b ← callCreateBrownNoise 1 rate;
    setBuffer n b;;
    n ← deref brownNoiseNode;
    setLoop n true;;
    g ← get gainNode;
    match g with
    | Some g =>
        v ← get volume;
        setValue g (v * (1 # 10));;
        n ← deref brownNoiseNode;
        connect n g 0 0
    | None => skip
    end;;
    n ← deref brownNoiseNode;
    start n;;
    modify (set_isBrownNoisePlaying true)
  else
    n ← get brownNoiseNode;
    match n with Some n => stop n | None => skip end;;
    n ← get brownNoiseNode;
    match n with Some n => disconnect n | None => skip end;;
    modify (set_brownNoiseNode None);;
    modify (set_isBrownNoisePlaying false).

Definition toggleBinauralBeats : M unit :=
  playing ← get isBinauralPlaying;
  if negb playing then
    setupBinauralBeats;;
    modify (set_isBinauralPlaying true)
  else
    l ← get leftOscillator;
    match l with Some l => stop l | None => skip end;;
    r ← get rightOscillator;
    match r with Some r => stop r | None => skip end;;
    l ← get leftOscillator;
    match l with Some l => disconnect l | None => skip end;;
    r ← get rightOscillator;
    match r with Some r => disconnect r | None => skip end;;
    modify (set_leftOscillator None);;
    modify (set_rightOscillator None);;
    modify (set_isBinauralPlaying false).

(** The last block of [setBrainwavePreset]:
<<
    // Start or stop animation based on playback state
    if ((isBrownNoisePlaying || isBinauralPlaying) && !animationFrameId) {
      drawWaveform()
    } else if (!isBrownNoisePlaying && !isBinauralPlaying && animationFrameId) {
      cancelAnimationFrame(animationFrameId)
      animationFrameId = null
    }
>> *)
Definition syncAnimation : M unit :=
  noise ← get isBrownNoisePlaying;
  tones ← get isBinauralPlaying;
  frame ← get animationFrameId;
  if (noise || tones) && negb (truthy frame) then drawWaveform
  else if negb noise && negb tones && truthy frame then
    match frame with
    | Some id =>
        cancelAnimationFrame id;;
        modify (set_animationFrameId None)
    | None => skip
    end
  else skip.

Definition setBrainwavePreset (frequency : option Q) : M unit :=
  match frequency with
  | None =>
      toggleBrownNoise;;
      tones ← get isBinauralPlaying;
      when tones toggleBinauralBeats
  | Some f =>
      modify (set_beatFrequency f);;
      noise ← get isBrownNoisePlaying;
      when noise toggleBrownNoise;;
      tones ← get isBinauralPlaying;
      if negb tones then toggleBinauralBeats else updateBinauralBeats
  end;;
  syncAnimation.

Definition updateVolume : M unit :=
  g ← get gainNode;
  match g with
  | Some g =>
      noise ← get isBrownNoisePlaying;
      v ← get volume;
      if noise : bool then setValue g (v * (1 # 10)) else setValue g v
  | None => skip
  end.

(** The slider: [bind:value={volume}] stores the new value, then
    [on:input={updateVolume}] runs. *)
Definition onVolumeInput (v : Q) : M unit :=
  modify (set_volume v);;
  updateVolume.

(** [resizeCanvas] of [onMount], for a window of inner width [w]. *)
Definition resizeCanvas (w : nat) : M unit :=
  cv ← get canvas;
  match cv with
  | None => skip
  | Some cv => modify (set_canvas (Some (mkCanvas w 100 (context2d cv))))
  end.

(** Mounting: [bind:this={canvas}] stores the element, then the [onMount]
    callback sizes it. *)
Definition onMount (cv : canvas_t) (w : nat) : M unit :=
  modify (set_canvas (Some cv));;
  resizeCanvas w.

(** A scheduled animation frame fires: the callback leaves the pending
    list and [drawWaveform] runs. *)
Definition onFrame (id : nat) : M unit :=
  p ← get pending;
  if existsb (Nat.eqb id) p then
    modify (fun s =>
      set_pending (List.filter (fun k => negb (Nat.eqb k id)) (pending s)) s);;
    drawWaveform
  else skip.

Definition onDestroy : M unit :=
  frame ← get animationFrameId;
  (if truthy frame then
     match frame with
     | Some id =>
         cancelAnimationFrame id;;
         modify (set_animationFrameId None)
     | None => skip
     end
   else skip);;
  n ← get brownNoiseNode;
  match n with
  | Some n => stop n;; disconnect n
  | None => skip
  end;;
  l ← get leftOscillator;
  match l with
  | Some l => stop l;; disconnect l
  | None => skip
  end;;
  r ← get rightOscillator;
  match r with
  | Some r => stop r;; disconnect r
  | None => skip
  end;;
  c ← get audioContext;
  match c with
  | Some c => closeContext c
  | None => skip
  end.

(** What the user and the platform can do to a mounted component. *)
Inductive action :=
| Mount (cv : canvas_t) (w : nat)
| Resize (w : nat)
| SelectPreset (frequency : option Q)
| ToggleBrownNoise
| ToggleBinauralBeats
| VolumeInput (v : Q)
| Frame (id : nat).

Definition perform (a : action) : M unit :=
  match a with
  | Mount cv w => onMount cv w
  | Resize w => resizeCanvas w
  | SelectPreset f => setBrainwavePreset f
  | ToggleBrownNoise => toggleBrownNoise
  | ToggleBinauralBeats => toggleBinauralBeats
  | VolumeInput v => onVolumeInput v
  | Frame id => onFrame id
  end.

(** Running a list of actions in order. *)
Fixpoint performAll (l : list action) : M unit :=
  match l with
  | [] => skip
  | a :: l' => perform a;; performAll l'
  end.

(** The states a component can be in: the initial one and every state an
    action leads to without throwing.  The volume slider only yields values
    between 0 and 1. *)
Definition allowed (a : action) : Prop :=
  match a with
  | VolumeInput v => 0 <= v <= 1
  | _ => True
  end.

Inductive reachable (t : nat -> Q) (rate : nat) : state -> Prop :=
| reachable_init : reachable t rate (init t rate)
| reachable_step s a s' :
    reachable t rate s -> allowed a -> perform a s = Ok tt s' ->
    reachable t rate s'.

End Generator.

(** ** Closed forms of the state changes

    What each path of the script does to the state, written out.  The
    lemmas of [Exec] show that the script computes exactly these. *)

Module Effects.
Import Audio Generator.

Definition idle (k : node_kind) (v : Q) (out : list (nat * nat * nat)) : node :=
  mkNode k v None false 2048 false false out.

Definition oscillator (f : Q) (dst : nat) : node :=
  mkNode Oscillator f None false 2048 true false [(dst, 0%nat, 0%nat)].

(** First activation: context, destination, mix gain and analyser. *)
Definition contextCreated (s : state) : state :=
  let c := length (contexts s) in
  let d := length (nodes s) in
  set_trace (trace s ++
    [EvNewContext c; EvCreate (d + 1) Gain; EvCreate (d + 2) Analyser;
     EvConnect (d + 1) (d + 2) 0 0; EvConnect (d + 2) d 0 0;
     EvSetValue (d + 1) (volume s)])
  (set_nodes (nodes s ++
    [idle Destination 0 [];
     idle Gain (volume s) [((d + 2)%nat, 0%nat, 0%nat)];
     idle Analyser 0 [(d, 0%nat, 0%nat)]])
  (set_contexts (contexts s ++ [mkContext (deviceSampleRate s) d false])
  (set_analyserNode (Some (d + 2)%nat)
  (set_gainNode (Some (d + 1)%nat)
  (set_audioContext (Some c) s))))).

(** [toggleBinauralBeats] while the tones are off, mix gain node [g]. *)
Definition tonesOn (g : nat) (s : state) : state :=
  let h := length (nodes s) in
  set_isBinauralPlaying true
  (set_trace (trace s ++
    [EvCreate h Oscillator; EvCreate (h + 1) Oscillator;
     EvCreate (h + 2) Gain; EvCreate (h + 3) Gain;
     EvSetValue h (baseFrequency s);
     EvSetValue (h + 1) (baseFrequency s + beatFrequency s);
     EvCreate (h + 4) ChannelMerger;
     EvConnect h (h + 2) 0 0; EvConnect (h + 2) (h + 4) 0 0;
     EvConnect (h + 1) (h + 3) 0 0; EvConnect (h + 3) (h + 4) 0 1;
     EvConnect (h + 4) g 0 0;
     EvSetValue (h + 2) (1 # 10); EvSetValue (h + 3) (1 # 10);
     EvStart h; EvStart (h + 1)])
  (set_nodes (nodes s ++
    [oscillator (baseFrequency s) (h + 2);
     oscillator (baseFrequency s + beatFrequency s) (h + 3);
     idle Gain (1 # 10) [((h + 4)%nat, 0%nat, 0%nat)];
     idle Gain (1 # 10) [((h + 4)%nat, 0%nat, 1%nat)];
     idle ChannelMerger 0 [(g, 0%nat, 0%nat)]])
  (set_rightGain (Some (h + 3)%nat)
  (set_leftGain (Some (h + 2)%nat)
  (set_rightOscillator (Some (h + 1)%nat)
  (set_leftOscillator (Some h) s)))))).

(** [toggleBinauralBeats] while the tones play on oscillators [l], [r]. *)
Definition tonesOff (l r : nat) (s : state) : state :=
  set_isBinauralPlaying false
  (set_rightOscillator None
  (set_leftOscillator None
  (set_trace (trace s ++ [EvStop l; EvStop r; EvDisconnect l; EvDisconnect r])
  (set_nodes
     (alter (with_outputs []) r (alter (with_outputs []) l
       (alter (with_stopped true) r (alter (with_stopped true) l (nodes s)))))
     s)))).

(** [toggleBrownNoise] while the noise is off, on a context of sample rate
    [rate] with mix gain node [g]. *)
Definition noiseOn (rate g : nat) (s : state) : state :=
  let n := length (nodes s) in
  let b := length (buffers s) in
  set_isBrownNoisePlaying true
  (set_trace (trace s ++
    [EvCreate n BufferSource; EvNewBuffer b;
     EvSetValue g (volume s * (1 # 10)); EvConnect n g 0 0; EvStart n])
  (set_nodes
     (alter (with_value (volume s * (1 # 10))) g (nodes s) ++
      [mkNode BufferSource 0 (Some b) true 2048 true false
         [(g, 0%nat, 0%nat)]])
  (set_rng (rng s + 1 * rate)%nat
  (set_buffers (buffers s ++
     [Noise.createBrownNoise (fun k => tape s (rng s + k)%nat) 1 rate])
  (set_brownNoiseNode (Some n) s))))).

(** [toggleBrownNoise] while the noise plays on source [n]. *)
Definition noiseOff (n : nat) (s : state) : state :=
  set_isBrownNoisePlaying false
  (set_brownNoiseNode None
  (set_trace (trace s ++ [EvStop n; EvDisconnect n])
  (set_nodes (alter (with_outputs []) n (alter (with_stopped true) n (nodes s)))
     s))).

(** [drawWaveform] when it draws from analyser [a] and reschedules. *)
Definition drawn (a : nat) (s : state) : state :=
  set_animationFrameId (Some (nextFrame s))
  (set_trace (trace s ++ [EvDraw a; EvRequestFrame (nextFrame s)])
  (set_nextFrame (S (nextFrame s))
  (set_pending (pending s ++ [nextFrame s]) s))).

(** Cancelling the scheduled redraw [id]. *)
Definition frameCancelled (id : nat) (s : state) : state :=
  set_animationFrameId None
  (set_trace (trace s ++ [EvCancelFrame id])
  (set_pending (List.filter (fun k => negb (Nat.eqb k id)) (pending s)) s)).

(** Writing [v] to the audio parameter of node [g]. *)
Definition gainSet (g : nat) (v : Q) (s : state) : state :=
  set_trace (trace s ++ [EvSetValue g v])
  (set_nodes (alter (with_value v) g (nodes s)) s).

(** *** Each function of the script as a function on states

    Under the invariant the script's functions never throw; these are the
    states they return. *)

Definition rateOf (s : state) (c : nat) : nat :=
  match contexts s !! c with
  | Some cx => sampleRate cx
  | None => 0%nat
  end.

Definition withContext (s : state) : state :=
  match audioContext s with
  | Some _ => s
  | None => contextCreated s
  end.

Definition toggledNoise (s : state) : state :=
  if isBrownNoisePlaying s then
    match brownNoiseNode s with
    | Some n => noiseOff n s
    | None => s
    end
  else
    let s1 := withContext s in
    match audioContext s1, gainNode s1 with
    | Some c, Some g => noiseOn (rateOf s1 c) g s1
    | _, _ => s1
    end.

Definition toggledTones (s : state) : state :=
  if isBinauralPlaying s then
    match leftOscillator s, rightOscillator s with
    | Some l, Some r => tonesOff l r s
    | _, _ => s
    end
  else
    let s1 := withContext s in
    match gainNode s1 with
    | Some g => tonesOn g s1
    | None => s1
    end.

Definition retuned (s : state) : state :=
  match leftOscillator s, rightOscillator s with
  | Some l, Some r =>
      gainSet r (baseFrequency s + beatFrequency s)
        (gainSet l (baseFrequency s) s)
  | _, _ => s
  end.

Definition redrawn (s : state) : state :=
  match analyserNode s, canvas s with
  | Some a, Some cv => if context2d cv then drawn a s else s
  | _, _ => s
  end.

Definition reframed (s : state) : state :=
  let playing := isBrownNoisePlaying s || isBinauralPlaying s in
  if playing && negb (truthy (animationFrameId s)) then redrawn s
  else if negb playing && truthy (animationFrameId s) then
    match animationFrameId s with
    | Some id => frameCancelled id s
    | None => s
    end
  else s.

Definition selected (frequency : option Q) (s : state) : state :=
  match frequency with
  | None =>
      let s1 := toggledNoise s in
      reframed (if isBinauralPlaying s1 then toggledTones s1 else s1)
  | Some f =>
      let s0 := set_beatFrequency f s in
      let s1 := if isBrownNoisePlaying s0 then toggledNoise s0 else s0 in
      reframed (if isBinauralPlaying s1 then retuned s1 else toggledTones s1)
  end.

Definition volumeApplied (s : state) : state :=
  match gainNode s with
  | Some g =>
      gainSet g (if isBrownNoisePlaying s then volume s * (1 # 10)
                 else volume s) s
  | None => s
  end.

Definition resized (w : nat) (s : state) : state :=
  match canvas s with
  | Some cv => set_canvas (Some (mkCanvas w 100 (context2d cv))) s
  | None => s
  end.

Definition fired (id : nat) (s : state) : state :=
  if existsb (Nat.eqb id) (pending s) then
    redrawn
      (set_pending (List.filter (fun k => negb (Nat.eqb k id)) (pending s)) s)
  else s.

(** Stopping and disconnecting source [n]. *)
Definition halted (n : nat) (s : state) : state :=
  set_trace (trace s ++ [EvStop n; EvDisconnect n])
  (set_nodes (alter (with_outputs []) n (alter (with_stopped true) n (nodes s)))
     s).

Definition contextClosed (c : nat) (s : state) : state :=
  set_trace (trace s ++ [EvClose c])
  (set_contexts
     (alter (fun cx => mkContext (sampleRate cx) (destination cx) true) c
        (contexts s)) s).

Definition unframed (s : state) : state :=
  if truthy (animationFrameId s) then
    match animationFrameId s with
    | Some id => frameCancelled id s
    | None => s
    end
  else s.

(** [onDestroy] *)
Definition destroyed (s : state) : state :=
  let s1 := unframed s in
  let s2 := match brownNoiseNode s1 with
            | Some n => halted n s1
            | None => s1
            end in
  let s3 := match leftOscillator s2 with
            | Some l => halted l s2
            | None => s2
            end in
  let s4 := match rightOscillator s3 with
            | Some r => halted r s3
            | None => s3
            end in
  match audioContext s4 with
  | Some c => contextClosed c s4
  | None => s4
  end.

Definition performed (a : action) (s : state) : state :=
  match a with
  | Mount cv w => resized w (set_canvas (Some cv) s)
  | Resize w => resized w s
  | SelectPreset f => selected f s
  | ToggleBrownNoise => toggledNoise s
  | ToggleBinauralBeats => toggledTones s
  | VolumeInput v => volumeApplied (set_volume v s)
  | Frame id => fired id s
  end.

End Effects.

(** ** The invariant of the component *)

Module Invariant.
Import Audio Generator.

(** Node [n] of heap [h] exists and satisfies [P]. *)
Definition nodeHas (h : list node) (n : nat) (P : node -> Prop) : Prop :=
  exists nd, h !! n = Some nd /\ P nd.

Definition isNode (k : node_kind) (st sp : bool) (nd : node) : Prop :=
  kind nd = k /\ started nd = st /\ stopped nd = sp.

Definition isWired (k : node_kind) (out : nat * nat * nat) (nd : node) : Prop :=
  kind nd = k /\ started nd = false /\ stopped nd = false /\
  outputs nd = [out].

(** Node [n] is of kind [k] and has the given start/stop flags. *)
Definition nodeAt (s : state) (n : nat) (k : node_kind) (st sp : bool) : Prop :=
  nodeHas (nodes s) n (isNode k st sp).

(** Node [n] is an idle node of kind [k] whose only connection is [out]. *)
Definition wired (s : state) (n : nat) (k : node_kind) (out : nat * nat * nat)
  : Prop :=
  nodeHas (nodes s) n (isWired k out).

Definition wf_context (s : state) : Prop :=
  match audioContext s with
  | None =>
      gainNode s = None /\ analyserNode s = None /\
      isBrownNoisePlaying s = false /\ isBinauralPlaying s = false /\
      leftGain s = None /\ rightGain s = None
  | Some c =>
      (exists cx, contexts s !! c = Some cx /\ closed cx = false) /\
      (exists g, gainNode s = Some g /\ nodeAt s g Gain false false) /\
      (exists a, analyserNode s = Some a /\ nodeAt s a Analyser false false)
  end.

Definition wf_noise (s : state) : Prop :=
  if isBrownNoisePlaying s
  then exists n, brownNoiseNode s = Some n /\ nodeAt s n BufferSource true false
  else brownNoiseNode s = None.

Definition wf_tones (s : state) : Prop :=
  if isBinauralPlaying s
  then exists l r, leftOscillator s = Some l /\ rightOscillator s = Some r /\
         l <> r /\ nodeAt s l Oscillator true false /\
         nodeAt s r Oscillator true false
  else leftOscillator s = None /\ rightOscillator s = None.

Definition wf_channels (s : state) : Prop :=
  match leftGain s, rightGain s with
  | None, None => isBinauralPlaying s = false
  | Some lg, Some rg =>
      exists m g, gainNode s = Some g /\
        wired s lg Gain (m, 0%nat, 0%nat) /\
        wired s rg Gain (m, 0%nat, 1%nat) /\
        wired s m ChannelMerger (g, 0%nat, 0%nat)
  | _, _ => False
  end.

Definition wf_frames (s : state) : Prop :=
  (pending s = [] \/
   exists id, pending s = [id] /\ animationFrameId s = Some id) /\
  (forall id, animationFrameId s = Some id -> (0 < id < nextFrame s)%nat) /\
  (0 < nextFrame s)%nat.

(** While the noise plays the mix gain is the volume scaled by 0.1. *)
Definition noiseGain (s : state) : Prop :=
  isBrownNoisePlaying s = true ->
  match gainNode s with
  | Some g =>
      exists nd, nodes s !! g = Some nd /\ value nd = volume s * (1 # 10)
  | None => False
  end.

Record wf (s : state) : Prop := mkWf {
  wf_ctx : wf_context s;
  wf_nse : wf_noise s;
  wf_tns : wf_tones s;
  wf_chn : wf_channels s;
  wf_frm : wf_frames s
}.

End Invariant.

(** ** What the properties observe *)

Module Observe.
Import Audio Generator.

(** The gain of the shared mix gain node, when there is one. *)
Definition mixGain (s : state) : option Q :=
  match gainNode s with
  | Some g =>
      match nodes s !! g with
      | Some nd => Some (value nd)
      | None => None
      end
  | None => None
  end.

(** The platform calls made between state [s] and a later state [s']. *)
Definition since (s s' : state) : list event :=
  drop (length (trace s)) (trace s').

Definition isStart (n : nat) (e : event) : bool :=
  match e with
  | EvStart m => Nat.eqb m n
  | _ => false
  end.

Definition isStop (n : nat) (e : event) : bool :=
  match e with
  | EvStop m => Nat.eqb m n
  | _ => false
  end.

(** Position of the first event that satisfies [p]. *)
Fixpoint firstIndex (p : event -> bool) (l : list event) : option nat :=
  match l with
  | [] => None
  | e :: l' => if p e then Some 0%nat else option_map S (firstIndex p l')
  end.

(** Both kinds of event occur, and the first [p] comes before the first
    [q]. *)
Definition before (p q : event -> bool) (l : list event) : bool :=
  match firstIndex p l, firstIndex q l with
  | Some i, Some j => Nat.ltb i j
  | _, _ => false
  end.

(** The values written to the audio parameter of node [g], in order. *)
Fixpoint writesTo (g : nat) (l : list event) : list Q :=
  match l with
  | [] => []
  | EvSetValue n v :: l' =>
      if Nat.eqb n g then v :: writesTo g l' else writesTo g l'
  | _ :: l' => writesTo g l'
  end.

(** The nodes the script's variables refer to. *)
Definition references (s : state) : list nat :=
  omap (fun x : option nat => x)
    [brownNoiseNode s; gainNode s; analyserNode s; leftOscillator s;
     rightOscillator s; leftGain s; rightGain s].

Definition isStopped (s : state) (n : nat) : bool :=
  match nodes s !! n with
  | Some nd => stopped nd
  | None => false
  end.

Definition isStarted (s : state) (n : nat) : bool :=
  match nodes s !! n with
  | Some nd => started nd
  | None => false
  end.

Definition outputsOf (s : state) (n : nat) : list (nat * nat * nat) :=
  match nodes s !! n with
  | Some nd => outputs nd
  | None => []
  end.

Definition bufferOf (s : state) (n : nat) : option nat :=
  match nodes s !! n with
  | Some nd => buffer nd
  | None => None
  end.

Definition isClosed (s : state) (c : nat) : bool :=
  match contexts s !! c with
  | Some cx => closed cx
  | None => false
  end.

(** Events of the redraw loop, as opposed to audio calls. *)
Definition isFrameEvent (e : event) : bool :=
  match e with
  | EvDraw _ | EvRequestFrame _ | EvCancelFrame _ => true
  | _ => false
  end.

(** A concrete component for examples: every draw of [Math.random] is 3/4,
    the device runs at 44.1 kHz, and the canvas has a 2d context. *)
Definition exampleTape : nat -> Q := fun _ => 3 # 4.
Definition exampleRate : nat := N.to_nat 44100.
Definition exampleCanvas : canvas_t := mkCanvas 300 150 true.
Definition mounted : state :=
  Effects.performed (Mount exampleCanvas 1280) (init exampleTape exampleRate).

(** ... after a click on "Brown Noise", on "Theta", and with the tones
    switched on while the noise plays. *)
Definition noisePlaying : state :=
  Effects.performed (SelectPreset None) mounted.
Definition tonesPlaying : state :=
  Effects.performed (SelectPreset (Some 4)) mounted.
Definition bothPlaying : state :=
  Effects.performed ToggleBinauralBeats noisePlaying.

End Observe.


(** ** The waveform drawing of [drawWaveform] *)

Module Waveform.

(** The calls made on the 2d context. *)
Inductive drawCmd :=
| ClearRect (x y w h : Q)
| SetFillStyle (style : string)
| FillRect (x y w h : Q)
| SetLineWidth (w : Q)
| SetStrokeStyle (style : string)
| BeginPath
| MoveTo (x y : Q)
| LineTo (x y : Q)
| Stroke.

(** A byte of [getByteTimeDomainData] as a number. *)
Definition byteValue (d : N) : Q := inject_Z (Z.of_N d).

(** The [for] loop over [dataArray], from index [i] with the pen at [x]:
<<
      const v = dataArray[i] / 128.0
      const y = (v * canvas.height) / 2
      if (i === 0) { ctx.moveTo(x, y) } else { ctx.lineTo(x, y) }
      x += sliceWidth
>>
    [data] holds the samples from index [i] on. *)
Fixpoint plot (height sliceWidth : Q) (data : list N) (i : nat) (x : Q)
  : list drawCmd :=
  match data with
  | [] => []
  | d :: rest =>
      let v := byteValue d / 128 in
      let y := (v * height) / 2 in
      (if Nat.eqb i 0 then MoveTo x y else LineTo x y)
        :: plot height sliceWidth rest (S i) (x + sliceWidth)
  end.

(** Everything [drawWaveform] draws in one frame on a canvas of the given
    size, for the [bufferLength] bytes the analyser delivered. *)
Definition drawing (width height : Q) (dataArray : list N) : list drawCmd :=
  let bufferLength := inject_Z (Z.of_nat (length dataArray)) in
  let sliceWidth := width / bufferLength in
  [ClearRect 0 0 width height;
   SetFillStyle "rgba(42, 42, 42, 0.95)";
   FillRect 0 0 width height;
   SetLineWidth 2;
   SetStrokeStyle "#ff3e00";
   BeginPath]
  ++ plot height sliceWidth dataArray 0 0
  ++ [LineTo width (height / 2); Stroke].

(** The points of the stroked path, in order. *)
Definition vertices (l : list drawCmd) : list (Q * Q) :=
  omap (fun c => match c with
                 | MoveTo x y | LineTo x y => Some (x, y)
                 | _ => None
                 end) l.

End Waveform.

(** ** The markup's view of the state *)

Module Markup.
Import Audio Generator.

(** [class:active] of a preset button:
<<
    preset.frequency === null
      ? isBrownNoisePlaying
      : beatFrequency === preset.frequency && isBinauralPlaying
>> *)
Definition isActive (frequency : option Q) (s : state) : bool :=
  match frequency with
  | None => isBrownNoisePlaying s
  | Some f => Qeq_bool (beatFrequency s) f && isBinauralPlaying s
  end.

(** The names of the highlighted buttons, in display order. *)
Definition activeButtons (s : state) : list string :=
  omap (fun p : string * option Q * string =>
          let '(name, frequency, _) := p in
          if isActive frequency s then Some name else None)
       brainwavePresets.

End Markup.

(** ** One frame of the redraw loop *)

Module Redraw.
Import Audio Generator Waveform.

(** [analyserNode.frequencyBinCount]: half the FFT size. *)
Definition frequencyBinCount (nd : node) : nat := (fftSize nd / 2)%nat.

(** What one call of [drawWaveform] puts on the canvas when the analyser
    delivers [dataArray]; [None] when it returns before drawing:
<<
    if (!analyserNode || !canvas) return
    const ctx = canvas.getContext('2d')
    if (!ctx) return
>> *)
Definition frameOf (s : state) (dataArray : list N) : option (list drawCmd) :=
  match analyserNode s, canvas s with
  | Some _, Some cv =>
      if context2d cv
      then Some (drawing (inject_Z (Z.of_nat (width cv)))
                   (inject_Z (Z.of_nat (height cv))) dataArray)
      else None
  | _, _ => None
  end.

End Redraw.


(** ** The audio graph and the redraw loop, as invariants *)

Module Routing.
Import Audio Generator Invariant Observe.

(** The mix gain node feeds analyser [a]. *)
Definition isMixGain (a : nat) (nd : node) : Prop :=
  kind nd = Gain /\ outputs nd = [(a, 0%nat, 0%nat)].

(** The analyser: [fftSize] 2048, feeding destination [d]. *)
Definition isTap (d : nat) (nd : node) : Prop :=
  kind nd = Analyser /\ fftSize nd = 2048%nat /\
  outputs nd = [(d, 0%nat, 0%nat)].

Definition isSink (nd : node) : Prop := kind nd = Destination.

(** A looping buffer source playing buffer [b] into node [g]. *)
Definition isLoop (g b : nat) (nd : node) : Prop :=
  kind nd = BufferSource /\ outputs nd = [(g, 0%nat, 0%nat)] /\
  loop nd = true /\ buffer nd = Some b.

(** An oscillator feeding node [lg]. *)
Definition isOsc (lg : nat) (nd : node) : Prop :=
  kind nd = Oscillator /\ outputs nd = [(lg, 0%nat, 0%nat)].

(** A per-channel gain node at its fixed gain 0.1. *)
Definition isChannel (nd : node) : Prop :=
  kind nd = Gain /\ value nd = 1 # 10.

(** An oscillator at frequency [f]. *)
Definition hasFrequency (f : Q) (nd : node) : Prop :=
  kind nd = Oscillator /\ value nd = f.

(** The output chain: mix gain -> analyser -> destination of the context,
    which runs at the device's sample rate. *)
Definition chained (s : state) : Prop :=
  forall c, audioContext s = Some c ->
    exists cx g a,
      contexts s !! c = Some cx /\ sampleRate cx = deviceSampleRate s /\
      gainNode s = Some g /\ analyserNode s = Some a /\
      nodeHas (nodes s) g (isMixGain a) /\
      nodeHas (nodes s) a (isTap (destination cx)) /\
      nodeHas (nodes s) (destination cx) isSink.

(** The playing noise source loops a buffer that one run of the synthesis
    produced for one second at the device's rate, into the mix gain. *)
Definition noiseRouted (s : state) : Prop :=
  isBrownNoisePlaying s = true ->
    exists n g b r0,
      brownNoiseNode s = Some n /\ gainNode s = Some g /\
      nodeHas (nodes s) n (isLoop g b) /\
      buffers s !! b
      = Some (Noise.createBrownNoise (fun k => tape s (r0 + k)%nat) 1
                (deviceSampleRate s)).

(** The playing oscillators feed the per-channel gain nodes, which are at
    gain 0.1. *)
Definition tonesRouted (s : state) : Prop :=
  isBinauralPlaying s = true ->
    exists l r lg rg,
      leftOscillator s = Some l /\ rightOscillator s = Some r /\
      leftGain s = Some lg /\ rightGain s = Some rg /\
      nodeHas (nodes s) l (isOsc lg) /\ nodeHas (nodes s) r (isOsc rg) /\
      nodeHas (nodes s) lg isChannel /\ nodeHas (nodes s) rg isChannel.

(** The per-channel gain nodes are not the mix gain node. *)
Definition gainsApart (s : state) : Prop :=
  forall g, gainNode s = Some g ->
    leftGain s <> Some g /\ rightGain s <> Some g.

(** A stored frame handle implies that the analyser exists. *)
Definition handleHasTap (s : state) : Prop :=
  animationFrameId s <> None -> analyserNode s <> None.

Record routed (s : state) : Prop := mkRouted {
  rt_chain : chained s;
  rt_noise : noiseRouted s;
  rt_tones : tonesRouted s;
  rt_apart : gainsApart s;
  rt_handle : handleHasTap s;
  rt_base : baseFrequency s = 200
}.

(** The playing oscillators are at the carrier and at carrier plus beat. *)
Definition tuned (s : state) : Prop :=
  isBinauralPlaying s = true ->
    exists l r,
      leftOscillator s = Some l /\ rightOscillator s = Some r /\
      nodeHas (nodes s) l (hasFrequency (baseFrequency s)) /\
      nodeHas (nodes s) r (hasFrequency (baseFrequency s + beatFrequency s)).

(** Components whose canvas, whenever one is mounted, has a 2d context. *)
Definition allowed2d (a : action) : Prop :=
  allowed a /\
  match a with
  | Mount cv _ => context2d cv = true
  | _ => True
  end.

Inductive reachable2d (t : nat -> Q) (rate : nat) : state -> Prop :=
| reachable2d_init : reachable2d t rate (init t rate)
| reachable2d_step s a s' :
    reachable2d t rate s -> allowed2d a -> perform a s = Ok tt s' ->
    reachable2d t rate s'.

(** Every mounted canvas can be drawn on, and a stored frame handle is the
    one pending callback. *)
Definition looping (s : state) : Prop :=
  (forall cv, canvas s = Some cv -> context2d cv = true) /\
  (forall id, animationFrameId s = Some id ->
     pending s = [id] /\ canvas s <> None /\ analyserNode s <> None).

(** State [s'] has the audio context and the output chain of [s]. *)
Definition sameContext (s s' : state) : Prop :=
  audioContext s' = audioContext s /\ contexts s' = contexts s /\
  gainNode s' = gainNode s /\ analyserNode s' = analyserNode s.

(** Before the first activation the script has allocated nothing and made
    no platform call; afterwards there is exactly one context. *)
Definition lazily (s : state) : Prop :=
  match audioContext s with
  | None =>
      contexts s = [] /\ nodes s = [] /\ buffers s = [] /\ trace s = [] /\
      rng s = 0%nat
  | Some c => c = 0%nat /\ length (contexts s) = 1%nat
  end.

(** The actions that can activate the audio. *)
Definition activates (a : action) : bool :=
  match a with
  | SelectPreset _ | ToggleBrownNoise | ToggleBinauralBeats => true
  | _ => false
  end.

(** A mounted canvas is 100 pixels high. *)
Definition sized (s : state) : Prop :=
  forall cv, canvas s = Some cv -> height cv = 100%nat.

(** The volume stays in the slider's range, and the mix gain node holds the
    volume or a tenth of it. *)
Definition isLevel (v : Q) (nd : node) : Prop :=
  kind nd = Gain /\ (value nd = v \/ value nd = v * (1 # 10)).

Definition levelled (s : state) : Prop :=
  0 <= volume s <= 1 /\
  forall g, gainNode s = Some g -> nodeHas (nodes s) g (isLevel (volume s)).

(** The audio parameter of node [n]: the gain of a gain node, the frequency
    of an oscillator. *)
Definition paramOf (s : state) (n : nat) : option Q :=
  match nodes s !! n with
  | Some nd => Some (value nd)
  | None => None
  end.

(** The source nodes the variables refer to. *)
Definition sourceRefs (s : state) : list nat :=
  omap (fun x : option nat => x)
    [brownNoiseNode s; leftOscillator s; rightOscillator s].

End Routing.


(** ** The script computes the closed forms *)

Module Exec.
Import Audio Generator Effects.

Lemma lookup_app_plus {A} (h l : list A) k :
  (h ++ l) !! (length h + k)%nat = l !! k.
Proof. rewrite lookup_app_r by lia. f_equal. lia. Qed.

Lemma lookup_app_len0 {A} (h l : list A) : (h ++ l) !! (length h) = l !! 0%nat.
Proof. rewrite <- (Nat.add_0_r (length h)) at 1. apply lookup_app_plus. Qed.

Lemma length_app_cons {A} (h : list A) x l :
  length (h ++ x :: l) = (length h + S (length l))%nat.
Proof. rewrite length_app. reflexivity. Qed.

Lemma alter_app_len0 {A} (f : A -> A) (h l : list A) :
  alter f (length h) (h ++ l) = h ++ alter f 0%nat l.
Proof. rewrite <- (Nat.add_0_r (length h)) at 1. apply alter_app_r. Qed.

(** Unfold the assignments and read the fields back. *)
Ltac setters :=
  cbv [set_audioContext set_brownNoiseNode set_gainNode set_analyserNode
       set_leftOscillator set_rightOscillator set_leftGain set_rightGain
       set_isBrownNoisePlaying set_isBinauralPlaying set_volume
       set_beatFrequency set_canvas set_animationFrameId set_contexts
       set_nodes set_buffers set_rng set_pending set_nextFrame set_trace
       audioContext brownNoiseNode gainNode analyserNode leftOscillator
       rightOscillator leftGain rightGain isBrownNoisePlaying
       isBinauralPlaying volume baseFrequency beatFrequency canvas
       animationFrameId contexts nodes buffers tape rng deviceSampleRate
       pending nextFrame trace].

(** Run the monadic code as far as it computes. *)
Ltac run :=
  cbv [skip when get modify deref log updateNode mbind M_bind mret M_ret
       createNode setValue connect disconnect setFftSize setBuffer setLoop
       newAudioContext newAudioBuffer requestAnimationFrame
       cancelAnimationFrame closeContext callCreateBrownNoise orb andb negb];
  setters.

Lemma with_value_mk v k v0 b l f st sp o :
  with_value v (mkNode k v0 b l f st sp o) = mkNode k v b l f st sp o.
Proof. reflexivity. Qed.
Lemma with_buffer_mk x k v b l f st sp o :
  with_buffer x (mkNode k v b l f st sp o) = mkNode k v x l f st sp o.
Proof. reflexivity. Qed.
Lemma with_loop_mk x k v b l f st sp o :
  with_loop x (mkNode k v b l f st sp o) = mkNode k v b x f st sp o.
Proof. reflexivity. Qed.
Lemma with_fftSize_mk x k v b l f st sp o :
  with_fftSize x (mkNode k v b l f st sp o) = mkNode k v b l x st sp o.
Proof. reflexivity. Qed.
Lemma with_started_mk x k v b l f st sp o :
  with_started x (mkNode k v b l f st sp o) = mkNode k v b l f x sp o.
Proof. reflexivity. Qed.
Lemma with_stopped_mk x k v b l f st sp o :
  with_stopped x (mkNode k v b l f st sp o) = mkNode k v b l f st x o.
Proof. reflexivity. Qed.
Lemma with_outputs_mk x k v b l f st sp o :
  with_outputs x (mkNode k v b l f st sp o) = mkNode k v b l f st sp x.
Proof. reflexivity. Qed.

(** Bring a heap built by allocations and updates of fresh nodes into the
    form [old ++ new]. *)
Ltac heap_step :=
  rewrite ?length_alter, <- ?app_assoc, ?length_app_cons, ?alter_app_r,
    ?alter_app_len0, ?lookup_app_plus, ?lookup_app_len0;
  cbv [newNode defaultValue];
  cbn [app length alter list_alter lookup list_lookup kind value buffer loop
       fftSize started stopped outputs sampleRate destination closed];
  rewrite ?with_value_mk, ?with_buffer_mk, ?with_loop_mk, ?with_fftSize_mk,
    ?with_started_mk, ?with_stopped_mk, ?with_outputs_mk.
Ltac heap := repeat (progress heap_step).

Ltac closed_form :=
  cbv [contextCreated tonesOn tonesOff noiseOn noiseOff drawn frameCancelled
       gainSet idle oscillator];
  setters.

Lemma ensureContext_some s c :
  audioContext s = Some c -> ensureContext s = Ok tt s.
Proof.
  intros Hc. destruct s; cbn in *; subst. unfold ensureContext. run.
  reflexivity.
Qed.

Lemma ensureContext_none s :
  audioContext s = None ->
  isBrownNoisePlaying s = false -> isBinauralPlaying s = false ->
  ensureContext s = Ok tt (contextCreated s).
Proof.
  intros Hc Hn Ht. destruct s; cbn in *; subst.
  unfold ensureContext, setupAnalyser, destinationOf. run. heap. run.
  closed_form. reflexivity.
Qed.


(** The first activation behaves like an activation in the state that has
    the context already. *)
Lemma toggleBrownNoise_fresh s :
  audioContext s = None ->
  isBrownNoisePlaying s = false -> isBinauralPlaying s = false ->
  toggleBrownNoise s = toggleBrownNoise (contextCreated s).
Proof.
  intros Hc Hn Ht. unfold toggleBrownNoise. cbv [mbind M_bind].
  rewrite (ensureContext_none s Hc Hn Ht).
  rewrite (ensureContext_some (contextCreated s) (length (contexts s)));
    reflexivity.
Qed.

Lemma toggleBinauralBeats_fresh s :
  audioContext s = None ->
  isBrownNoisePlaying s = false -> isBinauralPlaying s = false ->
  toggleBinauralBeats s = toggleBinauralBeats (contextCreated s).
Proof.
  intros Hc Hn Ht. unfold toggleBinauralBeats, setupBinauralBeats, get.
  cbv [mbind M_bind].
  change (isBinauralPlaying (contextCreated s)) with (isBinauralPlaying s).
  rewrite Ht. cbn [negb].
  rewrite (ensureContext_none s Hc Hn Ht).
  rewrite (ensureContext_some (contextCreated s) (length (contexts s)));
    reflexivity.
Qed.

Lemma toggleBinauralBeats_on s c g :
  audioContext s = Some c -> gainNode s = Some g ->
  isBinauralPlaying s = false ->
  toggleBinauralBeats s = Ok tt (tonesOn g s).
Proof.
  intros Hc Hg Ht. destruct s; cbn in *; subst.
  unfold toggleBinauralBeats, setupBinauralBeats, ensureContext, start.
  run. heap. closed_form. reflexivity.
Qed.

Lemma toggleBinauralBeats_off s l r ndl ndr :
  isBinauralPlaying s = true ->
  leftOscillator s = Some l -> rightOscillator s = Some r -> l <> r ->
  nodes s !! l = Some ndl -> started ndl = true ->
  nodes s !! r = Some ndr -> started ndr = true ->
  toggleBinauralBeats s = Ok tt (tonesOff l r s).
Proof.
  intros Ht Hl Hr Hne Hndl Hsl Hndr Hsr. destruct s; cbn in *; subst.
  unfold toggleBinauralBeats, stop. run.
  rewrite Hndl, Hsl. run.
  rewrite list_lookup_alter_ne by exact Hne. rewrite Hndr, Hsr. run.
  closed_form. rewrite <- !app_assoc. reflexivity.
Qed.

Lemma toggleBrownNoise_on s c cx g :
  audioContext s = Some c -> contexts s !! c = Some cx ->
  gainNode s = Some g -> (g < length (nodes s))%nat ->
  isBrownNoisePlaying s = false ->
  toggleBrownNoise s = Ok tt (noiseOn (sampleRate cx) g s).
Proof.
  intros Hc Hcx Hg Hlt Hn. destruct s; cbn in *; subst.
  unfold toggleBrownNoise, ensureContext, sampleRateOf, start. run.
  rewrite Hcx. run. heap.
  rewrite (alter_app_l _ _ _ g) by exact Hlt.
  remember (alter (with_value (volume0 * (1 # 10))) g nodes0) as h eqn:Hh.
  assert (Hlen : length h = length nodes0) by (subst h; apply length_alter).
  rewrite <- !Hlen. heap. run. closed_form. rewrite Hlen, Hh. reflexivity.
Qed.

Lemma toggleBrownNoise_off s c n nd :
  audioContext s = Some c ->
  isBrownNoisePlaying s = true -> brownNoiseNode s = Some n ->
  nodes s !! n = Some nd -> started nd = true ->
  toggleBrownNoise s = Ok tt (noiseOff n s).
Proof.
  intros Hc Hp Hn Hnd Hst. destruct s; cbn in *; subst.
  unfold toggleBrownNoise, ensureContext, stop. run.
  rewrite Hnd, Hst. run. closed_form. rewrite <- !app_assoc. reflexivity.
Qed.

Lemma drawWaveform_draws s a cv :
  analyserNode s = Some a -> canvas s = Some cv -> context2d cv = true ->
  drawWaveform s = Ok tt (drawn a s).
Proof.
  intros Ha Hcv H2d. destruct s; cbn in *; subst.
  unfold drawWaveform. run. rewrite H2d. run. closed_form.
  rewrite <- !app_assoc. reflexivity.
Qed.

Lemma drawWaveform_returns s :
  analyserNode s = None \/ canvas s = None \/
  (exists cv, canvas s = Some cv /\ context2d cv = false) ->
  drawWaveform s = Ok tt s.
Proof.
  intros H. destruct s; cbn in *. unfold drawWaveform. run.
  destruct H as [->|[->|[cv [-> H2d]]]].
  - reflexivity.
  - destruct analyserNode0; reflexivity.
  - rewrite H2d. destruct analyserNode0; reflexivity.
Qed.

Lemma updateVolume_set s g :
  gainNode s = Some g ->
  updateVolume s
  = Ok tt (gainSet g (if isBrownNoisePlaying s then volume s * (1 # 10)
                      else volume s) s).
Proof.
  intros Hg. destruct s; cbn in *; subst. unfold updateVolume. run.
  destruct isBrownNoisePlaying0; closed_form; reflexivity.
Qed.

Lemma updateVolume_guarded s :
  gainNode s = None -> updateVolume s = Ok tt s.
Proof.
  intros Hg. destruct s; cbn in *; subst. unfold updateVolume. run.
  reflexivity.
Qed.

End Exec.

(** ** Every action keeps the invariant and none throws *)

Module Preserve.
Import Audio Generator Effects Invariant Exec.

(** *** The heap under allocation and update *)

Lemma nodeHas_lt h n P : nodeHas h n P -> (n < length h)%nat.
Proof. intros [nd [Hn _]]. eapply lookup_lt_Some, Hn. Qed.

Lemma nodeHas_app h l n P : nodeHas h n P -> nodeHas (h ++ l) n P.
Proof.
  intros [nd [Hn HP]]. exists nd. split; [|exact HP].
  rewrite lookup_app_l; [exact Hn|]. eapply lookup_lt_Some, Hn.
Qed.

Lemma nodeHas_alter_keep h n m f (P : node -> Prop) :
  (forall nd, P nd -> P (f nd)) -> nodeHas h n P -> nodeHas (alter f m h) n P.
Proof.
  intros Hf [nd [Hn HP]]. destruct (decide (m = n)) as [->|Hne].
  - exists (f nd). rewrite list_lookup_alter_eq, Hn. split; [reflexivity|auto].
  - exists nd. rewrite list_lookup_alter_ne by exact Hne. auto.
Qed.

Lemma nodeHas_alter_other h n m f (P Q : node -> Prop) :
  (forall nd, P nd -> Q nd -> False) ->
  nodeHas h m Q -> nodeHas h n P -> nodeHas (alter f m h) n P.
Proof.
  intros Hex [ndm [Hm HQ]] [nd [Hn HP]].
  exists nd. split; [|exact HP].
  rewrite list_lookup_alter_ne; [exact Hn|].
  intros ->. rewrite Hm in Hn. injection Hn as ->. eauto.
Qed.

Lemma nodeHas_new h l k nd (P : node -> Prop) :
  l !! k = Some nd -> P nd -> nodeHas (h ++ l) (length h + k) P.
Proof.
  intros Hl HP. exists nd. rewrite lookup_app_plus. auto.
Qed.

Lemma nodeHas_new0 h l nd (P : node -> Prop) :
  l !! 0%nat = Some nd -> P nd -> nodeHas (h ++ l) (length h) P.
Proof.
  intros Hl HP. exists nd. rewrite lookup_app_len0. auto.
Qed.

Lemma kinds_apart k1 st1 sp1 k2 st2 sp2 nd :
  k1 <> k2 -> isNode k1 st1 sp1 nd -> isNode k2 st2 sp2 nd -> False.
Proof. intros Hne [H1 _] [H2 _]. congruence. Qed.

Lemma wired_apart k1 out k2 st2 sp2 nd :
  k1 <> k2 -> isWired k1 out nd -> isNode k2 st2 sp2 nd -> False.
Proof. intros Hne [H1 _] [H2 _]. congruence. Qed.

(** Updates that leave the flags, respectively the wiring, alone. *)
Lemma isNode_value k st sp v nd : isNode k st sp nd -> isNode k st sp (with_value v nd).
Proof. exact (fun H => H). Qed.
Lemma isNode_outputs k st sp o nd :
  isNode k st sp nd -> isNode k st sp (with_outputs o nd).
Proof. exact (fun H => H). Qed.
Lemma isWired_value k out v nd : isWired k out nd -> isWired k out (with_value v nd).
Proof. exact (fun H => H). Qed.


Lemma nodeHas_alter_ne h n m f (P : node -> Prop) :
  m <> n -> nodeHas h n P -> nodeHas (alter f m h) n P.
Proof.
  intros Hne [nd [Hn HP]]. exists nd.
  rewrite list_lookup_alter_ne by exact Hne. auto.
Qed.

Lemma apart h n m (P Q : node -> Prop) :
  nodeHas h n P -> nodeHas h m Q -> (forall nd, P nd -> Q nd -> False) ->
  m <> n.
Proof.
  intros [nd [Hn HP]] [ndm [Hm HQ]] Hex ->.
  rewrite Hm in Hn. injection Hn as ->. eauto.
Qed.

Lemma nodeHas_fresh (h h' l : list node) nd (P : node -> Prop) :
  length h' = length h -> l !! 0%nat = Some nd -> P nd ->
  nodeHas (h' ++ l) (length h) P.
Proof.
  intros Hlen Hl HP. rewrite <- Hlen. eapply nodeHas_new0; eauto.
Qed.

Ltac open_wf :=
  unfold wf_context, wf_noise, wf_tones, wf_channels, wf_frames, nodeAt,
    wired in *.

(** Two nodes of different kinds are different nodes. *)
Ltac apart_tac :=
  match goal with
  | H1 : nodeHas ?h ?n _, H2 : nodeHas ?h ?m _ |- ?m <> ?n =>
      apply (apart h n m _ _ H1 H2);
      let HP := fresh in let HQ := fresh in
      intros ? HP HQ; destruct HP as [HP _]; destruct HQ as [HQ _];
      congruence
  end.

(** A node that an update does not concern keeps its properties. *)
Ltac frame :=
  repeat first
    [ assumption
    | apply nodeHas_app
    | apply nodeHas_alter_keep; [intros ? ?; assumption|]
    | apply nodeHas_alter_ne; [apart_tac|] ].

(** *** The closed forms keep the invariant *)

Lemma wf_contextCreated s :
  wf s -> audioContext s = None -> wf (contextCreated s).
Proof.
  intros [Hc Hn Ht Hch Hf] Hctx. open_wf. rewrite Hctx in Hc.
  destruct Hc as (Hg & Ha & Hnoise & Htones & Hlg & Hrg).
  rewrite Hnoise in Hn. rewrite Htones in Ht. rewrite Hlg, Hrg in Hch.
  split; open_wf; unfold contextCreated; cbn.
  - split; [|split].
    + exists (mkContext (deviceSampleRate s) (length (nodes s)) false).
      rewrite lookup_app_len0. auto.
    + eexists; split; [reflexivity|].
      eapply nodeHas_new; [reflexivity|repeat split].
    + eexists; split; [reflexivity|].
      eapply nodeHas_new; [reflexivity|repeat split].
  - rewrite Hnoise. exact Hn.
  - rewrite Htones. exact Ht.
  - rewrite Hlg, Hrg. exact Hch.
  - exact Hf.
Qed.

Lemma wf_tonesOn s c g :
  wf s -> audioContext s = Some c -> gainNode s = Some g ->
  isBinauralPlaying s = false -> wf (tonesOn g s).
Proof.
  intros [Hc Hn Ht Hch Hf] Hctx Hg Hoff. open_wf. rewrite Hctx in Hc.
  destruct Hc as (Hcx & (g' & Hg' & Hgn) & (a & Ha & Han)).
  split; open_wf; unfold tonesOn; cbn.
  - rewrite Hctx. split; [exact Hcx|]. split.
    + exists g'. split; [exact Hg'|frame].
    + exists a. split; [exact Ha|frame].
  - destruct (isBrownNoisePlaying s); [|exact Hn].
    destruct Hn as (n & Hbn & Hnn). exists n. split; [exact Hbn|frame].
  - exists (length (nodes s)), (length (nodes s) + 1)%nat.
    split; [reflexivity|]. split; [reflexivity|]. split; [lia|]. split.
    + eapply nodeHas_new0; [reflexivity|repeat split].
    + eapply nodeHas_new; [reflexivity|repeat split].
  - exists (length (nodes s) + 4)%nat, g. split; [exact Hg|].
    split; [|split]; (eapply nodeHas_new; [reflexivity|repeat split]).
  - exact Hf.
Qed.

Lemma wf_tonesOff s l r :
  wf s -> isBinauralPlaying s = true ->
  leftOscillator s = Some l -> rightOscillator s = Some r ->
  wf (tonesOff l r s).
Proof.
  intros [Hc Hn Ht Hch Hf] Hon Hl Hr. open_wf. rewrite Hon in Ht.
  destruct Ht as (l' & r' & Hl' & Hr' & Hne & Hnl & Hnr).
  rewrite Hl in Hl'. injection Hl' as <-.
  rewrite Hr in Hr'. injection Hr' as <-.
  split; open_wf; unfold tonesOff; cbn.
  - destruct (audioContext s) as [c|];
      [|destruct Hc as (_ & _ & Hx & Hy & _); congruence].
    destruct Hc as (Hcx & (g & Hg & Hgn) & (a & Ha & Han)).
    split; [exact Hcx|]. split.
    + exists g. split; [exact Hg|frame].
    + exists a. split; [exact Ha|frame].
  - destruct (isBrownNoisePlaying s); [|exact Hn].
    destruct Hn as (n & Hbn & Hnn). exists n. split; [exact Hbn|frame].
  - auto.
  - destruct (leftGain s) as [lg|], (rightGain s) as [rg|]; try exact Hch.
    + destruct Hch as (m & g & Hg & Hlg & Hrg & Hm).
      exists m, g. split; [exact Hg|]. split; [|split]; frame.
    + reflexivity.
  - exact Hf.
Qed.

Lemma wf_noiseOn s c rate g :
  wf s -> audioContext s = Some c -> gainNode s = Some g ->
  isBrownNoisePlaying s = false -> wf (noiseOn rate g s).
Proof.
  intros [Hc Hn Ht Hch Hf] Hctx Hg Hoff. open_wf. rewrite Hctx in Hc.
  destruct Hc as (Hcx & (g' & Hg' & Hgn) & (a & Ha & Han)).
  split; open_wf; unfold noiseOn; cbn.
  - rewrite Hctx. split; [exact Hcx|]. split.
    + exists g'. split; [exact Hg'|frame].
    + exists a. split; [exact Ha|frame].
  - exists (length (nodes s)). split; [reflexivity|].
    eapply nodeHas_fresh; [apply length_alter|reflexivity|repeat split].
  - destruct (isBinauralPlaying s); [|exact Ht].
    destruct Ht as (l & r & Hl & Hr & Hne & Hnl & Hnr).
    exists l, r. repeat (split; [assumption|]). split; frame.
  - destruct (leftGain s) as [lg|], (rightGain s) as [rg|]; try exact Hch.
    destruct Hch as (m & g0 & Hg0 & Hlg & Hrg & Hm).
    exists m, g0. split; [exact Hg0|]. split; [|split]; frame.
  - exact Hf.
Qed.

Lemma wf_noiseOff s n :
  wf s -> isBrownNoisePlaying s = true -> brownNoiseNode s = Some n ->
  wf (noiseOff n s).
Proof.
  intros [Hc Hn Ht Hch Hf] Hon Hbn. open_wf. rewrite Hon in Hn.
  destruct Hn as (n' & Hn' & Hnn). rewrite Hbn in Hn'. injection Hn' as <-.
  split; open_wf; unfold noiseOff; cbn.
  - destruct (audioContext s) as [c|];
      [|destruct Hc as (_ & _ & Hx & Hy & _); congruence].
    destruct Hc as (Hcx & (g & Hg & Hgn) & (a & Ha & Han)).
    split; [exact Hcx|]. split.
    + exists g. split; [exact Hg|frame].
    + exists a. split; [exact Ha|frame].
  - reflexivity.
  - destruct (isBinauralPlaying s); [|exact Ht].
    destruct Ht as (l & r & Hl & Hr & Hne & Hnl & Hnr).
    exists l, r. repeat (split; [assumption|]). split; frame.
  - destruct (leftGain s) as [lg|], (rightGain s) as [rg|]; try exact Hch.
    destruct Hch as (m & g0 & Hg0 & Hlg & Hrg & Hm).
    exists m, g0. split; [exact Hg0|]. split; [|split]; frame.
  - exact Hf.
Qed.

Lemma wf_gainSet s g v : wf s -> wf (gainSet g v s).
Proof.
  intros [Hc Hn Ht Hch Hf].
  split; open_wf; unfold gainSet; cbn.
  - destruct (audioContext s) as [c|]; [|exact Hc].
    destruct Hc as (Hcx & (g0 & Hg & Hgn) & (a & Ha & Han)).
    split; [exact Hcx|]. split.
    + exists g0. split; [exact Hg|frame].
    + exists a. split; [exact Ha|frame].
  - destruct (isBrownNoisePlaying s); [|exact Hn].
    destruct Hn as (n & Hbn & Hnn). exists n. split; [exact Hbn|frame].
  - destruct (isBinauralPlaying s); [|exact Ht].
    destruct Ht as (l & r & Hl & Hr & Hne & Hnl & Hnr).
    exists l, r. repeat (split; [assumption|]). split; frame.
  - destruct (leftGain s) as [lg|], (rightGain s) as [rg|]; try exact Hch.
    destruct Hch as (m & g1 & Hg1 & Hlg & Hrg & Hm).
    exists m, g1. split; [exact Hg1|]. split; [|split]; frame.
  - exact Hf.
Qed.

Lemma wf_drawn s a : wf s -> pending s = [] -> wf (drawn a s).
Proof.
  intros [Hc Hn Ht Hch [Hp [Hid Hnext]]] Hnil.
  split; try assumption.
  unfold wf_frames, drawn. cbn. rewrite Hnil. split; [|split].
  - right. exists (nextFrame s). auto.
  - intros id [= <-]. lia.
  - lia.
Qed.

Lemma wf_frameCancelled s id :
  wf s -> animationFrameId s = Some id -> wf (frameCancelled id s).
Proof.
  intros [Hc Hn Ht Hch [Hp [Hid Hnext]]] Hfr.
  split; try assumption.
  unfold wf_frames, frameCancelled. cbn. split; [|split].
  - left. destruct Hp as [->|(id' & -> & Hid')]; [reflexivity|].
    rewrite Hfr in Hid'. injection Hid' as <-. cbn.
    rewrite Nat.eqb_refl. reflexivity.
  - discriminate.
  - exact Hnext.
Qed.

(** A callback that fired is no longer pending. *)
Lemma wf_fired s id :
  wf s ->
  wf (set_pending (List.filter (fun k => negb (Nat.eqb k id)) (pending s)) s)
  /\ (existsb (Nat.eqb id) (pending s) = true ->
      List.filter (fun k => negb (Nat.eqb k id)) (pending s) = []).
Proof.
  intros [Hc Hn Ht Hch [Hp [Hid Hnext]]].
  assert (Hcase : pending s = [] \/ exists k, pending s = [k]).
  { destruct Hp as [?|(k & ? & _)]; eauto. }
  split.
  - split; try assumption. unfold wf_frames. cbn. split; [|auto].
    destruct Hp as [->|(k & Hk & Hfr)]; [left; reflexivity|].
    rewrite Hk. cbn. destruct (Nat.eqb k id); cbn; [left; reflexivity|].
    right. exists k. auto.
  - destruct Hcase as [->|(k & ->)]; cbn; [discriminate|].
    rewrite orb_false_r. intros Heq. apply Nat.eqb_eq in Heq. subst k.
    rewrite Nat.eqb_refl. reflexivity.
Qed.

(** A handle that does not count as true has no callback pending. *)
Lemma falsy_not_pending s :
  wf s -> truthy (animationFrameId s) = false -> pending s = [].
Proof.
  intros [_ _ _ _ [Hp [Hid _]]] Hfalsy.
  destruct Hp as [?|(id & _ & Hfr)]; [assumption|].
  specialize (Hid id Hfr). rewrite Hfr in Hfalsy.
  destruct id; [lia|discriminate].
Qed.


(** *** The script's functions under the invariant *)

Lemma drawWaveform_closed s : drawWaveform s = Ok tt (redrawn s).
Proof.
  unfold redrawn.
  destruct (analyserNode s) as [a|] eqn:Ha;
    [|apply drawWaveform_returns; auto].
  destruct (canvas s) as [cv|] eqn:Hcv;
    [|apply drawWaveform_returns; auto].
  destruct (context2d cv) eqn:H2d.
  - eapply drawWaveform_draws; eauto.
  - apply drawWaveform_returns. eauto.
Qed.

Lemma wf_redrawn s : wf s -> pending s = [] -> wf (redrawn s).
Proof.
  intros Hwf Hnil. unfold redrawn.
  destruct (analyserNode s); [|exact Hwf].
  destruct (canvas s) as [cv|]; [|exact Hwf].
  destruct (context2d cv); [|exact Hwf].
  apply wf_drawn; assumption.
Qed.

Lemma wf_withContext s : wf s -> wf (withContext s).
Proof.
  intros Hwf. unfold withContext.
  destruct (audioContext s) eqn:Hctx; [exact Hwf|].
  apply wf_contextCreated; assumption.
Qed.

Lemma withContext_context s :
  wf s -> exists c cx g,
    audioContext (withContext s) = Some c /\
    contexts (withContext s) !! c = Some cx /\
    gainNode (withContext s) = Some g /\
    (g < length (nodes (withContext s)))%nat.
Proof.
  intros Hwf. apply wf_withContext in Hwf as Hwf'.
  destruct Hwf' as [Hc _ _ _ _]. open_wf.
  assert (Hsome : exists c, audioContext (withContext s) = Some c).
  { unfold withContext. destruct (audioContext s) eqn:Hctx; eauto. }
  destruct Hsome as [c Hctx]. rewrite Hctx in Hc.
  destruct Hc as ((cx & Hcx & _) & (g & Hg & Hgn) & _).
  exists c, cx, g. repeat (split; [assumption|]).
  eapply nodeHas_lt, Hgn.
Qed.

Lemma toggleBrownNoise_withContext s :
  wf s -> isBrownNoisePlaying s = false ->
  toggleBrownNoise s = toggleBrownNoise (withContext s).
Proof.
  intros [Hc _ _ _ _] Hoff. unfold withContext.
  destruct (audioContext s) eqn:Hctx; [reflexivity|].
  unfold wf_context in Hc. rewrite Hctx in Hc.
  apply toggleBrownNoise_fresh; tauto.
Qed.

Lemma toggleBinauralBeats_withContext s :
  wf s -> isBinauralPlaying s = false ->
  toggleBinauralBeats s = toggleBinauralBeats (withContext s).
Proof.
  intros [Hc _ _ _ _] Hoff. unfold withContext.
  destruct (audioContext s) eqn:Hctx; [reflexivity|].
  unfold wf_context in Hc. rewrite Hctx in Hc.
  apply toggleBinauralBeats_fresh; tauto.
Qed.

Lemma withContext_flags s :
  isBrownNoisePlaying (withContext s) = isBrownNoisePlaying s /\
  isBinauralPlaying (withContext s) = isBinauralPlaying s.
Proof. unfold withContext. destruct (audioContext s); split; reflexivity. Qed.

Lemma toggleBrownNoise_closed s :
  wf s -> toggleBrownNoise s = Ok tt (toggledNoise s).
Proof.
  intros Hwf. unfold toggledNoise.
  destruct (isBrownNoisePlaying s) eqn:Hp.
  - destruct Hwf as [Hc Hn _ _ _]. open_wf. rewrite Hp in Hn.
    destruct Hn as (n & Hbn & nd & Hnd & Hk & Hst & Hsp). rewrite Hbn.
    destruct (audioContext s) eqn:Hctx;
      [|destruct Hc as (_ & _ & Hx & _); congruence].
    eapply toggleBrownNoise_off; eauto.
  - rewrite toggleBrownNoise_withContext by assumption. cbv zeta.
    destruct (withContext_context s Hwf) as (c & cx & g & Hctx & Hcx & Hg & Hlt).
    rewrite Hctx, Hg. unfold rateOf. rewrite Hcx.
    eapply toggleBrownNoise_on; eauto.
    rewrite (proj1 (withContext_flags s)). exact Hp.
Qed.

Lemma wf_toggledNoise s : wf s -> wf (toggledNoise s).
Proof.
  intros Hwf. unfold toggledNoise.
  destruct (isBrownNoisePlaying s) eqn:Hp.
  - destruct (brownNoiseNode s) eqn:Hbn; [|exact Hwf].
    apply wf_noiseOff; assumption.
  - cbv zeta.
    destruct (withContext_context s Hwf) as (c & cx & g & Hctx & Hcx & Hg & Hlt).
    rewrite Hctx, Hg. eapply wf_noiseOn; eauto using wf_withContext.
    rewrite (proj1 (withContext_flags s)). exact Hp.
Qed.

Lemma toggleBinauralBeats_closed s :
  wf s -> toggleBinauralBeats s = Ok tt (toggledTones s).
Proof.
  intros Hwf. unfold toggledTones.
  destruct (isBinauralPlaying s) eqn:Hp.
  - destruct Hwf as [_ _ Ht _ _]. open_wf. rewrite Hp in Ht.
    destruct Ht as (l & r & Hl & Hr & Hne & (ndl & Hndl & _ & Hsl & _)
                    & (ndr & Hndr & _ & Hsr & _)).
    rewrite Hl, Hr. eapply toggleBinauralBeats_off; eauto.
  - rewrite toggleBinauralBeats_withContext by assumption. cbv zeta.
    destruct (withContext_context s Hwf) as (c & cx & g & Hctx & Hcx & Hg & Hlt).
    rewrite Hg. eapply toggleBinauralBeats_on; eauto.
    rewrite (proj2 (withContext_flags s)). exact Hp.
Qed.

Lemma wf_toggledTones s : wf s -> wf (toggledTones s).
Proof.
  intros Hwf. unfold toggledTones.
  destruct (isBinauralPlaying s) eqn:Hp.
  - destruct (leftOscillator s) eqn:Hl; [|exact Hwf].
    destruct (rightOscillator s) eqn:Hr; [|exact Hwf].
    apply wf_tonesOff; assumption.
  - cbv zeta.
    destruct (withContext_context s Hwf) as (c & cx & g & Hctx & Hcx & Hg & Hlt).
    rewrite Hg. eapply wf_tonesOn; eauto using wf_withContext.
    rewrite (proj2 (withContext_flags s)). exact Hp.
Qed.

Lemma updateBinauralBeats_closed s :
  updateBinauralBeats s = Ok tt (retuned s).
Proof.
  unfold retuned. destruct s; cbn. unfold updateBinauralBeats. run.
  destruct leftOscillator0, rightOscillator0; reflexivity.
Qed.

Lemma wf_retuned s : wf s -> wf (retuned s).
Proof.
  intros Hwf. unfold retuned.
  destruct (leftOscillator s); [|exact Hwf].
  destruct (rightOscillator s); [|exact Hwf].
  apply wf_gainSet, wf_gainSet, Hwf.
Qed.

Lemma updateVolume_closed s : updateVolume s = Ok tt (volumeApplied s).
Proof.
  unfold volumeApplied. destruct (gainNode s) eqn:Hg.
  - apply updateVolume_set, Hg.
  - apply updateVolume_guarded, Hg.
Qed.

Lemma wf_volumeApplied s : wf s -> wf (volumeApplied s).
Proof.
  intros Hwf. unfold volumeApplied.
  destruct (gainNode s); [apply wf_gainSet|]; exact Hwf.
Qed.


Lemma syncAnimation_closed s : syncAnimation s = Ok tt (reframed s).
Proof.
  unfold syncAnimation, reframed. cbv [mbind M_bind get].
  destruct (isBrownNoisePlaying s), (isBinauralPlaying s),
    (animationFrameId s) as [[|id]|];
    cbn [orb andb negb truthy]; try apply drawWaveform_closed; reflexivity.
Qed.

Lemma wf_reframed s : wf s -> wf (reframed s).
Proof.
  intros Hwf. unfold reframed. cbv zeta.
  destruct (_ && negb _) eqn:Hdraw.
  - apply wf_redrawn; [exact Hwf|]. apply falsy_not_pending; [exact Hwf|].
    apply andb_prop in Hdraw as [_ Hfalsy].
    destruct (truthy (animationFrameId s)); [discriminate|reflexivity].
  - destruct (_ && truthy _); [|exact Hwf].
    destruct (animationFrameId s) eqn:Hfr; [|exact Hwf].
    apply wf_frameCancelled; assumption.
Qed.

Lemma setBrainwavePreset_closed s f :
  wf s -> setBrainwavePreset f s = Ok tt (selected f s).
Proof.
  intros Hwf. unfold setBrainwavePreset, selected.
  destruct f as [f|]; cbv [mbind M_bind get modify when skip mret M_ret].
  - assert (Hwf0 : wf (set_beatFrequency f s)) by (destruct Hwf; split; assumption).
    set (s0 := set_beatFrequency f s) in *.
    destruct (isBrownNoisePlaying s0) eqn:Hn.
    + rewrite (toggleBrownNoise_closed s0 Hwf0).
      pose proof (wf_toggledNoise s0 Hwf0) as Hwf1.
      destruct (isBinauralPlaying (toggledNoise s0)); cbn [negb].
      * rewrite updateBinauralBeats_closed. apply syncAnimation_closed.
      * rewrite (toggleBinauralBeats_closed _ Hwf1). apply syncAnimation_closed.
    + destruct (isBinauralPlaying s0); cbn [negb].
      * rewrite updateBinauralBeats_closed. apply syncAnimation_closed.
      * rewrite (toggleBinauralBeats_closed _ Hwf0). apply syncAnimation_closed.
  - rewrite (toggleBrownNoise_closed s Hwf).
    pose proof (wf_toggledNoise s Hwf) as Hwf1.
    destruct (isBinauralPlaying (toggledNoise s)).
    + rewrite (toggleBinauralBeats_closed _ Hwf1). apply syncAnimation_closed.
    + apply syncAnimation_closed.
Qed.

Lemma wf_set_beatFrequency s f : wf s -> wf (set_beatFrequency f s).
Proof. intros []; split; assumption. Qed.

Lemma wf_set_volume s v : wf s -> wf (set_volume v s).
Proof. intros []; split; assumption. Qed.

Lemma wf_set_canvas s cv : wf s -> wf (set_canvas cv s).
Proof. intros []; split; assumption. Qed.

Lemma wf_selected s f : wf s -> wf (selected f s).
Proof.
  intros Hwf. unfold selected. destruct f as [f|]; cbv zeta.
  - apply wf_reframed.
    pose proof (wf_set_beatFrequency s f Hwf) as Hwf0.
    destruct (isBrownNoisePlaying (set_beatFrequency f s)).
    + pose proof (wf_toggledNoise _ Hwf0) as Hwf1.
      destruct (isBinauralPlaying _); auto using wf_retuned, wf_toggledTones.
    + destruct (isBinauralPlaying _); auto using wf_retuned, wf_toggledTones.
  - apply wf_reframed. pose proof (wf_toggledNoise s Hwf) as Hwf1.
    destruct (isBinauralPlaying _); auto using wf_toggledTones.
Qed.

Lemma resizeCanvas_closed s w : resizeCanvas w s = Ok tt (resized w s).
Proof.
  unfold resizeCanvas, resized. cbv [mbind M_bind get].
  destruct (canvas s); reflexivity.
Qed.

Lemma wf_resized s w : wf s -> wf (resized w s).
Proof.
  intros Hwf. unfold resized. destruct (canvas s); [|exact Hwf].
  apply wf_set_canvas, Hwf.
Qed.

Lemma onFrame_closed s id : onFrame id s = Ok tt (fired id s).
Proof.
  unfold onFrame, fired. cbv [mbind M_bind get modify].
  destruct (existsb _ _); [apply drawWaveform_closed|reflexivity].
Qed.

Lemma wf_fired_frame s id : wf s -> wf (fired id s).
Proof.
  intros Hwf. unfold fired. destruct (existsb _ _) eqn:Hin; [|exact Hwf].
  destruct (wf_fired s id Hwf) as [Hwf' Hnil].
  apply wf_redrawn; [exact Hwf'|]. apply Hnil, Hin.
Qed.

(** Every action runs to completion, and its result is the closed form. *)
Lemma perform_closed s a : wf s -> perform a s = Ok tt (performed a s).
Proof.
  intros Hwf. destruct a as [cv w|w|f| | |v|id]; cbn [perform performed].
  - unfold onMount. cbv [mbind M_bind modify]. apply resizeCanvas_closed.
  - apply resizeCanvas_closed.
  - apply setBrainwavePreset_closed, Hwf.
  - apply toggleBrownNoise_closed, Hwf.
  - apply toggleBinauralBeats_closed, Hwf.
  - unfold onVolumeInput. cbv [mbind M_bind modify]. apply updateVolume_closed.
  - apply onFrame_closed.
Qed.

Lemma wf_performed s a : wf s -> wf (performed a s).
Proof.
  intros Hwf. destruct a as [cv w|w|f| | |v|id]; cbn [performed].
  - apply wf_resized, wf_set_canvas, Hwf.
  - apply wf_resized, Hwf.
  - apply wf_selected, Hwf.
  - apply wf_toggledNoise, Hwf.
  - apply wf_toggledTones, Hwf.
  - apply wf_volumeApplied, wf_set_volume, Hwf.
  - apply wf_fired_frame, Hwf.
Qed.

Lemma wf_init t rate : wf (init t rate).
Proof.
  split; open_wf; cbn; auto.
  - repeat split.
  - split; [auto|]. split; [intros id Hid; discriminate Hid|lia].
Qed.

(** The invariant holds in every reachable state. *)
Lemma reachable_wf t rate s : reachable t rate s -> wf s.
Proof.
  induction 1 as [|s a s' Hreach IH Hallowed Hstep]; [apply wf_init|].
  rewrite (perform_closed s a IH) in Hstep. injection Hstep as <-.
  apply wf_performed, IH.
Qed.

(** No action throws in a reachable state. *)
Lemma reachable_perform t rate s a :
  reachable t rate s -> allowed a ->
  perform a s = Ok tt (performed a s) /\ reachable t rate (performed a s).
Proof.
  intros Hreach Hallowed.
  pose proof (perform_closed s a (reachable_wf t rate s Hreach)) as Hrun.
  split; [exact Hrun|]. eapply reachable_step; eauto.
Qed.


(** *** Teardown *)

Lemma bind_get {A B} (f : state -> A) (k : A -> M B) s :
  (get f ≫= k) s = k (f s) s.
Proof. reflexivity. Qed.

Lemma bind_Ok {A B} (m : M A) (k : A -> M B) s a s' :
  m s = Ok a s' -> (m ≫= k) s = k a s'.
Proof. intros H. cbv [mbind M_bind]. rewrite H. reflexivity. Qed.

Lemma halt_exec s n nd :
  nodes s !! n = Some nd -> started nd = true ->
  (stop n;; disconnect n) s = Ok tt (halted n s).
Proof.
  intros Hnd Hst. destruct s; cbn in *. unfold stop. run.
  rewrite Hnd, Hst. run. unfold halted. setters.
  rewrite <- !app_assoc. reflexivity.
Qed.

Lemma unframe_exec s :
  (if truthy (animationFrameId s)
   then match animationFrameId s with
        | Some id => cancelAnimationFrame id;; modify (set_animationFrameId None)
        | None => skip
        end
   else skip) s = Ok tt (unframed s).
Proof.
  unfold unframed. destruct (animationFrameId s) as [[|id]|]; reflexivity.
Qed.

(** What a source variable refers to has been started. *)
Lemma noise_ref_started s n :
  wf s -> brownNoiseNode s = Some n ->
  nodeHas (nodes s) n (isNode BufferSource true false).
Proof.
  intros [_ Hn _ _ _] Hbn. open_wf.
  destruct (isBrownNoisePlaying s); [|congruence].
  destruct Hn as (n' & Hn' & Hnd). congruence.
Qed.

Lemma tone_refs_started s :
  wf s ->
  match leftOscillator s, rightOscillator s with
  | Some l, Some r =>
      l <> r /\ nodeHas (nodes s) l (isNode Oscillator true false) /\
      nodeHas (nodes s) r (isNode Oscillator true false)
  | None, None => True
  | _, _ => False
  end.
Proof.
  intros [_ _ Ht _ _]. open_wf.
  destruct (isBinauralPlaying s).
  - destruct Ht as (l & r & -> & -> & Hne & Hl & Hr). auto.
  - destruct Ht as [-> ->]. exact I.
Qed.

Lemma onDestroy_closed s : wf s -> onDestroy s = Ok tt (destroyed s).
Proof.
  intros Hwf. unfold onDestroy, destroyed. cbv zeta.
  rewrite bind_get. cbv beta. rewrite (bind_Ok _ _ _ _ _ (unframe_exec s)).
  assert (Hnodes : nodes (unframed s) = nodes s).
  { unfold unframed. destruct (animationFrameId s) as [[|id]|]; reflexivity. }
  assert (Hbn : brownNoiseNode (unframed s) = brownNoiseNode s).
  { unfold unframed. destruct (animationFrameId s) as [[|id]|]; reflexivity. }
  assert (Hlo : leftOscillator (unframed s) = leftOscillator s).
  { unfold unframed. destruct (animationFrameId s) as [[|id]|]; reflexivity. }
  assert (Hro : rightOscillator (unframed s) = rightOscillator s).
  { unfold unframed. destruct (animationFrameId s) as [[|id]|]; reflexivity. }
  pose proof (tone_refs_started s Hwf) as Htones.
  set (s1 := unframed s) in *. clearbody s1.
  rewrite bind_get. cbv beta.
  assert (Hstep2 : exists s2,
    (match brownNoiseNode s1 with
     | Some n => stop n;; disconnect n
     | None => skip
     end) s1 = Ok tt s2 /\
    s2 = match brownNoiseNode s1 with Some n => halted n s1 | None => s1 end /\
    leftOscillator s2 = leftOscillator s /\
    rightOscillator s2 = rightOscillator s /\
    match leftOscillator s, rightOscillator s with
    | Some l, Some r =>
        nodeHas (nodes s2) l (isNode Oscillator true false) /\
        nodeHas (nodes s2) r (isNode Oscillator true false)
    | _, _ => True
    end).
  { rewrite Hbn. destruct (brownNoiseNode s) as [n|] eqn:Hn.
    - pose proof (noise_ref_started s n Hwf Hn) as Hnd.
      destruct Hnd as (nd & Hnd & Hk & Hst & Hsp).
      exists (halted n s1). split.
      + eapply halt_exec; [rewrite Hnodes; exact Hnd|exact Hst].
      + split; [reflexivity|]. split; [exact Hlo|]. split; [exact Hro|].
        destruct (leftOscillator s) as [l|]; [|exact I].
        destruct (rightOscillator s) as [r|]; [|exact I].
        destruct Htones as (Hne & Hl & Hr).
        assert (Hnn : nodeHas (nodes s) n (isNode BufferSource true false))
          by (exists nd; repeat split; assumption).
        unfold halted. cbn. rewrite Hnodes. split; frame.
    - exists s1. split; [reflexivity|]. split; [reflexivity|].
      split; [exact Hlo|]. split; [exact Hro|]. rewrite Hnodes.
      destruct (leftOscillator s) as [l|]; [|exact I].
      destruct (rightOscillator s) as [r|]; [|exact I]. tauto. }
  destruct Hstep2 as (s2 & Hrun2 & <- & Hlo2 & Hro2 & Hnodes2).
  rewrite (bind_Ok _ _ _ _ _ Hrun2). clear Hrun2.
  rewrite bind_get. cbv beta.
  assert (Hstep3 : exists s3,
    (match leftOscillator s2 with
     | Some l => stop l;; disconnect l
     | None => skip
     end) s2 = Ok tt s3 /\
    s3 = match leftOscillator s2 with Some l => halted l s2 | None => s2 end /\
    rightOscillator s3 = rightOscillator s /\
    match rightOscillator s with
    | Some r => nodeHas (nodes s3) r (isNode Oscillator true false)
    | None => True
    end).
  { rewrite Hlo2. destruct (leftOscillator s) as [l|] eqn:Hl.
    - destruct (rightOscillator s) as [r|] eqn:Hr; [|contradiction].
      destruct Htones as (Hne & _ & _). destruct Hnodes2 as (Hl2 & Hr2).
      destruct Hl2 as (nd & Hnd & Hk & Hst & Hsp).
      exists (halted l s2). split; [eapply halt_exec; eauto|].
      split; [reflexivity|]. split; [exact Hro2|].
      unfold halted. cbn. repeat apply nodeHas_alter_ne; assumption.
    - destruct (rightOscillator s) as [r|] eqn:Hr; [contradiction|].
      exists s2. split; [reflexivity|]. split; [reflexivity|].
      split; [exact Hro2|exact I]. }
  destruct Hstep3 as (s3 & Hrun3 & <- & Hro3 & Hnodes3).
  rewrite (bind_Ok _ _ _ _ _ Hrun3). clear Hrun3.
  rewrite bind_get. cbv beta.
  assert (Hstep4 :
    (match rightOscillator s3 with
     | Some r => stop r;; disconnect r
     | None => skip
     end) s3
    = Ok tt (match rightOscillator s3 with
             | Some r => halted r s3
             | None => s3
             end)).
  { rewrite Hro3. destruct (rightOscillator s) as [r|]; [|reflexivity].
    destruct Hnodes3 as (nd & Hnd & Hk & Hst & Hsp).
    eapply halt_exec; eauto. }
  rewrite (bind_Ok _ _ _ _ _ Hstep4). rewrite bind_get. cbv beta.
  destruct (audioContext _); reflexivity.
Qed.

End Preserve.
Module NoiseFacts.
Import Noise.

Lemma Qdiv_102 (x : Q) : x / (102 # 100) == x * (100 # 102).
Proof. unfold Qdiv. reflexivity. Qed.

Lemma readSample_insert (data : list Q) (i : nat) (x : Q) :
  (i < length data)%nat -> readSample (<[i := x]> data) i = x.
Proof.
  intros Hi. unfold readSample. now rewrite list_lookup_insert_eq.
Qed.

Lemma fill_length rand n : forall i lastOut (data : list Q),
  length (fill rand n i lastOut data) = length data.
Proof.
  induction n as [|n IH]; intros i lastOut data; simpl; [reflexivity|].
  rewrite IH. now rewrite !length_insert.
Qed.

(** Samples below the loop index are not written again. *)
Lemma fill_lookup_lt rand n : forall i lastOut (data : list Q) j,
  (j < i)%nat -> fill rand n i lastOut data !! j = data !! j.
Proof.
  induction n as [|n IH]; intros i lastOut data j Hj; simpl; [reflexivity|].
  rewrite IH by lia. rewrite !list_lookup_insert_ne by lia. reflexivity.
Qed.

(** Sample [j] of the finished buffer is the integrator output of
    iteration [j], scaled by 3.5. *)
Lemma fill_lookup_ge rand n : forall i (data : list Q) j,
  length data = (i + n)%nat -> (i <= j < i + n)%nat ->
  fill rand n i (integrator rand i) data !! j
  = Some (integrator rand (S j) * (35 # 10)).
Proof.
  induction n as [|n IH]; intros i data j Hlen Hj; [lia|].
  cbn [fill].
  assert (Hi : (i < length data)%nat) by lia.
  rewrite (readSample_insert data i _ Hi).
  destruct (decide (j = i)) as [->|Hne].
  - rewrite fill_lookup_lt by lia.
    rewrite list_lookup_insert_eq; [reflexivity|].
    rewrite length_insert. exact Hi.
  - change ((integrator rand i + (2 # 100) * (rand i * 2 - 1)) / (102 # 100))
      with (integrator rand (S i)).
    apply IH; [|lia]. rewrite !length_insert. lia.
Qed.

Lemma createBrownNoise_length rand duration sampleRate :
  length (createBrownNoise rand duration sampleRate)
  = (duration * sampleRate)%nat.
Proof.
  unfold createBrownNoise. rewrite fill_length. apply length_replicate.
Qed.

Lemma createBrownNoise_lookup rand duration sampleRate j :
  (j < duration * sampleRate)%nat ->
  createBrownNoise rand duration sampleRate !! j
  = Some (integrator rand (S j) * (35 # 10)).
Proof.
  intros Hj. unfold createBrownNoise.
  apply (fill_lookup_ge rand (duration * sampleRate) 0); [|lia].
  rewrite length_replicate. reflexivity.
Qed.

Lemma createBrownNoise_read rand duration sampleRate j :
  (j < duration * sampleRate)%nat ->
  readSample (createBrownNoise rand duration sampleRate) j
  = integrator rand (S j) * (35 # 10).
Proof.
  intros Hj. unfold readSample.
  now rewrite createBrownNoise_lookup.
Qed.

(** The integrator never leaves [-1,1] when the draws do not. *)
Lemma integrator_bound rand :
  (forall k, -1 <= white rand k <= 1) ->
  forall i, -1 <= integrator rand i <= 1.
Proof.
  intros Hw. induction i as [|i IH]; cbn [integrator]; [lra|].
  specialize (Hw i). unfold white in Hw.
  rewrite Qdiv_102. lra.
Qed.

Lemma white_of_random rand :
  (forall k, 0 <= rand k < 1) -> forall k, -1 <= white rand k <= 1.
Proof. intros H k. specialize (H k). unfold white. lra. Qed.

End NoiseFacts.


(** ** Properties of the noise buffer *)

Module NoiseProperties.
Import Noise NoiseFacts.

(** C5: for every duration and sample rate, every sample written by
    [createBrownNoise] lies in [-3.5, 3.5], provided every white-noise draw
    lies in [-1, 1]. *)
Theorem createBrownNoise_range (rand : nat -> Q) (duration sampleRate : nat) :
  (forall k, -1 <= white rand k <= 1) ->
  forall i x,
    createBrownNoise rand duration sampleRate !! i = Some x ->
    -(35 # 10) <= x <= 35 # 10.
Proof.
  intros Hw i x Hx.
  assert (Hi : (i < duration * sampleRate)%nat).
  { apply lookup_lt_Some in Hx. now rewrite createBrownNoise_length in Hx. }
  rewrite createBrownNoise_lookup in Hx by exact Hi.
  assert (Hxe : x = integrator rand (S i) * (35 # 10)) by congruence.
  pose proof (integrator_bound rand Hw (S i)) as Hb. rewrite Hxe. lra.
Qed.

Lemma createBrownNoise_range_witness :
  exists x, createBrownNoise (fun _ => 3 # 4) 1 4 !! 2%nat = Some x /\
            -(35 # 10) <= x <= 35 # 10.
Proof.
  eexists. split; [vm_compute; reflexivity|].
  apply (createBrownNoise_range (fun _ => 3 # 4) 1 4) with (i := 2%nat).
  - intros k. unfold white. simpl. lra.
  - vm_compute. reflexivity.
Defined.

(** C2 as stated fails: with every draw of [Math.random] equal to 3/4 (so
    white = 1/2) no white in [-1,1] relates the stored samples 0 and 1 by
    the unscaled recurrence. *)
Lemma stored_recurrence_counterexample :
  ~ (exists w : Q, -1 <= w <= 1 /\
       readSample (createBrownNoise (fun _ => 3 # 4) 1 2) 1
       == (readSample (createBrownNoise (fun _ => 3 # 4) 1 2) 0
           + (2 # 100) * w) / (102 # 100)).
Proof.
  intros [w [Hw Heq]].
  rewrite !createBrownNoise_read in Heq by (simpl; lia).
  cbn [integrator] in Heq. rewrite !Qdiv_102 in Heq. lra.
Qed.

(** C2, amended: the recurrence holds for the integrator output before the
    loudness scaling, and each stored sample is 3.5 times that output; so
    between stored samples the noise term is scaled as well:
    data[i] = (data[i-1] + 3.5 * 0.02 * white) / 1.02, with data[-1] = 0
    and white in [-1,1]. *)
Theorem stored_recurrence (rand : nat -> Q) (duration sampleRate : nat) :
  (forall k, 0 <= rand k < 1) ->
  forall i, (i < duration * sampleRate)%nat ->
    let data := createBrownNoise rand duration sampleRate in
    let prev := match i with O => 0 | S j => readSample data j end in
    readSample data i = integrator rand (S i) * (35 # 10) /\
    integrator rand (S i)
      == (integrator rand i + (2 # 100) * white rand i) / (102 # 100) /\
    -1 <= white rand i <= 1 /\
    readSample data i
      == (prev + (35 # 10) * (2 # 100) * white rand i) / (102 # 100).
Proof.
  intros Hr i Hi data prev. subst data prev.
  pose proof (white_of_random rand Hr i) as Hw.
  rewrite createBrownNoise_read by exact Hi.
  split; [reflexivity|]. split; [reflexivity|]. split; [exact Hw|].
  assert (Hprev : match i with
                  | O => 0
                  | S j => readSample (createBrownNoise rand duration sampleRate) j
                  end == integrator rand i * (35 # 10)).
  { destruct i as [|j]; [cbn [integrator]; lra|].
    rewrite createBrownNoise_read by lia. reflexivity. }
  rewrite Hprev. cbn [integrator]. fold (white rand i).
  rewrite !Qdiv_102. lra.
Qed.

Lemma stored_recurrence_witness :
  readSample (createBrownNoise (fun _ => 3 # 4) 1 2) 1
  = integrator (fun _ => 3 # 4) 2 * (35 # 10) /\
  integrator (fun _ => 3 # 4) 2
    == (integrator (fun _ => 3 # 4) 1 + (2 # 100) * white (fun _ => 3 # 4) 1)
       / (102 # 100) /\
  -1 <= white (fun _ => 3 # 4) 1 <= 1 /\
  readSample (createBrownNoise (fun _ => 3 # 4) 1 2) 1
    == (readSample (createBrownNoise (fun _ => 3 # 4) 1 2) 0
        + (35 # 10) * (2 # 100) * white (fun _ => 3 # 4) 1)
       / (102 # 100).
Proof.
  apply (stored_recurrence (fun _ => 3 # 4) 1 2) with (i := 1%nat).
  - intros k. simpl. lra.
  - simpl. lia.
Defined.

End NoiseProperties.

(** ** Properties of the component *)

Module Properties.
Import Audio Generator Effects Invariant Observe Exec Preserve.

(** *** Auxiliary facts *)

Lemma since_app s s' l : trace s' = trace s ++ l -> since s s' = l.
Proof. intros H. unfold since. rewrite H. apply drop_app_length. Qed.

Lemma writesTo_app g l1 l2 : writesTo g (l1 ++ l2) = writesTo g l1 ++ writesTo g l2.
Proof.
  induction l1 as [|e l1 IH]; [reflexivity|].
  destruct e; cbn [app writesTo]; try exact IH.
  destruct (Nat.eqb n g); [cbn [app]; f_equal|]; exact IH.
Qed.

Lemma writesTo_frames g l :
  Forall (fun e => isFrameEvent e = true) l -> writesTo g l = [].
Proof.
  induction 1 as [|e l He Hl IH]; [reflexivity|].
  destruct e; try discriminate He; exact IH.
Qed.

Lemma firstIndex_frames p l :
  (forall e, isFrameEvent e = true -> p e = false) ->
  Forall (fun e => isFrameEvent e = true) l -> firstIndex p l = None.
Proof.
  intros Hp. induction 1 as [|e l He Hl IH]; [reflexivity|].
  cbn [firstIndex]. rewrite (Hp e He), IH. reflexivity.
Qed.

(** The redraw bookkeeping touches no audio state and makes no audio
    call. *)
Lemma reframed_spec s :
  exists l, trace (reframed s) = trace s ++ l /\
    Forall (fun e => isFrameEvent e = true) l /\
    nodes (reframed s) = nodes s /\
    gainNode (reframed s) = gainNode s /\
    isBrownNoisePlaying (reframed s) = isBrownNoisePlaying s /\
    isBinauralPlaying (reframed s) = isBinauralPlaying s /\
    brownNoiseNode (reframed s) = brownNoiseNode s /\
    leftOscillator (reframed s) = leftOscillator s /\
    rightOscillator (reframed s) = rightOscillator s /\
    leftGain (reframed s) = leftGain s /\
    rightGain (reframed s) = rightGain s /\
    volume (reframed s) = volume s /\
    buffers (reframed s) = buffers s.
Proof.
  unfold reframed, redrawn. cbv zeta.
  destruct (_ && negb _).
  - destruct (analyserNode s) as [a|];
      [|exists []; rewrite app_nil_r; repeat split; constructor].
    destruct (canvas s) as [cv|];
      [|exists []; rewrite app_nil_r; repeat split; constructor].
    destruct (context2d cv);
      [|exists []; rewrite app_nil_r; repeat split; constructor].
    exists [EvDraw a; EvRequestFrame (nextFrame s)].
    repeat split. repeat constructor.
  - destruct (_ && truthy _);
      [|exists []; rewrite app_nil_r; repeat split; constructor].
    destruct (animationFrameId s) as [id|];
      [|exists []; rewrite app_nil_r; repeat split; constructor].
    exists [EvCancelFrame id]. repeat split. repeat constructor.
Qed.

Lemma mixGain_reframed s : mixGain (reframed s) = mixGain s.
Proof.
  destruct (reframed_spec s) as (l & _ & _ & Hn & Hg & _).
  unfold mixGain. rewrite Hn, Hg. reflexivity.
Qed.

Lemma mixGain_gainSet s g x :
  gainNode s = Some g -> (g < length (nodes s))%nat ->
  mixGain (gainSet g x s) = Some x.
Proof.
  intros Hg Hlt. unfold mixGain, gainSet. cbn. rewrite Hg.
  rewrite list_lookup_alter_eq.
  destruct (lookup_lt_is_Some_2 (nodes s) g Hlt) as [nd ->]. reflexivity.
Qed.

Lemma wf_gain_lt s g : wf s -> gainNode s = Some g -> (g < length (nodes s))%nat.
Proof.
  intros [Hc _ _ _ _] Hg. open_wf.
  destruct (audioContext s); [|destruct Hc as (Hx & _); congruence].
  destruct Hc as (_ & (g' & Hg' & Hgn) & _).
  assert (g' = g) by congruence. subst g'. eapply nodeHas_lt, Hgn.
Qed.

(** Without a gain node nothing has been activated yet. *)
Lemma wf_not_activated s :
  wf s -> gainNode s = None ->
  audioContext s = None /\ isBrownNoisePlaying s = false /\
  isBinauralPlaying s = false.
Proof.
  intros [Hc _ _ _ _] Hg. open_wf.
  destruct (audioContext s).
  - destruct Hc as (_ & (g & Hg' & _) & _). congruence.
  - tauto.
Qed.

(** *** Volume *)

(** C4: for all volumes v in [0,1], once the shared gain node exists,
    [updateVolume] called with the volume variable holding v sets the mix
    gain to v * 0.1 while noise is playing, and to v while tones are playing
    and noise is not. *)
Theorem updateVolume_gain t rate s v g :
  reachable t rate s -> 0 <= v <= 1 -> gainNode s = Some g ->
  exists s', updateVolume (set_volume v s) = Ok tt s' /\
    isBrownNoisePlaying s' = isBrownNoisePlaying s /\
    isBinauralPlaying s' = isBinauralPlaying s /\
    (isBrownNoisePlaying s = true -> mixGain s' = Some (v * (1 # 10))) /\
    (isBinauralPlaying s = true -> isBrownNoisePlaying s = false ->
     mixGain s' = Some v).
Proof.
  intros Hreach Hv Hg. apply reachable_wf in Hreach as Hwf.
  exists (volumeApplied (set_volume v s)).
  split; [apply updateVolume_closed|].
  pose proof (wf_gain_lt s g Hwf Hg) as Hlt.
  unfold volumeApplied. cbn [gainNode set_volume]. rewrite Hg.
  split; [reflexivity|]. split; [reflexivity|]. split.
  - intros Hn. cbn [isBrownNoisePlaying set_volume volume]. rewrite Hn.
    apply mixGain_gainSet; assumption.
  - intros _ Hn. cbn [isBrownNoisePlaying set_volume volume]. rewrite Hn.
    apply mixGain_gainSet; assumption.
Qed.


Lemma reachable_mounted : reachable exampleTape exampleRate mounted.
Proof. apply reachable_perform; [apply reachable_init|exact I]. Qed.

Lemma reachable_noisePlaying : reachable exampleTape exampleRate noisePlaying.
Proof. apply reachable_perform; [apply reachable_mounted|exact I]. Qed.

Lemma reachable_tonesPlaying : reachable exampleTape exampleRate tonesPlaying.
Proof. apply reachable_perform; [apply reachable_mounted|exact I]. Qed.

Lemma reachable_bothPlaying : reachable exampleTape exampleRate bothPlaying.
Proof. apply reachable_perform; [apply reachable_noisePlaying|exact I]. Qed.

Lemma updateVolume_gain_witness :
  exists s', updateVolume (set_volume (3 # 10) noisePlaying) = Ok tt s' /\
    isBrownNoisePlaying s' = true /\
    mixGain s' = Some ((3 # 10) * (1 # 10)).
Proof.
  destruct (updateVolume_gain exampleTape exampleRate noisePlaying (3 # 10) 1)
    as (s' & Hrun & Hn & _ & Hgain & _).
  - apply reachable_noisePlaying.
  - split; discriminate.
  - reflexivity.
  - exists s'. split; [exact Hrun|]. split; [exact Hn|].
    apply Hgain. reflexivity.
Defined.

(** C10: before any source has been activated (no shared gain node yet)
    [updateVolume] returns normally and leaves the whole state as it is; the
    volume stored by the slider stays in the volume variable and is the
    first value written to the gain node at the next activation: a tone
    preset leaves the mix gain at v, the noise preset then writes v * 0.1
    for the noise that starts. *)
Theorem updateVolume_before_activation t rate s v :
  reachable t rate s -> gainNode s = None -> 0 <= v <= 1 ->
  let s1 := set_volume v s in
  updateVolume s1 = Ok tt s1 /\
  onVolumeInput v s = Ok tt s1 /\
  volume s1 = v /\
  (forall f, exists s' g,
     setBrainwavePreset (Some f) s1 = Ok tt s' /\
     gainNode s' = Some g /\ volume s' = v /\
     writesTo g (since s1 s') = [v] /\ mixGain s' = Some v) /\
  (exists s' g,
     setBrainwavePreset None s1 = Ok tt s' /\
     gainNode s' = Some g /\ volume s' = v /\
     writesTo g (since s1 s') = [v; v * (1 # 10)] /\
     mixGain s' = Some (v * (1 # 10))).
Proof.
  intros Hreach Hg Hv s1. apply reachable_wf in Hreach as Hwf.
  assert (Hwf1 : wf s1) by (apply wf_set_volume, Hwf).
  destruct (wf_not_activated s Hwf Hg) as (Hctx & Hn & Ht).
  assert (Hrun : updateVolume s1 = Ok tt s1) by (apply updateVolume_guarded, Hg).
  split; [exact Hrun|]. split; [exact Hrun|]. split; [reflexivity|]. split.
  - intros f.
    set (s2 := toggledTones (set_beatFrequency f s1)).
    assert (Hsel : selected (Some f) s1 = reframed s2).
    { unfold selected. cbv zeta.
      change (isBrownNoisePlaying (set_beatFrequency f s1))
        with (isBrownNoisePlaying s).
      rewrite Hn.
      change (isBinauralPlaying (set_beatFrequency f s1))
        with (isBinauralPlaying s).
      rewrite Ht. reflexivity. }
    destruct (reframed_spec s2) as
      (l & Htr & Hfr & Hnodes & Hgain & _ & _ & _ & _ & _ & _ & _ & Hvol & _).
    exists (reframed s2), (length (nodes s) + 1)%nat.
    split; [rewrite <- Hsel; apply setBrainwavePreset_closed, Hwf1|].
    assert (Hs2 : gainNode s2 = Some (length (nodes s) + 1)%nat /\
                  volume s2 = v /\
                  exists l2, trace s2 = trace s1 ++ l2 /\
                    writesTo (length (nodes s) + 1) l2 = [v] /\
                  mixGain s2 = Some v).
    { subst s2 s1. unfold toggledTones, withContext, mixGain.
      destruct s; cbn in *; subst. cbn.
      split; [reflexivity|]. split; [reflexivity|].
      eexists. split; [rewrite <- app_assoc; reflexivity|].
      split.
      - cbn. rewrite Nat.eqb_refl.
        repeat (rewrite (proj2 (Nat.eqb_neq _ _)) by (rewrite ?length_app; cbn; lia)).
        reflexivity.
      - rewrite <- app_assoc. cbn [app]. rewrite lookup_app_plus. reflexivity. }
    destruct Hs2 as (Hg2 & Hv2 & l2 & Htr2 & Hw2 & Hmix2).
    split; [congruence|]. split; [congruence|]. split.
    + rewrite (since_app s1 (reframed s2) (l2 ++ l))
        by (rewrite Htr, Htr2, app_assoc; reflexivity).
      rewrite writesTo_app, Hw2, (writesTo_frames _ l Hfr). reflexivity.
    + rewrite mixGain_reframed. exact Hmix2.
  - set (s2 := toggledNoise s1).
    assert (Hsel : selected None s1 = reframed s2).
    { unfold selected. cbv zeta. fold s2.
      assert (Ht2 : isBinauralPlaying s2 = false).
      { subst s2 s1. unfold toggledNoise, withContext.
        destruct s; cbn in *; subst. reflexivity. }
      rewrite Ht2. reflexivity. }
    destruct (reframed_spec s2) as
      (l & Htr & Hfr & Hnodes & Hgain & _ & _ & _ & _ & _ & _ & _ & Hvol & _).
    exists (reframed s2), (length (nodes s) + 1)%nat.
    split; [rewrite <- Hsel; apply setBrainwavePreset_closed, Hwf1|].
    assert (Hs2 : gainNode s2 = Some (length (nodes s) + 1)%nat /\
                  volume s2 = v /\
                  exists l2, trace s2 = trace s1 ++ l2 /\
                    writesTo (length (nodes s) + 1) l2 = [v; v * (1 # 10)] /\
                  mixGain s2 = Some (v * (1 # 10))).
    { subst s2 s1. unfold toggledNoise, withContext, mixGain.
      destruct s; cbn in *; subst. cbn.
      split; [reflexivity|]. split; [reflexivity|].
      eexists. split; [rewrite <- app_assoc; reflexivity|].
      split.
      - cbn. rewrite !Nat.eqb_refl. reflexivity.
      - rewrite lookup_app_l by (rewrite length_alter, length_app; cbn; lia).
        rewrite list_lookup_alter_eq, lookup_app_plus. reflexivity. }
    destruct Hs2 as (Hg2 & Hv2 & l2 & Htr2 & Hw2 & Hmix2).
    split; [congruence|]. split; [congruence|]. split.
    + rewrite (since_app s1 (reframed s2) (l2 ++ l))
        by (rewrite Htr, Htr2, app_assoc; reflexivity).
      rewrite writesTo_app, Hw2, (writesTo_frames _ l Hfr). reflexivity.
    + rewrite mixGain_reframed. exact Hmix2.
Qed.


Lemma updateVolume_before_activation_witness :
  updateVolume (set_volume (3 # 10) mounted)
  = Ok tt (set_volume (3 # 10) mounted) /\
  (exists s' g,
     setBrainwavePreset (Some 4) (set_volume (3 # 10) mounted) = Ok tt s' /\
     gainNode s' = Some g /\
     writesTo g (since (set_volume (3 # 10) mounted) s') = [3 # 10] /\
     mixGain s' = Some (3 # 10)) /\
  (exists s' g,
     setBrainwavePreset None (set_volume (3 # 10) mounted) = Ok tt s' /\
     gainNode s' = Some g /\
     writesTo g (since (set_volume (3 # 10) mounted) s')
     = [3 # 10; (3 # 10) * (1 # 10)] /\
     mixGain s' = Some ((3 # 10) * (1 # 10))).
Proof.
  destruct (updateVolume_before_activation exampleTape exampleRate mounted
              (3 # 10)) as (Hrun & _ & _ & Htones & Hnoise).
  - apply reachable_mounted.
  - reflexivity.
  - split; discriminate.
  - split; [exact Hrun|]. split.
    + destruct (Htones 4) as (s' & g & H1 & H2 & _ & H3 & H4).
      exists s', g. auto.
    + destruct Hnoise as (s' & g & H1 & H2 & _ & H3 & H4).
      exists s', g. auto.
Defined.

Lemma performAll_closed s l :
  wf s -> performAll l s = Ok tt (fold_left (fun x a => performed a x) l s).
Proof.
  revert s. induction l as [|a l IH]; intros s Hwf; [reflexivity|].
  cbn [performAll fold_left].
  rewrite (bind_Ok _ _ _ _ _ (perform_closed s a Hwf)).
  apply IH, wf_performed, Hwf.
Qed.

(** *** Preset selection *)

(** With tones or noise playing the context and the mix gain exist. *)
Lemma wf_playing_context s :
  wf s -> isBrownNoisePlaying s = true \/ isBinauralPlaying s = true ->
  exists c g, audioContext s = Some c /\ gainNode s = Some g.
Proof.
  intros [Hc _ _ _ _] Hplay. open_wf.
  destruct (audioContext s) as [c|].
  - destruct Hc as (_ & (g & Hg & _) & _). eauto.
  - destruct Hc as (_ & _ & Hn & Ht & _). destruct Hplay; congruence.
Qed.

Lemma wf_tone_refs s :
  wf s -> isBinauralPlaying s = true ->
  exists l r, leftOscillator s = Some l /\ rightOscillator s = Some r.
Proof.
  intros [_ _ Ht _ _] Hon. open_wf. rewrite Hon in Ht.
  destruct Ht as (l & r & Hl & Hr & _). eauto.
Qed.

Lemma wf_noise_ref s :
  wf s -> isBrownNoisePlaying s = true ->
  exists n, brownNoiseNode s = Some n /\ (n < length (nodes s))%nat.
Proof.
  intros [_ Hn _ _ _] Hon. open_wf. rewrite Hon in Hn.
  destruct Hn as (n & Hbn & Hnd). exists n. split; [exact Hbn|].
  eapply nodeHas_lt, Hnd.
Qed.

(** The noise preset chosen while only tones play: the platform calls, in
    order. *)
Lemma noise_preset_calls s l r g :
  wf s -> isBinauralPlaying s = true -> isBrownNoisePlaying s = false ->
  leftOscillator s = Some l -> rightOscillator s = Some r ->
  gainNode s = Some g ->
  exists fl,
    since s (selected None s)
    = [EvCreate (length (nodes s)) BufferSource;
       EvNewBuffer (length (buffers s));
       EvSetValue g (volume s * (1 # 10));
       EvConnect (length (nodes s)) g 0 0;
       EvStart (length (nodes s));
       EvStop l; EvStop r; EvDisconnect l; EvDisconnect r] ++ fl /\
    Forall (fun e => isFrameEvent e = true) fl /\
    isBrownNoisePlaying (selected None s) = true /\
    isBinauralPlaying (selected None s) = false /\
    brownNoiseNode (selected None s) = Some (length (nodes s)).
Proof.
  intros Hwf Ht Hn Hl Hr Hg.
  destruct (wf_playing_context s Hwf (or_intror Ht)) as (c & g' & Hc & Hg').
  assert (g' = g) by congruence. subst g'.
  set (s2 := toggledTones (toggledNoise s)).
  assert (Hs2 : selected None s = reframed s2 /\
    trace s2 = trace s ++
      [EvCreate (length (nodes s)) BufferSource;
       EvNewBuffer (length (buffers s));
       EvSetValue g (volume s * (1 # 10));
       EvConnect (length (nodes s)) g 0 0;
       EvStart (length (nodes s));
       EvStop l; EvStop r; EvDisconnect l; EvDisconnect r] /\
    isBrownNoisePlaying s2 = true /\ isBinauralPlaying s2 = false /\
    brownNoiseNode s2 = Some (length (nodes s))).
  { subst s2. unfold selected, toggledTones, toggledNoise, withContext.
    destruct s; cbn in *; subst. cbn.
    rewrite <- !app_assoc. repeat split. }
  destruct Hs2 as (Hsel & Htr2 & Hn2 & Ht2 & Hbn2).
  destruct (reframed_spec s2) as
    (fl & Htr & Hfr & _ & _ & Hn' & Ht' & Hbn' & _).
  exists fl. rewrite Hsel.
  split; [apply since_app; rewrite Htr, Htr2, <- app_assoc; reflexivity|].
  split; [exact Hfr|]. repeat split; congruence.
Qed.

(** A tone preset chosen while only noise plays: the platform calls, in
    order. *)
Lemma tone_preset_calls s f n g :
  wf s -> isBrownNoisePlaying s = true -> isBinauralPlaying s = false ->
  brownNoiseNode s = Some n -> gainNode s = Some g ->
  let h := length (nodes s) in
  exists fl,
    since s (selected (Some f) s)
    = [EvStop n; EvDisconnect n;
       EvCreate h Oscillator; EvCreate (h + 1) Oscillator;
       EvCreate (h + 2) Gain; EvCreate (h + 3) Gain;
       EvSetValue h (baseFrequency s);
       EvSetValue (h + 1) (baseFrequency s + f);
       EvCreate (h + 4) ChannelMerger;
       EvConnect h (h + 2) 0 0; EvConnect (h + 2) (h + 4) 0 0;
       EvConnect (h + 1) (h + 3) 0 0; EvConnect (h + 3) (h + 4) 0 1;
       EvConnect (h + 4) g 0 0;
       EvSetValue (h + 2) (1 # 10); EvSetValue (h + 3) (1 # 10);
       EvStart h; EvStart (h + 1)] ++ fl /\
    Forall (fun e => isFrameEvent e = true) fl /\
    leftOscillator (selected (Some f) s) = Some h /\
    rightOscillator (selected (Some f) s) = Some (h + 1)%nat.
Proof.
  intros Hwf Hn Ht Hbn Hg h.
  destruct (wf_playing_context s Hwf (or_introl Hn)) as (c & g' & Hc & Hg').
  assert (g' = g) by congruence. subst g'.
  set (s2 := toggledTones (toggledNoise (set_beatFrequency f s))).
  assert (Hs2 : selected (Some f) s = reframed s2 /\
    trace s2 = trace s ++
      [EvStop n; EvDisconnect n;
       EvCreate h Oscillator; EvCreate (h + 1) Oscillator;
       EvCreate (h + 2) Gain; EvCreate (h + 3) Gain;
       EvSetValue h (baseFrequency s);
       EvSetValue (h + 1) (baseFrequency s + f);
       EvCreate (h + 4) ChannelMerger;
       EvConnect h (h + 2) 0 0; EvConnect (h + 2) (h + 4) 0 0;
       EvConnect (h + 1) (h + 3) 0 0; EvConnect (h + 3) (h + 4) 0 1;
       EvConnect (h + 4) g 0 0;
       EvSetValue (h + 2) (1 # 10); EvSetValue (h + 3) (1 # 10);
       EvStart h; EvStart (h + 1)] /\
    leftOscillator s2 = Some h /\ rightOscillator s2 = Some (h + 1)%nat).
  { subst s2 h. unfold selected, toggledTones, toggledNoise, withContext.
    destruct s; cbn in *; subst. cbn. rewrite !length_alter.
    rewrite <- !app_assoc. repeat split. }
  destruct Hs2 as (Hsel & Htr2 & Hl2 & Hr2).
  destruct (reframed_spec s2) as
    (fl & Htr & Hfr & _ & _ & _ & _ & _ & Hl' & Hr' & _).
  exists fl. rewrite Hsel.
  split; [apply since_app; rewrite Htr, Htr2, <- app_assoc; reflexivity|].
  split; [exact Hfr|]. split; congruence.
Qed.


Lemma toggledTones_noise_flag s :
  isBrownNoisePlaying (toggledTones s) = isBrownNoisePlaying s.
Proof.
  unfold toggledTones, withContext.
  destruct (isBinauralPlaying s).
  - destruct (leftOscillator s), (rightOscillator s); reflexivity.
  - cbv zeta. destruct (audioContext s).
    + destruct (gainNode s); reflexivity.
    + reflexivity.
Qed.

Lemma retuned_noise_flag s :
  isBrownNoisePlaying (retuned s) = isBrownNoisePlaying s.
Proof.
  unfold retuned. destruct (leftOscillator s), (rightOscillator s); reflexivity.
Qed.

Lemma retuned_tone_flag s :
  isBinauralPlaying (retuned s) = isBinauralPlaying s.
Proof.
  unfold retuned. destruct (leftOscillator s), (rightOscillator s); reflexivity.
Qed.

Lemma toggledNoise_stops s :
  wf s -> isBrownNoisePlaying s = true ->
  isBrownNoisePlaying (toggledNoise s) = false.
Proof.
  intros Hwf Hon. destruct (wf_noise_ref s Hwf Hon) as (n & Hbn & _).
  unfold toggledNoise. rewrite Hon, Hbn. reflexivity.
Qed.

Lemma toggledTones_stops s :
  wf s -> isBinauralPlaying s = true ->
  isBinauralPlaying (toggledTones s) = false.
Proof.
  intros Hwf Hon. destruct (wf_tone_refs s Hwf Hon) as (l & r & Hl & Hr).
  unfold toggledTones. rewrite Hon, Hl, Hr. reflexivity.
Qed.

Lemma toggledTones_starts s :
  wf s -> isBinauralPlaying s = false ->
  isBinauralPlaying (toggledTones s) = true.
Proof.
  intros Hwf Hoff.
  destruct (withContext_context s Hwf) as (c & cx & g & _ & _ & Hg & _).
  unfold toggledTones. rewrite Hoff. cbv zeta. rewrite Hg. reflexivity.
Qed.

Lemma reframed_flags s :
  isBrownNoisePlaying (reframed s) = isBrownNoisePlaying s /\
  isBinauralPlaying (reframed s) = isBinauralPlaying s.
Proof.
  destruct (reframed_spec s) as (l & _ & _ & _ & _ & Hn & Ht & _). auto.
Qed.

(** Whatever was playing, a preset selection returns with at most one mode
    playing. *)
Lemma selected_exclusive s f :
  wf s ->
  isBrownNoisePlaying (selected f s) && isBinauralPlaying (selected f s)
  = false.
Proof.
  intros Hwf. unfold selected. destruct f as [f|]; cbv zeta.
  - destruct (reframed_flags
      (if isBinauralPlaying
            (if isBrownNoisePlaying (set_beatFrequency f s)
             then toggledNoise (set_beatFrequency f s)
             else set_beatFrequency f s)
       then retuned
              (if isBrownNoisePlaying (set_beatFrequency f s)
               then toggledNoise (set_beatFrequency f s)
               else set_beatFrequency f s)
       else toggledTones
              (if isBrownNoisePlaying (set_beatFrequency f s)
               then toggledNoise (set_beatFrequency f s)
               else set_beatFrequency f s))) as [-> _].
    pose proof (wf_set_beatFrequency s f Hwf) as Hwf0.
    set (s0 := set_beatFrequency f s) in *.
    assert (Hoff : isBrownNoisePlaying
                     (if isBrownNoisePlaying s0 then toggledNoise s0 else s0)
                   = false).
    { destruct (isBrownNoisePlaying s0) eqn:Hn; [|exact Hn].
      apply toggledNoise_stops; assumption. }
    destruct (isBinauralPlaying _);
      rewrite ?retuned_noise_flag, ?toggledTones_noise_flag, Hoff;
      reflexivity.
  - destruct (reframed_flags
      (if isBinauralPlaying (toggledNoise s)
       then toggledTones (toggledNoise s)
       else toggledNoise s)) as [_ ->].
    pose proof (wf_toggledNoise s Hwf) as Hwf1.
    destruct (isBinauralPlaying (toggledNoise s)) eqn:Ht.
    + rewrite (toggledTones_stops _ Hwf1 Ht). apply andb_false_r.
    + rewrite Ht. apply andb_false_r.
Qed.

Lemma eqb_plus_ne h k : (0 < k)%nat -> Nat.eqb h (h + k) = false.
Proof. intros Hk. apply Nat.eqb_neq. lia. Qed.

(** C3 as stated fails for the noise preset: chosen while the Theta tones
    play, the noise source (node 8) is started before the left oscillator
    (node 3) is stopped. *)
Lemma noise_preset_order_counterexample :
  exists s',
    setBrainwavePreset None tonesPlaying = Ok tt s' /\
    isBinauralPlaying tonesPlaying = true /\
    isBrownNoisePlaying tonesPlaying = false /\
    leftOscillator tonesPlaying = Some 3%nat /\
    brownNoiseNode s' = Some 8%nat /\
    since tonesPlaying s'
    = [EvCreate 8 BufferSource; EvNewBuffer 0;
       EvSetValue 1 ((1 # 2) * (1 # 10)); EvConnect 8 1 0 0; EvStart 8;
       EvStop 3; EvStop 4; EvDisconnect 3; EvDisconnect 4] /\
    before (isStop 3) (isStart 8) (since tonesPlaying s') = false.
Proof.
  exists (selected None tonesPlaying).
  split.
  - apply setBrainwavePreset_closed.
    apply (reachable_wf exampleTape exampleRate), reachable_tonesPlaying.
  - repeat (split; [reflexivity|]). reflexivity.
Qed.

(** C3, amended: a preset chosen while the other mode is active stops the
    other mode within the same call, and at most one mode plays when the
    call returns.  A tone preset chosen while noise plays stops the noise
    before it starts the tones; the noise preset chosen while tones play
    (and noise does not) starts the noise first and stops the tones after
    that. *)
Theorem preset_switch t rate s :
  reachable t rate s ->
  (forall f n,
     isBrownNoisePlaying s = true -> brownNoiseNode s = Some n ->
     exists s',
       setBrainwavePreset (Some f) s = Ok tt s' /\
       isBrownNoisePlaying s' = false /\ isBinauralPlaying s' = true /\
       (isBinauralPlaying s = false ->
        exists l r,
          leftOscillator s' = Some l /\ rightOscillator s' = Some r /\
          before (isStop n) (isStart l) (since s s') = true /\
          before (isStop n) (isStart r) (since s s') = true)) /\
  (forall l r,
     isBinauralPlaying s = true -> isBrownNoisePlaying s = false ->
     leftOscillator s = Some l -> rightOscillator s = Some r ->
     exists s' n,
       setBrainwavePreset None s = Ok tt s' /\
       isBrownNoisePlaying s' = true /\ isBinauralPlaying s' = false /\
       brownNoiseNode s' = Some n /\
       before (isStart n) (isStop l) (since s s') = true /\
       before (isStart n) (isStop r) (since s s') = true) /\
  (forall f, exists s',
     setBrainwavePreset f s = Ok tt s' /\
     isBrownNoisePlaying s' && isBinauralPlaying s' = false).
Proof.
  intros Hreach. apply reachable_wf in Hreach as Hwf.
  split; [|split].
  - intros f n Hn Hbn. exists (selected (Some f) s).
    split; [apply setBrainwavePreset_closed, Hwf|].
    pose proof (wf_set_beatFrequency s f Hwf) as Hwf0.
    pose proof (selected_exclusive s (Some f) Hwf) as Hex.
    assert (Htones : isBinauralPlaying (selected (Some f) s) = true).
    { unfold selected. cbv zeta.
      rewrite (proj2 (reframed_flags _)).
      change (isBrownNoisePlaying (set_beatFrequency f s))
        with (isBrownNoisePlaying s).
      rewrite Hn.
      pose proof (wf_toggledNoise _ Hwf0) as Hwf1.
      destruct (isBinauralPlaying (toggledNoise (set_beatFrequency f s)))
        eqn:Ht.
      - rewrite retuned_tone_flag. exact Ht.
      - apply toggledTones_starts; assumption. }
    rewrite Htones, andb_true_r in Hex.
    split; [exact Hex|]. split; [exact Htones|].
    intros Ht.
    destruct (wf_playing_context s Hwf (or_introl Hn)) as (c & g & Hc & Hg).
    destruct (tone_preset_calls s f n g Hwf Hn Ht Hbn Hg)
      as (fl & Hcalls & Hfr & Hl & Hr).
    exists (length (nodes s)), (length (nodes s) + 1)%nat.
    split; [exact Hl|]. split; [exact Hr|].
    rewrite Hcalls. unfold before.
    cbn [app firstIndex isStart isStop option_map].
    rewrite !Nat.eqb_refl, (eqb_plus_ne _ 1) by lia.
    split; reflexivity.
  - intros l r Ht Hn Hl Hr.
    destruct (wf_playing_context s Hwf (or_intror Ht)) as (c & g & Hc & Hg).
    destruct (noise_preset_calls s l r g Hwf Ht Hn Hl Hr Hg)
      as (fl & Hcalls & Hfr & Hn' & Ht' & Hbn').
    exists (selected None s), (length (nodes s)).
    split; [apply setBrainwavePreset_closed, Hwf|].
    split; [exact Hn'|]. split; [exact Ht'|]. split; [exact Hbn'|].
    assert (Hne : l <> r).
    { pose proof (tone_refs_started s Hwf) as H. rewrite Hl, Hr in H. tauto. }
    rewrite Hcalls. unfold before.
    cbn [app firstIndex isStart isStop option_map].
    rewrite !Nat.eqb_refl.
    rewrite (proj2 (Nat.eqb_neq l r) Hne).
    split; reflexivity.
  - intros f. exists (selected f s).
    split; [apply setBrainwavePreset_closed, Hwf|].
    apply selected_exclusive, Hwf.
Qed.


Lemma preset_switch_witness :
  (exists s',
     setBrainwavePreset (Some 4) noisePlaying
     = Ok tt s' /\
     isBrownNoisePlaying s' = false /\ isBinauralPlaying s' = true) /\
  (exists s' n,
     setBrainwavePreset None tonesPlaying
     = Ok tt s' /\
     isBrownNoisePlaying s' = true /\ isBinauralPlaying s' = false /\
     brownNoiseNode s' = Some n /\
     before (isStart n) (isStop 3)
       (since tonesPlaying s') = true).
Proof.
  split.
  - destruct (preset_switch exampleTape exampleRate noisePlaying) as [H _].
    + apply reachable_noisePlaying.
    + destruct (H 4 3%nat) as (s' & Hrun & Hn & Ht & _);
        [reflexivity|reflexivity|].
      exists s'. auto.
  - destruct (preset_switch exampleTape exampleRate tonesPlaying) as (_ & H & _).
    + apply reachable_tonesPlaying.
    + destruct (H 3%nat 4%nat) as (s' & n & Hrun & Hn & Ht & Hbn & Hl & _);
        [reflexivity|reflexivity|reflexivity|reflexivity|].
      exists s', n. auto.
Defined.

(** *** Toggling off *)

Lemma isStopped_false s n k st :
  nodeHas (nodes s) n (isNode k st false) -> isStopped s n = false.
Proof. intros (nd & Hnd & _ & _ & Hsp). unfold isStopped. now rewrite Hnd. Qed.

Lemma isStarted_true s n k sp :
  nodeHas (nodes s) n (isNode k true sp) -> isStarted s n = true.
Proof. intros (nd & Hnd & _ & Hst & _). unfold isStarted. now rewrite Hnd. Qed.

Lemma isStopped_wired s n k out :
  nodeHas (nodes s) n (isWired k out) -> isStopped s n = false.
Proof.
  intros (nd & Hnd & _ & _ & Hsp & _). unfold isStopped. now rewrite Hnd.
Qed.

(** Under the invariant no variable refers to a stopped node. *)
Lemma wf_references s k : wf s -> k ∈ references s -> isStopped s k = false.
Proof.
  intros Hwf Hk. unfold references in Hk.
  apply list_elem_of_omap in Hk as (o & Ho & ->).
  pose proof (tone_refs_started s Hwf) as Htones.
  destruct Hwf as [Hc Hn Ht Hch Hf]. open_wf.
  repeat (apply elem_of_cons in Ho as [Ho|Ho]).
  - destruct (isBrownNoisePlaying s); [|congruence].
    destruct Hn as (n & Hbn & Hnd). rewrite Hbn in Ho. injection Ho as ->.
    eapply isStopped_false, Hnd.
  - destruct (audioContext s); [|destruct Hc as (Hx & _); congruence].
    destruct Hc as (_ & (g & Hg & Hgn) & _). rewrite Hg in Ho.
    injection Ho as ->. eapply isStopped_false, Hgn.
  - destruct (audioContext s); [|destruct Hc as (_ & Hx & _); congruence].
    destruct Hc as (_ & _ & (a & Ha & Han)). rewrite Ha in Ho.
    injection Ho as ->. eapply isStopped_false, Han.
  - rewrite <- Ho in Htones. destruct (rightOscillator s); [|contradiction].
    eapply isStopped_false, Htones.
  - rewrite <- Ho in Htones. destruct (leftOscillator s); [|contradiction].
    eapply isStopped_false, Htones.
  - rewrite <- Ho in Hch. destruct (rightGain s); [|contradiction].
    destruct Hch as (m & g & _ & Hlg & _). eapply isStopped_wired, Hlg.
  - rewrite <- Ho in Hch. destruct (leftGain s); [|contradiction].
    destruct Hch as (m & g & _ & _ & Hrg & _). eapply isStopped_wired, Hrg.
  - apply elem_of_nil in Ho. contradiction.
Qed.

Lemma withContext_nodes_le s :
  (length (nodes s) <= length (nodes (withContext s)))%nat.
Proof.
  unfold withContext. destruct (audioContext s); [lia|].
  unfold contextCreated. cbn. rewrite length_app. lia.
Qed.

(** Switching the noise on creates a source that did not exist before. *)
Lemma toggledNoise_on s :
  wf s -> isBrownNoisePlaying s = false ->
  exists n, brownNoiseNode (toggledNoise s) = Some n /\
    (length (nodes s) <= n)%nat /\
    isStarted (toggledNoise s) n = true /\
    isStopped (toggledNoise s) n = false.
Proof.
  intros Hwf Hoff.
  destruct (withContext_context s Hwf) as (c & cx & g & Hctx & _ & Hg & _).
  pose proof (wf_toggledNoise s Hwf) as [_ Hn _ _ _].
  assert (Hs' : toggledNoise s = noiseOn (rateOf (withContext s) c) g (withContext s)).
  { unfold toggledNoise. rewrite Hoff. cbv zeta. rewrite Hctx, Hg. reflexivity. }
  unfold wf_noise, nodeAt in Hn. rewrite Hs' in *.
  change (isBrownNoisePlaying (noiseOn _ _ _)) with true in Hn.
  destruct Hn as (n & Hbn & Hnd).
  exists n. split; [exact Hbn|].
  injection Hbn as <-.
  split; [apply withContext_nodes_le|].
  split; [eapply isStarted_true, Hnd|eapply isStopped_false, Hnd].
Qed.

(** Switching the tones on creates oscillators that did not exist before. *)
Lemma toggledTones_on s :
  wf s -> isBinauralPlaying s = false ->
  exists l r, leftOscillator (toggledTones s) = Some l /\
    rightOscillator (toggledTones s) = Some r /\
    (length (nodes s) <= l)%nat /\ (length (nodes s) <= r)%nat /\
    isStarted (toggledTones s) l = true /\
    isStopped (toggledTones s) l = false /\
    isStarted (toggledTones s) r = true /\
    isStopped (toggledTones s) r = false.
Proof.
  intros Hwf Hoff.
  destruct (withContext_context s Hwf) as (c & cx & g & Hctx & _ & Hg & _).
  pose proof (wf_toggledTones s Hwf) as [_ _ Ht _ _].
  assert (Hs' : toggledTones s = tonesOn g (withContext s)).
  { unfold toggledTones. rewrite Hoff. cbv zeta. rewrite Hg. reflexivity. }
  unfold wf_tones, nodeAt in Ht. rewrite Hs' in *.
  change (isBinauralPlaying (tonesOn _ _)) with true in Ht.
  destruct Ht as (l & r & Hl & Hr & Hne & Hnl & Hnr).
  exists l, r. split; [exact Hl|]. split; [exact Hr|].
  injection Hl as <-. injection Hr as <-.
  pose proof (withContext_nodes_le s) as Hle.
  split; [exact Hle|]. split; [lia|].
  split; [eapply isStarted_true, Hnl|].
  split; [eapply isStopped_false, Hnl|].
  split; [eapply isStarted_true, Hnr|eapply isStopped_false, Hnr].
Qed.

Lemma isStopped_halted (h : list node) n nd :
  h !! n = Some nd ->
  exists nd', alter (with_outputs []) n (alter (with_stopped true) n h) !! n
              = Some nd' /\ stopped nd' = true /\ outputs nd' = [].
Proof.
  intros Hnd. rewrite !list_lookup_alter_eq, Hnd. cbn. eauto.
Qed.

(** C6: after each toggle-off path (of the noise while it plays, of the
    tones while they play) the stopped nodes are referred to by no variable:
    their variables hold null and no variable refers to any stopped node;
    the next toggle-on runs without error on sources that did not exist
    before, so it never touches a stopped node. *)
Theorem toggle_off_clears_references t rate s :
  reachable t rate s ->
  (isBrownNoisePlaying s = true ->
   exists n s',
     brownNoiseNode s = Some n /\ toggleBrownNoise s = Ok tt s' /\
     isStopped s' n = true /\ brownNoiseNode s' = None /\
     (forall k, k ∈ references s' -> isStopped s' k = false) /\
     exists s'' n',
       toggleBrownNoise s' = Ok tt s'' /\ brownNoiseNode s'' = Some n' /\
       nodes s' !! n' = None /\
       isStarted s'' n' = true /\ isStopped s'' n' = false) /\
  (isBinauralPlaying s = true ->
   exists l r s',
     leftOscillator s = Some l /\ rightOscillator s = Some r /\
     toggleBinauralBeats s = Ok tt s' /\
     isStopped s' l = true /\ isStopped s' r = true /\
     leftOscillator s' = None /\ rightOscillator s' = None /\
     (forall k, k ∈ references s' -> isStopped s' k = false) /\
     exists s'' l' r',
       toggleBinauralBeats s' = Ok tt s'' /\
       leftOscillator s'' = Some l' /\ rightOscillator s'' = Some r' /\
       nodes s' !! l' = None /\ nodes s' !! r' = None /\
       isStarted s'' l' = true /\ isStopped s'' l' = false /\
       isStarted s'' r' = true /\ isStopped s'' r' = false).
Proof.
  intros Hreach. apply reachable_wf in Hreach as Hwf. split.
  - intros Hon.
    pose proof (noise_ref_started s) as Href.
    destruct (wf_noise_ref s Hwf Hon) as (n & Hbn & Hlt).
    specialize (Href n Hwf Hbn). destruct Href as (nd & Hnd & _).
    pose proof (wf_toggledNoise s Hwf) as Hwf'.
    assert (Hs' : toggledNoise s = noiseOff n s).
    { unfold toggledNoise. rewrite Hon, Hbn. reflexivity. }
    exists n, (toggledNoise s).
    split; [exact Hbn|]. split; [apply toggleBrownNoise_closed, Hwf|].
    split.
    { rewrite Hs'. unfold isStopped, noiseOff. cbn.
      destruct (isStopped_halted (nodes s) n nd Hnd) as (nd' & -> & Hsp & _).
      exact Hsp. }
    split; [rewrite Hs'; reflexivity|].
    split; [intros k; apply wf_references, Hwf'|].
    assert (Hoff : isBrownNoisePlaying (toggledNoise s) = false)
      by (rewrite Hs'; reflexivity).
    destruct (toggledNoise_on _ Hwf' Hoff) as (n' & Hbn' & Hle & Hst & Hsp).
    exists (toggledNoise (toggledNoise s)), n'.
    split; [apply toggleBrownNoise_closed, Hwf'|].
    split; [exact Hbn'|]. split; [apply lookup_ge_None_2, Hle|]. auto.
  - intros Hon.
    destruct (wf_tone_refs s Hwf Hon) as (l & r & Hl & Hr).
    pose proof (tone_refs_started s Hwf) as Href. rewrite Hl, Hr in Href.
    destruct Href as (Hne & (ndl & Hndl & _) & (ndr & Hndr & _)).
    pose proof (wf_toggledTones s Hwf) as Hwf'.
    assert (Hs' : toggledTones s = tonesOff l r s).
    { unfold toggledTones. rewrite Hon, Hl, Hr. reflexivity. }
    exists l, r, (toggledTones s).
    split; [exact Hl|]. split; [exact Hr|].
    split; [apply toggleBinauralBeats_closed, Hwf|].
    split.
    { rewrite Hs'. unfold isStopped, tonesOff. cbn.
      rewrite list_lookup_alter_ne by auto.
      rewrite list_lookup_alter_eq.
      rewrite list_lookup_alter_ne by auto.
      rewrite list_lookup_alter_eq, Hndl. reflexivity. }
    split.
    { rewrite Hs'. unfold isStopped, tonesOff. cbn.
      rewrite list_lookup_alter_eq.
      rewrite list_lookup_alter_ne by auto.
      rewrite list_lookup_alter_eq.
      rewrite list_lookup_alter_ne by auto.
      rewrite Hndr. reflexivity. }
    split; [rewrite Hs'; reflexivity|]. split; [rewrite Hs'; reflexivity|].
    split; [intros k; apply wf_references, Hwf'|].
    assert (Hoff : isBinauralPlaying (toggledTones s) = false)
      by (rewrite Hs'; reflexivity).
    destruct (toggledTones_on _ Hwf' Hoff)
      as (l' & r' & Hl' & Hr' & Hlel & Hler & Hrest).
    exists (toggledTones (toggledTones s)), l', r'.
    split; [apply toggleBinauralBeats_closed, Hwf'|].
    split; [exact Hl'|]. split; [exact Hr'|].
    split; [apply lookup_ge_None_2, Hlel|].
    split; [apply lookup_ge_None_2, Hler|]. exact Hrest.
Qed.


Lemma toggle_off_clears_references_witness :
  (exists n s',
     brownNoiseNode noisePlaying = Some n /\
     toggleBrownNoise noisePlaying = Ok tt s' /\
     isStopped s' n = true /\ brownNoiseNode s' = None /\
     (forall k, k ∈ references s' -> isStopped s' k = false)) /\
  (exists l r s',
     leftOscillator tonesPlaying = Some l /\
     rightOscillator tonesPlaying = Some r /\
     toggleBinauralBeats tonesPlaying
     = Ok tt s' /\
     isStopped s' l = true /\ isStopped s' r = true /\
     leftOscillator s' = None /\ rightOscillator s' = None /\
     (forall k, k ∈ references s' -> isStopped s' k = false)).
Proof.
  split.
  - destruct (toggle_off_clears_references exampleTape exampleRate noisePlaying) as [H _].
    + apply reachable_noisePlaying.
    + destruct H as (n & s' & Hbn & Hrun & Hsp & Hnull & Hrefs & _);
        [reflexivity|].
      exists n, s'. auto.
  - destruct (toggle_off_clears_references exampleTape exampleRate tonesPlaying) as [_ H].
    + apply reachable_tonesPlaying.
    + destruct H as (l & r & s' & Hl & Hr & Hrun & Hsl & Hsr & Hnl & Hnr
                     & Hrefs & _); [reflexivity|].
      exists l, r, s'. repeat (split; [assumption|]). assumption.
Defined.

(** *** Teardown *)

Lemma unframed_spec s :
  wf s ->
  trace (unframed s)
  = trace s ++ match animationFrameId s with
               | Some id => [EvCancelFrame id]
               | None => []
               end /\
  pending (unframed s) = [] /\ animationFrameId (unframed s) = None.
Proof.
  intros [_ _ _ _ (Hp & Hid & _)]. unfold unframed.
  destruct (animationFrameId s) as [id|] eqn:Hfr.
  - specialize (Hid id eq_refl).
    assert (Htruthy : truthy (Some id) = true) by (destruct id; [lia|reflexivity]).
    rewrite Htruthy. unfold frameCancelled. cbn.
    split; [reflexivity|]. split; [|reflexivity].
    destruct Hp as [->|(id' & -> & Hid')]; [reflexivity|].
    injection Hid' as <-. cbn. rewrite Nat.eqb_refl. reflexivity.
  - cbn. rewrite app_nil_r. split; [reflexivity|]. split; [|exact Hfr].
    destruct Hp as [?|(id' & _ & Hid')]; [assumption|discriminate].
Qed.

(** C7: torn down while the noise source and both oscillators are active,
    the component first cancels the pending redraw (when one is scheduled),
    then stops and disconnects the noise source, the left and the right
    oscillator, then closes the audio context, in this order; afterwards no
    callback is pending. *)
Theorem teardown_while_playing t rate s :
  reachable t rate s ->
  isBrownNoisePlaying s = true -> isBinauralPlaying s = true ->
  exists n l r c s',
    brownNoiseNode s = Some n /\ leftOscillator s = Some l /\
    rightOscillator s = Some r /\ audioContext s = Some c /\
    onDestroy s = Ok tt s' /\
    since s s'
    = match animationFrameId s with
      | Some id => [EvCancelFrame id]
      | None => []
      end ++
      [EvStop n; EvDisconnect n; EvStop l; EvDisconnect l;
       EvStop r; EvDisconnect r; EvClose c] /\
    pending s' = [] /\ animationFrameId s' = None /\
    isStopped s' n = true /\ outputsOf s' n = [] /\
    isStopped s' l = true /\ outputsOf s' l = [] /\
    isStopped s' r = true /\ outputsOf s' r = [] /\
    isClosed s' c = true.
Proof.
  intros Hreach Hn Ht. apply reachable_wf in Hreach as Hwf.
  destruct (wf_noise_ref s Hwf Hn) as (n & Hbn & _).
  destruct (wf_tone_refs s Hwf Ht) as (l & r & Hl & Hr).
  destruct (wf_playing_context s Hwf (or_introl Hn)) as (c & g & Hc & _).
  pose proof (noise_ref_started s n Hwf Hbn) as Hnn.
  pose proof (tone_refs_started s Hwf) as Href. rewrite Hl, Hr in Href.
  destruct Href as (Hne & Hnl & Hnr).
  assert (Hnl' : l <> n) by apart_tac.
  assert (Hnr' : r <> n) by apart_tac.
  destruct Hnn as (ndn & Hndn & _).
  destruct Hnl as (ndl & Hndl & _). destruct Hnr as (ndr & Hndr & _).
  assert (Hcx : exists cx, contexts s !! c = Some cx).
  { destruct Hwf as [Hctx _ _ _ _]. unfold wf_context in Hctx.
    rewrite Hc in Hctx. destruct Hctx as ((cx & Hcx & _) & _). eauto. }
  destruct Hcx as (cx & Hcx).
  destruct (unframed_spec s Hwf) as (Htr & Hpend & Hfr).
  assert (Hsame : brownNoiseNode (unframed s) = Some n /\
                  leftOscillator (unframed s) = Some l /\
                  rightOscillator (unframed s) = Some r /\
                  audioContext (unframed s) = Some c /\
                  nodes (unframed s) = nodes s /\
                  contexts (unframed s) = contexts s).
  { unfold unframed. destruct (truthy _); [|tauto].
    destruct (animationFrameId s); cbn; tauto. }
  destruct Hsame as (Hbn1 & Hl1 & Hr1 & Hc1 & Hnodes1 & Hctx1).
  assert (Hd : destroyed s
               = contextClosed c (halted r (halted l (halted n (unframed s))))).
  { unfold destroyed. cbv zeta. rewrite Hbn1.
    change (leftOscillator (halted n (unframed s)))
      with (leftOscillator (unframed s)).
    rewrite Hl1.
    change (rightOscillator (halted l (halted n (unframed s))))
      with (rightOscillator (unframed s)).
    rewrite Hr1.
    change (audioContext (halted r (halted l (halted n (unframed s)))))
      with (audioContext (unframed s)).
    rewrite Hc1. reflexivity. }
  exists n, l, r, c, (destroyed s).
  repeat (split; [assumption|]).
  split; [apply onDestroy_closed, Hwf|]. rewrite Hd.
  split.
  { apply since_app. unfold contextClosed, halted. cbn. rewrite Htr.
    rewrite <- !app_assoc. reflexivity. }
  split; [exact Hpend|]. split; [exact Hfr|].
  unfold isStopped, outputsOf, isClosed, contextClosed, halted. cbn.
  rewrite Hnodes1, Hctx1.
  repeat first
    [ rewrite list_lookup_alter_ne
        by first [assumption | apply not_eq_sym; assumption]
    | rewrite list_lookup_alter_eq ].
  rewrite Hndn, Hndl, Hndr, Hcx. cbn. repeat split.
Qed.


Lemma teardown_while_playing_witness :
  exists n l r c s',
    brownNoiseNode bothPlaying = Some n /\
    leftOscillator bothPlaying = Some l /\
    rightOscillator bothPlaying = Some r /\
    audioContext bothPlaying = Some c /\
    onDestroy bothPlaying = Ok tt s' /\
    since bothPlaying s'
    = match animationFrameId bothPlaying with
      | Some id => [EvCancelFrame id]
      | None => []
      end ++
      [EvStop n; EvDisconnect n; EvStop l; EvDisconnect l;
       EvStop r; EvDisconnect r; EvClose c] /\
    pending s' = [] /\ animationFrameId s' = None /\
    isStopped s' n = true /\ outputsOf s' n = [] /\
    isStopped s' l = true /\ outputsOf s' l = [] /\
    isStopped s' r = true /\ outputsOf s' r = [] /\
    isClosed s' c = true.
Proof.
  apply (teardown_while_playing exampleTape exampleRate).
  - apply reachable_bothPlaying.
  - reflexivity.
  - reflexivity.
Defined.

(** *** Restarting the noise *)

Lemma withContext_platform s :
  buffers (withContext s) = buffers s /\ rng (withContext s) = rng s /\
  tape (withContext s) = tape s.
Proof. unfold withContext. destruct (audioContext s); repeat split. Qed.

Lemma lookup_app_fresh {A} (h h' l : list A) :
  length h' = length h -> (h' ++ l) !! length h = l !! 0%nat.
Proof. intros <-. apply lookup_app_len0. Qed.

(** Switching the noise on runs the synthesis on the next unused draws and
    stores the result in a buffer allocated for it. *)
Lemma toggledNoise_buffer s :
  wf s -> isBrownNoisePlaying s = false ->
  exists n c cx fl,
    brownNoiseNode (toggledNoise s) = Some n /\
    bufferOf (toggledNoise s) n = Some (length (buffers s)) /\
    audioContext (toggledNoise s) = Some c /\
    contexts (toggledNoise s) !! c = Some cx /\
    buffers (toggledNoise s)
    = buffers s ++
      [Noise.createBrownNoise (fun k => tape s (rng s + k)%nat) 1
         (sampleRate cx)] /\
    rng (toggledNoise s) = (rng s + 1 * sampleRate cx)%nat /\
    tape (toggledNoise s) = tape s /\
    since s (toggledNoise s) = fl /\ EvNewBuffer (length (buffers s)) ∈ fl.
Proof.
  intros Hwf Hoff.
  destruct (withContext_context s Hwf) as (c & cx & g & Hctx & Hcx & Hg & _).
  destruct (withContext_platform s) as (Hb & Hr & Ht).
  assert (Hs' : toggledNoise s = noiseOn (rateOf (withContext s) c) g (withContext s)).
  { unfold toggledNoise. rewrite Hoff. cbv zeta. rewrite Hctx, Hg. reflexivity. }
  assert (Hrate : rateOf (withContext s) c = sampleRate cx)
    by (unfold rateOf; rewrite Hcx; reflexivity).
  assert (Htrace : exists pre, trace (withContext s) = trace s ++ pre).
  { unfold withContext. destruct (audioContext s).
    - exists []. now rewrite app_nil_r.
    - unfold contextCreated. cbn. eauto. }
  destruct Htrace as (pre & Hpre).
  exists (length (nodes (withContext s))), c, cx,
    (pre ++ [EvCreate (length (nodes (withContext s))) BufferSource;
             EvNewBuffer (length (buffers s));
             EvSetValue g (volume (withContext s) * (1 # 10));
             EvConnect (length (nodes (withContext s))) g 0 0;
             EvStart (length (nodes (withContext s)))]).
  rewrite Hs', Hrate. unfold noiseOn, bufferOf. cbn.
  rewrite Hb, Hr, Ht, Hctx, Hcx.
  rewrite lookup_app_fresh by apply length_alter. cbn.
  repeat (split; [reflexivity|]).
  split.
  - apply since_app. cbn. rewrite Hpre, <- app_assoc. reflexivity.
  - apply elem_of_app. right. apply elem_of_cons. right.
    apply elem_of_cons. left. reflexivity.
Qed.

Lemma toggledNoise_context s c :
  audioContext s = Some c ->
  audioContext (toggledNoise s) = Some c /\
  contexts (toggledNoise s) = contexts s.
Proof.
  intros Hc. unfold toggledNoise, withContext. rewrite Hc.
  destruct (isBrownNoisePlaying s).
  - destruct (brownNoiseNode s); cbn; auto.
  - cbv zeta. rewrite Hc. destruct (gainNode s); cbn; auto.
Qed.

(** C8: toggling the noise on, off and on again runs the synthesis anew:
    the second activation allocates a buffer that did not exist before it,
    different from the first one, and fills it from draws of [Math.random]
    that follow those of the first run. *)
Theorem noise_buffer_regenerated t rate s :
  reachable t rate s -> isBrownNoisePlaying s = false ->
  exists s1 s2 s3 n1 b1 n3 b3 c cx,
    toggleBrownNoise s = Ok tt s1 /\ toggleBrownNoise s1 = Ok tt s2 /\
    toggleBrownNoise s2 = Ok tt s3 /\
    brownNoiseNode s1 = Some n1 /\ bufferOf s1 n1 = Some b1 /\
    brownNoiseNode s2 = None /\
    brownNoiseNode s3 = Some n3 /\ bufferOf s3 n3 = Some b3 /\
    b3 <> b1 /\ buffers s2 !! b3 = None /\
    audioContext s3 = Some c /\ contexts s3 !! c = Some cx /\
    buffers s1 !! b1
    = Some (Noise.createBrownNoise (fun k => tape s (rng s + k)%nat) 1
              (sampleRate cx)) /\
    rng s2 = (rng s + 1 * sampleRate cx)%nat /\
    buffers s3 !! b3
    = Some (Noise.createBrownNoise (fun k => tape s (rng s2 + k)%nat) 1
              (sampleRate cx)) /\
    EvNewBuffer b3 ∈ since s2 s3.
Proof.
  intros Hreach Hoff. apply reachable_wf in Hreach as Hwf.
  pose proof (wf_toggledNoise s Hwf) as Hwf1.
  set (s1 := toggledNoise s) in *.
  destruct (toggledNoise_buffer s Hwf Hoff)
    as (n1 & c & cx & fl1 & Hbn1 & Hbuf1 & Hc1 & Hcx1 & Hbs1 & Hrng1 & Htape1 & _).
  fold s1 in Hbn1, Hbuf1, Hc1, Hcx1, Hbs1, Hrng1, Htape1.
  assert (Hon1 : isBrownNoisePlaying s1 = true).
  { destruct (toggledNoise_on s Hwf Hoff) as (n & Hn & _).
    destruct Hwf1 as [_ Hw _ _ _]. unfold wf_noise in Hw.
    destruct (isBrownNoisePlaying s1); [reflexivity|].
    fold s1 in Hn. congruence. }
  pose proof (wf_toggledNoise s1 Hwf1) as Hwf2.
  assert (Hs2 : toggledNoise s1 = noiseOff n1 s1).
  { unfold toggledNoise. rewrite Hon1, Hbn1. reflexivity. }
  set (s2 := toggledNoise s1) in *.
  assert (Hoff2 : isBrownNoisePlaying s2 = false) by (rewrite Hs2; reflexivity).
  assert (Hsame2 : buffers s2 = buffers s1 /\ rng s2 = rng s1 /\
                   tape s2 = tape s1 /\ audioContext s2 = audioContext s1 /\
                   contexts s2 = contexts s1)
    by (rewrite Hs2; repeat split).
  destruct Hsame2 as (Hbs2 & Hrng2 & Htape2 & Hc2 & Hctx2).
  destruct (toggledNoise_buffer s2 Hwf2 Hoff2)
    as (n3 & c3 & cx3 & fl3 & Hbn3 & Hbuf3 & Hc3 & Hcx3 & Hbs3 & Hrng3 & Htape3
        & Hsince3 & Hin3).
  assert (Hctx3 : c3 = c /\ cx3 = cx).
  { destruct (toggledNoise_context s2 c) as (Ha & Hb);
      [rewrite Hc2; exact Hc1|].
    rewrite Ha in Hc3. injection Hc3 as <-.
    rewrite Hb, Hctx2, Hcx1 in Hcx3. injection Hcx3 as <-. auto. }
  destruct Hctx3 as (-> & ->).
  exists s1, s2, (toggledNoise s2), n1, (length (buffers s)), n3,
    (length (buffers s2)), c, cx.
  split; [apply toggleBrownNoise_closed, Hwf|].
  split; [apply toggleBrownNoise_closed, Hwf1|].
  split; [apply toggleBrownNoise_closed, Hwf2|].
  split; [exact Hbn1|]. split; [exact Hbuf1|].
  split; [rewrite Hs2; reflexivity|].
  split; [exact Hbn3|]. split; [exact Hbuf3|].
  split; [rewrite Hbs2, Hbs1, length_app; cbn; lia|].
  split; [apply lookup_ge_None_2; lia|].
  split; [exact Hc3|]. split; [exact Hcx3|].
  split; [rewrite Hbs1, lookup_app_len0; reflexivity|].
  split; [rewrite Hrng2; exact Hrng1|].
  split.
  - rewrite Hbs3, lookup_app_len0, Htape2, Htape1. reflexivity.
  - rewrite Hsince3. exact Hin3.
Qed.


Lemma noise_buffer_regenerated_witness :
  exists s1 s2 s3 n1 b1 n3 b3 c cx,
    toggleBrownNoise mounted = Ok tt s1 /\ toggleBrownNoise s1 = Ok tt s2 /\
    toggleBrownNoise s2 = Ok tt s3 /\
    brownNoiseNode s1 = Some n1 /\ bufferOf s1 n1 = Some b1 /\
    brownNoiseNode s2 = None /\
    brownNoiseNode s3 = Some n3 /\ bufferOf s3 n3 = Some b3 /\
    b3 <> b1 /\ buffers s2 !! b3 = None /\
    audioContext s3 = Some c /\ contexts s3 !! c = Some cx /\
    buffers s1 !! b1
    = Some (Noise.createBrownNoise
              (fun k => tape mounted (rng mounted + k)%nat) 1 (sampleRate cx)) /\
    rng s2 = (rng mounted + 1 * sampleRate cx)%nat /\
    buffers s3 !! b3
    = Some (Noise.createBrownNoise
              (fun k => tape mounted (rng s2 + k)%nat) 1 (sampleRate cx)) /\
    EvNewBuffer b3 ∈ since s2 s3.
Proof.
  apply (noise_buffer_regenerated exampleTape exampleRate mounted).
  - apply reachable_mounted.
  - reflexivity.
Defined.

(** *** The per-channel gain nodes *)

Lemma outputsOf_wired s n k out :
  nodeHas (nodes s) n (isWired k out) -> outputsOf s n = [out].
Proof.
  intros (nd & Hnd & _ & _ & _ & Hout). unfold outputsOf. now rewrite Hnd.
Qed.

Lemma wf_channels_playing s :
  wf s -> isBinauralPlaying s = true ->
  exists lg rg m g,
    leftGain s = Some lg /\ rightGain s = Some rg /\ gainNode s = Some g /\
    wired s lg Gain (m, 0%nat, 0%nat) /\ wired s rg Gain (m, 0%nat, 1%nat) /\
    wired s m ChannelMerger (g, 0%nat, 0%nat).
Proof.
  intros [_ _ _ Hch _] Hon. unfold wf_channels in Hch.
  destruct (leftGain s) as [lg|], (rightGain s) as [rg|];
    try contradiction; [|congruence].
  destruct Hch as (m & g & Hg & Hlg & Hrg & Hm).
  exists lg, rg, m, g. repeat split; assumption.
Qed.

(** C9: stopping the tones stops, disconnects and nulls the two oscillators
    and touches no other node: the per-channel gain variables keep their
    nodes, which stay connected to the merger, and the merger stays
    connected to the mix gain node.  Every start of the tones creates a
    pair of per-channel gain nodes and a merger that did not exist
    before. *)
Theorem stopping_tones_keeps_channels t rate s :
  reachable t rate s ->
  (isBinauralPlaying s = true ->
   exists l r lg rg m g s',
     leftOscillator s = Some l /\ rightOscillator s = Some r /\
     leftGain s = Some lg /\ rightGain s = Some rg /\ gainNode s = Some g /\
     toggleBinauralBeats s = Ok tt s' /\
     since s s' = [EvStop l; EvStop r; EvDisconnect l; EvDisconnect r] /\
     leftOscillator s' = None /\ rightOscillator s' = None /\
     isStopped s' l = true /\ outputsOf s' l = [] /\
     isStopped s' r = true /\ outputsOf s' r = [] /\
     (forall k, k <> l -> k <> r -> nodes s' !! k = nodes s !! k) /\
     leftGain s' = Some lg /\ rightGain s' = Some rg /\
     gainNode s' = Some g /\
     outputsOf s' lg = [(m, 0%nat, 0%nat)] /\
     outputsOf s' rg = [(m, 0%nat, 1%nat)] /\
     outputsOf s' m = [(g, 0%nat, 0%nat)]) /\
  (isBinauralPlaying s = false ->
   exists lg' rg' m' g s',
     toggleBinauralBeats s = Ok tt s' /\
     leftGain s' = Some lg' /\ rightGain s' = Some rg' /\
     gainNode s' = Some g /\
     nodes s !! lg' = None /\ nodes s !! rg' = None /\
     nodes s !! m' = None /\
     leftGain s <> Some lg' /\ rightGain s <> Some rg' /\
     outputsOf s' lg' = [(m', 0%nat, 0%nat)] /\
     outputsOf s' rg' = [(m', 0%nat, 1%nat)] /\
     outputsOf s' m' = [(g, 0%nat, 0%nat)]).
Proof.
  intros Hreach. apply reachable_wf in Hreach as Hwf. split.
  - intros Hon.
    destruct (wf_tone_refs s Hwf Hon) as (l & r & Hl & Hr).
    destruct (wf_channels_playing s Hwf Hon)
      as (lg & rg & m & g & Hlg & Hrg & Hg & Hwl & Hwr & Hwm).
    pose proof (tone_refs_started s Hwf) as Href. rewrite Hl, Hr in Href.
    destruct Href as (Hne & Hnl & Hnr).
    pose proof (wf_toggledTones s Hwf) as Hwf'.
    assert (Hs' : toggledTones s = tonesOff l r s).
    { unfold toggledTones. rewrite Hon, Hl, Hr. reflexivity. }
    assert (Hkeep : forall k, k <> l -> k <> r ->
                      nodes (tonesOff l r s) !! k = nodes s !! k).
    { intros k Hkl Hkr. unfold tonesOff. cbn.
      rewrite !list_lookup_alter_ne by auto. reflexivity. }
    unfold wired in Hwl, Hwr, Hwm.
    assert (Hlgl : lg <> l) by (apply not_eq_sym; apart_tac).
    assert (Hlgr : lg <> r) by (apply not_eq_sym; apart_tac).
    assert (Hrgl : rg <> l) by (apply not_eq_sym; apart_tac).
    assert (Hrgr : rg <> r) by (apply not_eq_sym; apart_tac).
    assert (Hml : m <> l) by (apply not_eq_sym; apart_tac).
    assert (Hmr : m <> r) by (apply not_eq_sym; apart_tac).
    destruct Hnl as (ndl & Hndl & _). destruct Hnr as (ndr & Hndr & _).
    exists l, r, lg, rg, m, g, (toggledTones s).
    repeat (split; [assumption|]).
    split; [apply toggleBinauralBeats_closed, Hwf|]. rewrite Hs'.
    split; [apply since_app; reflexivity|].
    split; [reflexivity|]. split; [reflexivity|].
    assert (Hlook :
      (exists nd, nodes (tonesOff l r s) !! l = Some nd /\
                  stopped nd = true /\ outputs nd = []) /\
      (exists nd, nodes (tonesOff l r s) !! r = Some nd /\
                  stopped nd = true /\ outputs nd = [])).
    { unfold tonesOff. cbn. split.
      - rewrite list_lookup_alter_ne by auto. rewrite list_lookup_alter_eq.
        rewrite list_lookup_alter_ne by auto. rewrite list_lookup_alter_eq.
        rewrite Hndl. cbn. eauto.
      - rewrite list_lookup_alter_eq. rewrite list_lookup_alter_ne by auto.
        rewrite list_lookup_alter_eq. rewrite list_lookup_alter_ne by auto.
        rewrite Hndr. cbn. eauto. }
    destruct Hlook as ((nl & Hnl1 & Hnl2 & Hnl3) & (nr & Hnr1 & Hnr2 & Hnr3)).
    unfold isStopped, outputsOf. rewrite Hnl1, Hnr1.
    repeat (split; [assumption|]).
    rewrite !Hkeep by assumption.
    destruct Hwl as (n1 & -> & _ & _ & _ & ->).
    destruct Hwr as (n2 & -> & _ & _ & _ & ->).
    destruct Hwm as (n3 & -> & _ & _ & _ & ->). auto.
  - intros Hoff.
    destruct (withContext_context s Hwf) as (c & cx & g & Hctx & _ & Hg & _).
    assert (Hs' : toggledTones s = tonesOn g (withContext s)).
    { unfold toggledTones. rewrite Hoff. cbv zeta. rewrite Hg. reflexivity. }
    pose proof (withContext_nodes_le s) as Hle.
    set (h := length (nodes (withContext s))) in *.
    exists (h + 2)%nat, (h + 3)%nat, (h + 4)%nat, g, (toggledTones s).
    split; [apply toggleBinauralBeats_closed, Hwf|]. rewrite Hs'.
    split; [reflexivity|]. split; [reflexivity|].
    split; [unfold tonesOn; cbn; exact Hg|].
    split; [apply lookup_ge_None_2; lia|].
    split; [apply lookup_ge_None_2; lia|].
    split; [apply lookup_ge_None_2; lia|].
    assert (Hold : forall x k, (k = leftGain s \/ k = rightGain s) ->
                     k = Some x -> (x < length (nodes s))%nat).
    { intros x k Hk Hx. apply lookup_lt_is_Some.
      destruct (decide (isStopped s x = true)) as [Hsp|Hsp].
      - unfold isStopped in Hsp. destruct (nodes s !! x); [eauto|discriminate].
      - destruct Hwf as [_ _ _ Hch _]. unfold wf_channels, wired in Hch.
        destruct (leftGain s) as [lg|], (rightGain s) as [rg|];
          try contradiction.
        + destruct Hch as (m & g0 & _ & (n1 & Hn1 & _) & (n2 & Hn2 & _) & _).
          destruct Hk as [->| ->]; injection Hx as <-; eauto.
        + destruct Hk as [->| ->]; discriminate. }
    split.
    { intros Heq. pose proof (Hold _ _ (or_introl eq_refl) Heq). lia. }
    split.
    { intros Heq. pose proof (Hold _ _ (or_intror eq_refl) Heq). lia. }
    unfold outputsOf, tonesOn. cbn. fold h.
    subst h. rewrite !lookup_app_plus. cbn. auto.
Qed.


Lemma stopping_tones_keeps_channels_witness :
  (exists l r lg rg m g s',
     leftOscillator tonesPlaying = Some l /\
     rightOscillator tonesPlaying = Some r /\
     leftGain tonesPlaying = Some lg /\
     rightGain tonesPlaying = Some rg /\
     gainNode tonesPlaying = Some g /\
     toggleBinauralBeats tonesPlaying
     = Ok tt s' /\
     leftOscillator s' = None /\ rightOscillator s' = None /\
     leftGain s' = Some lg /\ rightGain s' = Some rg /\
     outputsOf s' lg = [(m, 0%nat, 0%nat)] /\
     outputsOf s' rg = [(m, 0%nat, 1%nat)] /\
     outputsOf s' m = [(g, 0%nat, 0%nat)]) /\
  (exists lg' rg' m' g s',
     toggleBinauralBeats mounted = Ok tt s' /\
     leftGain s' = Some lg' /\ rightGain s' = Some rg' /\
     gainNode s' = Some g /\
     nodes mounted !! lg' = None /\ nodes mounted !! rg' = None /\
     nodes mounted !! m' = None).
Proof.
  split.
  - destruct (stopping_tones_keeps_channels exampleTape exampleRate tonesPlaying) as [H _].
    + apply reachable_tonesPlaying.
    + destruct H as (l & r & lg & rg & m & g & s' & Hl & Hr & Hlg & Hrg & Hg
                     & Hrun & _ & Hl' & Hr' & _ & _ & _ & _ & _ & Hlg' & Hrg'
                     & _ & Ho1 & Ho2 & Ho3); [reflexivity|].
      exists l, r, lg, rg, m, g, s'.
      repeat (split; [assumption|]). assumption.
  - destruct (stopping_tones_keeps_channels exampleTape exampleRate mounted)
      as [_ H].
    + apply reachable_mounted.
    + destruct H as (lg' & rg' & m' & g & s' & Hrun & Hlg & Hrg & Hg & Hn1
                     & Hn2 & Hn3 & _); [reflexivity|].
      exists lg', rg', m', g, s'.
      repeat (split; [assumption|]). assumption.
Defined.

(** *** The mix gain while the noise plays

    The half of the gain-stage invariant that the code keeps: in every
    reachable state in which the noise plays, the mix gain is the volume
    times 0.1. *)

Lemma wf_mix_gain s :
  wf s -> isBrownNoisePlaying s = true \/ isBinauralPlaying s = true ->
  exists g, gainNode s = Some g /\
            nodeHas (nodes s) g (isNode Gain false false).
Proof.
  intros [Hc _ _ _ _] Hplay. open_wf.
  destruct (audioContext s) as [c|].
  - destruct Hc as (_ & (g & Hg & Hgn) & _). eauto.
  - destruct Hc as (_ & _ & Hn & Ht & _). destruct Hplay; congruence.
Qed.

Lemma tonesOff_lookup s l r k :
  k <> l -> k <> r -> nodes (tonesOff l r s) !! k = nodes s !! k.
Proof.
  intros Hl Hr. unfold tonesOff. cbn.
  rewrite !list_lookup_alter_ne by auto. reflexivity.
Qed.

Lemma redrawn_audio s :
  nodes (redrawn s) = nodes s /\ gainNode (redrawn s) = gainNode s /\
  volume (redrawn s) = volume s /\
  isBrownNoisePlaying (redrawn s) = isBrownNoisePlaying s.
Proof.
  unfold redrawn. destruct (analyserNode s); [|auto].
  destruct (canvas s) as [cv|]; [|auto].
  destruct (context2d cv); repeat split.
Qed.

Lemma noiseGain_same s s' :
  nodes s' = nodes s -> gainNode s' = gainNode s -> volume s' = volume s ->
  isBrownNoisePlaying s' = isBrownNoisePlaying s ->
  noiseGain s -> noiseGain s'.
Proof.
  intros Hn Hg Hv Hf H. unfold noiseGain in *. rewrite Hn, Hg, Hv, Hf.
  exact H.
Qed.

Lemma noiseGain_reframed s : noiseGain s -> noiseGain (reframed s).
Proof.
  destruct (reframed_spec s)
    as (l & _ & _ & Hn & Hg & Hf & _ & _ & _ & _ & _ & _ & Hv & _).
  apply noiseGain_same; assumption.
Qed.

Lemma noiseGain_toggledNoise s : wf s -> noiseGain (toggledNoise s).
Proof.
  intros Hwf Hon.
  destruct (isBrownNoisePlaying s) eqn:Hp.
  - rewrite (toggledNoise_stops s Hwf Hp) in Hon. discriminate.
  - destruct (withContext_context s Hwf) as (c & cx & g & Hctx & _ & Hg & Hlt).
    assert (Hs' : toggledNoise s
                  = noiseOn (rateOf (withContext s) c) g (withContext s)).
    { unfold toggledNoise. rewrite Hp. cbv zeta. rewrite Hctx, Hg.
      reflexivity. }
    rewrite Hs'. unfold noiseOn. cbn. rewrite Hg.
    rewrite lookup_app_l by (rewrite length_alter; exact Hlt).
    rewrite list_lookup_alter_eq.
    destruct (lookup_lt_is_Some_2 _ _ Hlt) as [nd ->]. cbn. eauto.
Qed.

Lemma noiseGain_toggledTones s :
  wf s -> noiseGain s -> noiseGain (toggledTones s).
Proof.
  intros Hwf Hgain Hon. rewrite toggledTones_noise_flag in Hon.
  specialize (Hgain Hon).
  destruct (wf_mix_gain s Hwf (or_introl Hon)) as (g & Hg & Hgn).
  rewrite Hg in Hgain. destruct Hgain as (nd & Hnd & Hval).
  unfold toggledTones. destruct (isBinauralPlaying s) eqn:Ht.
  - destruct (wf_tone_refs s Hwf Ht) as (l & r & Hl & Hr).
    pose proof (tone_refs_started s Hwf) as Href. rewrite Hl, Hr in Href.
    destruct Href as (_ & Hnl & Hnr). rewrite Hl, Hr.
    assert (Hgl : g <> l) by (apply not_eq_sym; apart_tac).
    assert (Hgr : g <> r) by (apply not_eq_sym; apart_tac).
    change (gainNode (tonesOff l r s)) with (gainNode s). rewrite Hg.
    rewrite (tonesOff_lookup s l r g Hgl Hgr). eauto.
  - cbv zeta.
    assert (Hw : withContext s = s).
    { destruct (wf_playing_context s Hwf (or_introl Hon)) as (c & _ & Hc & _).
      unfold withContext. rewrite Hc. reflexivity. }
    rewrite Hw, Hg. unfold tonesOn. cbn. rewrite Hg.
    rewrite lookup_app_l by (eapply lookup_lt_Some, Hnd). eauto.
Qed.

Lemma noiseGain_volumeApplied s v :
  wf s -> noiseGain (volumeApplied (set_volume v s)).
Proof.
  intros Hwf Hon.
  assert (Hp : isBrownNoisePlaying s = true).
  { unfold volumeApplied in Hon. cbn in Hon.
    destruct (gainNode s); exact Hon. }
  destruct (wf_mix_gain s Hwf (or_introl Hp)) as (g & Hg & Hgn).
  unfold volumeApplied. cbn. rewrite Hg, Hp. unfold gainSet. cbn.
  rewrite Hg, list_lookup_alter_eq.
  destruct Hgn as (nd & -> & _). cbn. eauto.
Qed.

Lemma selected_tone_silences_noise s f :
  wf s -> isBrownNoisePlaying (selected (Some f) s) = false.
Proof.
  intros Hwf. unfold selected. cbv zeta.
  rewrite (proj1 (reframed_flags _)).
  pose proof (wf_set_beatFrequency s f Hwf) as Hwf0.
  set (s0 := set_beatFrequency f s) in *.
  assert (Hoff : isBrownNoisePlaying
                   (if isBrownNoisePlaying s0 then toggledNoise s0 else s0)
                 = false).
  { destruct (isBrownNoisePlaying s0) eqn:Hn; [|exact Hn].
    apply toggledNoise_stops; assumption. }
  destruct (isBinauralPlaying _);
    rewrite ?retuned_noise_flag, ?toggledTones_noise_flag, Hoff; reflexivity.
Qed.

Lemma noiseGain_performed s a :
  wf s -> noiseGain s -> noiseGain (performed a s).
Proof.
  intros Hwf Hgain. destruct a as [cv w|w|f| | |v|id]; cbn [performed].
  - unfold resized. cbn. exact Hgain.
  - unfold resized. destruct (canvas s); exact Hgain.
  - destruct f as [f|].
    + intros Hon. rewrite selected_tone_silences_noise in Hon by exact Hwf.
      discriminate.
    + unfold selected. cbv zeta. apply noiseGain_reframed.
      pose proof (wf_toggledNoise s Hwf) as Hwf1.
      pose proof (noiseGain_toggledNoise s Hwf) as Hg1.
      destruct (isBinauralPlaying (toggledNoise s)); [|exact Hg1].
      apply noiseGain_toggledTones; assumption.
  - apply noiseGain_toggledNoise, Hwf.
  - apply noiseGain_toggledTones; assumption.
  - apply noiseGain_volumeApplied, Hwf.
  - unfold fired. destruct (existsb _ _); [|exact Hgain].
    destruct (redrawn_audio
                (set_pending
                   (List.filter (fun k => negb (Nat.eqb k id)) (pending s)) s))
      as (Hn & Hg & Hv & Hf).
    eapply noiseGain_same; eauto.
Qed.

(** In every reachable state with the noise playing, the mix gain is
    volume * 0.1. *)
Lemma reachable_noiseGain t rate s :
  reachable t rate s -> isBrownNoisePlaying s = true ->
  mixGain s = Some (volume s * (1 # 10)).
Proof.
  intros Hreach.
  assert (Hinv : noiseGain s).
  { induction Hreach as [|s a s' Hreach IH Hallowed Hstep].
    - intros Hon. discriminate Hon.
    - pose proof (reachable_wf _ _ _ Hreach) as Hwf.
      rewrite (perform_closed s a Hwf) in Hstep. injection Hstep as <-.
      apply noiseGain_performed; assumption. }
  intros Hon. specialize (Hinv Hon). unfold mixGain.
  destruct (gainNode s); [|contradiction].
  destruct Hinv as (nd & -> & ->). reflexivity.
Qed.

(** C1 does not hold of the code: on any device, after mounting, choosing
    the noise preset and then a tone preset leaves only the tones playing
    while the mix gain is still volume * 0.1 = 0.05, not the volume 0.5;
    stopping the noise never writes the gain back.  (The other half of C1
    is [reachable_noiseGain].) *)
Theorem mix_gain_after_noise t rate :
  exists s',
    performAll [Mount exampleCanvas 1280; SelectPreset None;
                SelectPreset (Some 4)] (init t rate) = Ok tt s' /\
    isBrownNoisePlaying s' = false /\ isBinauralPlaying s' = true /\
    volume s' = 1 # 2 /\
    mixGain s' = Some ((1 # 2) * (1 # 10)) /\
    ~ (1 # 2) * (1 # 10) == volume s'.
Proof.
  eexists. split; [apply performAll_closed, wf_init|].
  repeat split. discriminate.
Qed.

End Properties.


(** ** Further properties of the noise buffer *)

Module NoiseMore.
Import Noise NoiseFacts.



(** X2: the buffer holds exactly [duration * sampleRate] samples, each computed
    from the draws before it only: a run on a tape that agrees on the first
    [i + 1] draws yields the same sample [i]. *)
Theorem createBrownNoise_prefix (r1 r2 : nat -> Q) (duration sampleRate : nat) :
  forall i, (i < duration * sampleRate)%nat ->
    (forall k, (k <= i)%nat -> r1 k = r2 k) ->
    length (createBrownNoise r1 duration sampleRate)
    = (duration * sampleRate)%nat /\
    createBrownNoise r1 duration sampleRate !! i
    = createBrownNoise r2 duration sampleRate !! i.
Proof.
  intros i Hi Hagree. split; [apply createBrownNoise_length|].
  rewrite !createBrownNoise_lookup by exact Hi. do 2 f_equal.
  assert (Hint : forall j, (j <= S i)%nat -> integrator r1 j = integrator r2 j).
  { induction j as [|j IH]; intros Hj; [reflexivity|].
    cbn [integrator]. rewrite IH by lia. rewrite Hagree by lia. reflexivity. }
  apply Hint. lia.
Qed.

Lemma createBrownNoise_prefix_witness :
  length (createBrownNoise (fun _ => 3 # 4) 1 3) = (1 * 3)%nat /\
  createBrownNoise (fun _ => 3 # 4) 1 3 !! 1%nat
  = createBrownNoise (fun k => if Nat.leb k 1 then 3 # 4 else 1 # 4) 1 3
    !! 1%nat.
Proof.
  apply (createBrownNoise_prefix (fun _ => 3 # 4)
           (fun k => if Nat.leb k 1 then 3 # 4 else 1 # 4) 1 3 1%nat).
  - simpl. lia.
  - intros k Hk. destruct k as [|[|k]]; [reflexivity|reflexivity|lia].
Defined.

End NoiseMore.


(** ** The waveform path *)

Module WaveformProperties.
Import Waveform.

Lemma byteValue_range d : (d <= 255)%N -> 0 <= byteValue d <= 255.
Proof.
  intros Hd. unfold byteValue. split.
  - change 0 with (inject_Z 0). rewrite <- Zle_Qle. lia.
  - change 255 with (inject_Z 255). rewrite <- Zle_Qle. lia.
Qed.

Lemma inject_nat_S k :
  inject_Z (Z.of_nat (S k)) == inject_Z (Z.of_nat k) + 1.
Proof. rewrite Nat2Z.inj_succ, <- Z.add_1_r, inject_Z_plus. reflexivity. Qed.

Lemma inject_nat_nonneg k : 0 <= inject_Z (Z.of_nat k).
Proof. change 0 with (inject_Z 0). rewrite <- Zle_Qle. lia. Qed.

(** The command the loop issues for sample [k] of what is left to plot. *)
Lemma plot_lookup height sliceWidth : forall data i x k d,
  data !! k = Some d ->
  exists xk,
    plot height sliceWidth data i x !! k
    = Some ((if Nat.eqb (i + k) 0 then MoveTo else LineTo) xk
              (byteValue d / 128 * height / 2)) /\
    xk == x + inject_Z (Z.of_nat k) * sliceWidth.
Proof.
  induction data as [|d0 data IH]; intros i x k d Hk; [discriminate|].
  destruct k as [|k].
  - injection Hk as ->. exists x. rewrite Nat.add_0_r. cbn [plot].
    split; [destruct (Nat.eqb i 0); reflexivity|]. cbn. ring.
  - destruct (IH (S i) (x + sliceWidth) k d Hk) as (xk & Hlook & Hxk).
    exists xk. cbn [plot]. split.
    + rewrite Nat.add_succ_r. exact Hlook.
    + rewrite Hxk, inject_nat_S. ring.
Qed.

Lemma plot_length height sliceWidth : forall data i x,
  length (plot height sliceWidth data i x) = length data.
Proof.
  induction data as [|d data IH]; intros i x; [reflexivity|].
  cbn [plot length]. now rewrite IH.
Qed.

Lemma vertices_app l1 l2 : vertices (l1 ++ l2) = vertices l1 ++ vertices l2.
Proof. unfold vertices. apply omap_app. Qed.

Lemma slices_fill width (n : nat) :
  (0 < n)%nat ->
  inject_Z (Z.of_nat n) * (width / inject_Z (Z.of_nat n)) == width.
Proof.
  intros Hn. field. intros H0.
  assert (Hz : inject_Z (Z.of_nat n) == inject_Z 0) by exact H0.
  rewrite inject_Z_injective in Hz. lia.
Qed.

(** All points of the loop stay inside the canvas when the pen starts
    inside and the remaining slices fit. *)
Lemma plot_within width height sliceWidth : forall data i x,
  0 <= height -> 0 <= sliceWidth -> 0 <= x ->
  x + inject_Z (Z.of_nat (length data)) * sliceWidth <= width ->
  Forall (fun d => (d <= 255)%N) data ->
  Forall (fun p : Q * Q => 0 <= fst p <= width /\ 0 <= snd p <= height)
    (vertices (plot height sliceWidth data i x)).
Proof.
  induction data as [|d data IH]; intros i x Hh Hs Hx Hfit Hbytes;
    [constructor|].
  apply Forall_cons in Hbytes as [Hd Hbytes].
  pose proof (byteValue_range d Hd) as Hb.
  pose proof (inject_nat_nonneg (length data)) as Hlen.
  cbn [length] in Hfit. rewrite inject_nat_S in Hfit.
  assert (Hprod : 0 <= inject_Z (Z.of_nat (length data)) * sliceWidth)
    by (apply Qmult_le_0_compat; assumption).
  assert (Hbh : 0 <= byteValue d * height /\ byteValue d * height <= 255 * height).
  { split; [apply Qmult_le_0_compat; tauto|].
    apply Qmult_le_compat_r; tauto. }
  assert (Hy : byteValue d / 128 * height / 2 == byteValue d * height * (1 # 256))
    by (field).
  assert (Hpoint : 0 <= x <= width /\
                   0 <= byteValue d / 128 * height / 2 <= height).
  { rewrite Hy. split; [lra|]. lra. }
  cbn [plot]. unfold vertices.
  destruct (Nat.eqb i 0); cbn [omap list_omap];
    fold (vertices (plot height sliceWidth data (S i) (x + sliceWidth)));
    (constructor; [exact Hpoint|apply IH; try assumption; lra]).
Qed.

(** Every point of the path lies on the canvas. *)
Lemma drawing_within (width height : Q) (dataArray : list N) :
  0 <= width -> 0 <= height ->
  Forall (fun d => (d <= 255)%N) dataArray ->
  Forall (fun p : Q * Q => 0 <= fst p <= width /\ 0 <= snd p <= height)
    (vertices (drawing width height dataArray)).
Proof.
  intros Hw Hh Hbytes. unfold drawing. cbv zeta.
  rewrite !vertices_app. apply Forall_app. split; [constructor|].
  apply Forall_app. split.
  - destruct dataArray as [|d rest]; [constructor|].
    assert (Hn : (0 < length (d :: rest))%nat) by (cbn; lia).
    pose proof (slices_fill width _ Hn) as Hfill.
    assert (Hsw : 0 <= width / inject_Z (Z.of_nat (length (d :: rest)))).
    { apply Qle_shift_div_l; [|lra].
      change 0 with (inject_Z 0). rewrite <- Zlt_Qlt. lia. }
    apply plot_within; try assumption; lra.
  - cbn. constructor; [|constructor]. cbn.
    assert (Hhalf : height / 2 == height * (1 # 2)) by field.
    rewrite Hhalf. split; lra.
Qed.

(** X3: sample [i] of the analyser data is drawn at x = i * width /
    bufferLength and y = byte * height / 256, by [moveTo] for the first
    sample and by [lineTo] for the others; after the last sample the path is
    closed towards (width, height / 2) and stroked. *)
Theorem drawing_vertex (width height : Q) (dataArray : list N) (i : nat) (d : N) :
  dataArray !! i = Some d ->
  exists x y,
    drawing width height dataArray !! (6 + i)%nat
    = Some ((if Nat.eqb i 0 then MoveTo else LineTo) x y) /\
    x == inject_Z (Z.of_nat i)
         * (width / inject_Z (Z.of_nat (length dataArray))) /\
    y == byteValue d * height / 256 /\
    drawing width height dataArray !! (6 + length dataArray)%nat
    = Some (LineTo width (height / 2)) /\
    drawing width height dataArray !! (7 + length dataArray)%nat
    = Some Stroke.
Proof.
  intros Hd. unfold drawing. cbv zeta.
  destruct (plot_lookup height
              (width / inject_Z (Z.of_nat (length dataArray)))
              dataArray 0 0 i d Hd) as (x & Hlook & Hx).
  pose proof (lookup_lt_Some _ _ _ Hd) as Hi.
  pose proof (plot_length height
                (width / inject_Z (Z.of_nat (length dataArray)))
                dataArray 0 0) as Hlen.
  exists x, (byteValue d / 128 * height / 2).
  split; [|split; [|split; [|split]]].
  - rewrite lookup_app_r by (cbn [length]; lia). cbn [length].
    replace (6 + i - 6)%nat with i by lia.
    rewrite lookup_app_l by (rewrite Hlen; exact Hi). exact Hlook.
  - rewrite Hx. ring.
  - field.
  - rewrite lookup_app_r by (cbn [length]; lia). cbn [length].
    replace (6 + length dataArray - 6)%nat with (length dataArray) by lia.
    rewrite lookup_app_r by (rewrite Hlen; lia).
    rewrite Hlen, Nat.sub_diag. reflexivity.
  - rewrite lookup_app_r by (cbn [length]; lia). cbn [length].
    replace (7 + length dataArray - 6)%nat with (S (length dataArray)) by lia.
    rewrite lookup_app_r by (rewrite Hlen; lia).
    rewrite Hlen. replace (S (length dataArray) - length dataArray)%nat
      with 1%nat by lia. reflexivity.
Qed.

Lemma drawing_vertex_witness :
  exists x y,
    drawing 800 100 [128; 255; 0; 64]%N !! (6 + 1)%nat
    = Some ((if Nat.eqb 1 0 then MoveTo else LineTo) x y) /\
    x == inject_Z (Z.of_nat 1)
         * (800 / inject_Z (Z.of_nat (length [128; 255; 0; 64]%N))) /\
    y == byteValue 255 * 100 / 256 /\
    drawing 800 100 [128; 255; 0; 64]%N
      !! (6 + length [128; 255; 0; 64]%N)%nat
    = Some (LineTo 800 (100 / 2)) /\
    drawing 800 100 [128; 255; 0; 64]%N
      !! (7 + length [128; 255; 0; 64]%N)%nat
    = Some Stroke.
Proof.
  apply (drawing_vertex 800 100 [128; 255; 0; 64]%N 1 255%N). reflexivity.
Defined.

Lemma plot_flat height sliceWidth : forall data i x,
  Forall (fun d => d = 128%N) data ->
  Forall (fun p : Q * Q => snd p == height / 2)
    (vertices (plot height sliceWidth data i x)).
Proof.
  induction data as [|d data IH]; intros i x Hall; [constructor|].
  apply Forall_cons in Hall as [-> Hall].
  cbn [plot]. unfold vertices.
  destruct (Nat.eqb i 0); cbn [omap list_omap];
    fold (vertices (plot height sliceWidth data (S i) (x + sliceWidth)));
    (constructor; [cbn [snd]; unfold byteValue; cbn; field|apply IH, Hall]).
Qed.

(** X4: silence is drawn as the horizontal centre line: when every byte of
    the analyser data is 128, every point of the path has y = height / 2. *)
Theorem drawing_silence_flat (width height : Q) (dataArray : list N) :
  Forall (fun d => d = 128%N) dataArray ->
  Forall (fun p : Q * Q => snd p == height / 2)
    (vertices (drawing width height dataArray)).
Proof.
  intros Hall. unfold drawing. cbv zeta.
  rewrite !vertices_app. apply Forall_app. split; [constructor|].
  apply Forall_app. split; [apply plot_flat, Hall|].
  cbn. constructor; [reflexivity|constructor].
Qed.

Lemma drawing_silence_flat_witness :
  Forall (fun p : Q * Q => snd p == 100 / 2)
    (vertices (drawing 800 100 [128; 128; 128]%N)).
Proof.
  apply (drawing_silence_flat 800 100 [128; 128; 128]%N).
  repeat constructor.
Defined.

Lemma drawing_length width height dataArray :
  length (drawing width height dataArray) = (8 + length dataArray)%nat.
Proof.
  unfold drawing. cbv zeta. rewrite !length_app, plot_length. cbn. lia.
Qed.

End WaveformProperties.


(** ** The audio graph in reachable states *)

Module RoutingFacts.
Import Audio Generator Effects Invariant Observe Exec Preserve Properties.
Import Routing.

(** A node that an update does not concern keeps its properties; nodes of
    one kind are told apart by what the variables say. *)
Ltac frame2 :=
  repeat first
    [ assumption
    | apply nodeHas_app
    | apply nodeHas_alter_keep; [intros ? ?; assumption|]
    | apply nodeHas_alter_ne; [apart_tac|]
    | apply nodeHas_alter_ne; [congruence|] ].

Lemma routed_same s s' :
  nodes s' = nodes s -> contexts s' = contexts s -> buffers s' = buffers s ->
  tape s' = tape s -> deviceSampleRate s' = deviceSampleRate s ->
  audioContext s' = audioContext s -> gainNode s' = gainNode s ->
  analyserNode s' = analyserNode s -> brownNoiseNode s' = brownNoiseNode s ->
  leftOscillator s' = leftOscillator s ->
  rightOscillator s' = rightOscillator s ->
  leftGain s' = leftGain s -> rightGain s' = rightGain s ->
  isBrownNoisePlaying s' = isBrownNoisePlaying s ->
  isBinauralPlaying s' = isBinauralPlaying s ->
  baseFrequency s' = baseFrequency s ->
  (animationFrameId s' <> None -> analyserNode s <> None) ->
  routed s -> routed s'.
Proof.
  intros Hn Hc Hb Ht Hr Hac Hg Ha Hbn Hl Hro Hlg Hrg Hfn Hft Hbase Hh
    [H1 H2 H3 H4 H5 H6].
  split; unfold chained, noiseRouted, tonesRouted, gainsApart, handleHasTap.
  - rewrite Hn, Hc, Hr, Hac, Hg, Ha. exact H1.
  - rewrite Hn, Hb, Ht, Hr, Hbn, Hg, Hfn. exact H2.
  - rewrite Hn, Hl, Hro, Hlg, Hrg, Hft. exact H3.
  - rewrite Hg, Hlg, Hrg. exact H4.
  - rewrite Ha. exact Hh.
  - rewrite Hbase. exact H6.
Qed.

Ltac open_routed :=
  unfold chained, noiseRouted, tonesRouted, gainsApart, handleHasTap in *.

Lemma routed_contextCreated s :
  wf s -> routed s -> audioContext s = None -> routed (contextCreated s).
Proof.
  intros [Hc _ _ _ _] [H1 H2 H3 H4 H5 H6] Hctx. unfold wf_context in Hc.
  rewrite Hctx in Hc. destruct Hc as (Hg & Ha & Hn & Ht & Hlg & Hrg).
  split; open_routed; unfold contextCreated; cbn.
  - intros c [= <-].
    exists (mkContext (deviceSampleRate s) (length (nodes s)) false),
      (length (nodes s) + 1)%nat, (length (nodes s) + 2)%nat.
    split; [rewrite lookup_app_len0; reflexivity|].
    repeat (split; [reflexivity|]).
    split; [eapply nodeHas_new; [reflexivity|repeat split]|].
    split; [eapply nodeHas_new; [reflexivity|repeat split]|].
    eapply nodeHas_new0; [reflexivity|reflexivity].
  - intros Hon. congruence.
  - intros Hon. congruence.
  - intros g _. rewrite Hlg, Hrg. split; discriminate.
  - intros _. discriminate.
  - exact H6.
Qed.

Lemma routed_tonesOn s c g :
  wf s -> routed s -> audioContext s = Some c -> gainNode s = Some g ->
  isBinauralPlaying s = false -> routed (tonesOn g s).
Proof.
  intros Hwf [H1 H2 H3 H4 H5 H6] Hctx Hg Hoff.
  pose proof (wf_gain_lt s g Hwf Hg) as Hlt.
  split; open_routed; unfold tonesOn; cbn.
  - intros c' Hc'. destruct (H1 c' Hc') as (cx & g' & a & ? & ? & ? & ? & ? & ? & ?).
    exists cx, g', a. repeat (split; [assumption|]).
    split; [frame2|]. split; frame2.
  - intros Hon. destruct (H2 Hon) as (n & g' & b & r0 & ? & ? & ? & ?).
    exists n, g', b, r0. repeat (split; [assumption|]). split; [frame2|assumption].
  - intros _.
    exists (length (nodes s)), (length (nodes s) + 1)%nat,
      (length (nodes s) + 2)%nat, (length (nodes s) + 3)%nat.
    repeat (split; [reflexivity|]).
    split; [eapply nodeHas_new0; [reflexivity|repeat split]|].
    split; [|split]; (eapply nodeHas_new; [reflexivity|repeat split]).
  - intros g' Hg'. assert (g' = g) by congruence. subst g'.
    split; intros [= Heq]; lia.
  - exact H5.
  - exact H6.
Qed.

Lemma routed_tonesOff s l r :
  wf s -> routed s -> isBinauralPlaying s = true ->
  leftOscillator s = Some l -> rightOscillator s = Some r ->
  routed (tonesOff l r s).
Proof.
  intros Hwf [H1 H2 H3 H4 H5 H6] Hon Hl Hr.
  pose proof (tone_refs_started s Hwf) as Href. rewrite Hl, Hr in Href.
  destruct Href as (Hne & Hnl & Hnr).
  split; open_routed; unfold tonesOff; cbn.
  - intros c' Hc'. destruct (H1 c' Hc') as (cx & g' & a & ? & ? & ? & ? & ? & ? & ?).
    exists cx, g', a. repeat (split; [assumption|]).
    split; [frame2|]. split; frame2.
  - intros Hnoise. destruct (H2 Hnoise) as (n & g' & b & r0 & ? & ? & ? & ?).
    exists n, g', b, r0. repeat (split; [assumption|]). split; [frame2|assumption].
  - intros Hf. discriminate.
  - exact H4.
  - exact H5.
  - exact H6.
Qed.

Lemma routed_valueSet_gain s g v :
  routed s -> gainNode s = Some g -> routed (gainSet g v s).
Proof.
  intros [H1 H2 H3 H4 H5 H6] Hg.
  split; open_routed; unfold gainSet; cbn.
  - intros c' Hc'. destruct (H1 c' Hc') as (cx & g' & a & ? & ? & ? & ? & ? & ? & ?).
    exists cx, g', a. repeat (split; [assumption|]).
    split; [frame2|]. split; frame2.
  - intros Hnoise. destruct (H2 Hnoise) as (n & g' & b & r0 & ? & ? & ? & ?).
    exists n, g', b, r0. repeat (split; [assumption|]). split; [frame2|assumption].
  - intros Hon. destruct (H3 Hon) as (l & r & lg & rg & ? & ? & Hlg & Hrg & ? & ? & ? & ?).
    destruct (H4 g Hg) as (Ha1 & Ha2).
    exists l, r, lg, rg. repeat (split; [assumption|]).
    split; [frame2|]. split; [frame2|]. split; frame2.
  - exact H4.
  - exact H5.
  - exact H6.
Qed.

Lemma routed_noiseOn s c cx g :
  wf s -> routed s -> audioContext s = Some c -> contexts s !! c = Some cx ->
  gainNode s = Some g -> isBrownNoisePlaying s = false ->
  routed (noiseOn (sampleRate cx) g s).
Proof.
  intros Hwf [H1 H2 H3 H4 H5 H6] Hctx Hcx Hg Hoff.
  assert (Hrate : sampleRate cx = deviceSampleRate s).
  { destruct (H1 c Hctx) as (cx' & _ & _ & Hcx' & Hr & _). congruence. }
  split; open_routed; unfold noiseOn; cbn.
  - intros c' Hc'. destruct (H1 c' Hc') as (cx' & g' & a & ? & ? & ? & ? & ? & ? & ?).
    exists cx', g', a. repeat (split; [assumption|]).
    split; [frame2|]. split; frame2.
  - intros _. exists (length (nodes s)), g, (length (buffers s)), (rng s).
    split; [reflexivity|]. split; [exact Hg|].
    split.
    + eapply nodeHas_fresh; [apply length_alter|reflexivity|repeat split].
    + rewrite lookup_app_len0, Hrate. reflexivity.
  - intros Hon. destruct (H3 Hon) as (l & r & lg & rg & ? & ? & Hlg & Hrg & ? & ? & ? & ?).
    destruct (H4 g Hg) as (Ha1 & Ha2).
    exists l, r, lg, rg. repeat (split; [assumption|]).
    split; [frame2|]. split; [frame2|]. split; frame2.
  - exact H4.
  - exact H5.
  - exact H6.
Qed.

Lemma routed_noiseOff s n :
  wf s -> routed s -> isBrownNoisePlaying s = true ->
  brownNoiseNode s = Some n -> routed (noiseOff n s).
Proof.
  intros Hwf [H1 H2 H3 H4 H5 H6] Hon Hbn.
  pose proof (noise_ref_started s n Hwf Hbn) as Hnn.
  split; open_routed; unfold noiseOff; cbn.
  - intros c' Hc'. destruct (H1 c' Hc') as (cx & g' & a & ? & ? & ? & ? & ? & ? & ?).
    exists cx, g', a. repeat (split; [assumption|]).
    split; [frame2|]. split; frame2.
  - intros Hf. discriminate.
  - intros Ht. destruct (H3 Ht) as (l & r & lg & rg & ? & ? & Hlg & Hrg & ? & ? & ? & ?).
    exists l, r, lg, rg. repeat (split; [assumption|]).
    split; [frame2|]. split; [frame2|]. split; frame2.
  - exact H4.
  - exact H5.
  - exact H6.
Qed.

Lemma routed_withContext s : wf s -> routed s -> routed (withContext s).
Proof.
  intros Hwf Hr. unfold withContext.
  destruct (audioContext s) eqn:Hctx; [exact Hr|].
  apply routed_contextCreated; assumption.
Qed.

Lemma routed_toggledNoise s : wf s -> routed s -> routed (toggledNoise s).
Proof.
  intros Hwf Hr. unfold toggledNoise.
  destruct (isBrownNoisePlaying s) eqn:Hp.
  - destruct (brownNoiseNode s) eqn:Hbn; [|exact Hr].
    apply routed_noiseOff; assumption.
  - cbv zeta.
    destruct (withContext_context s Hwf) as (c & cx & g & Hctx & Hcx & Hg & _).
    rewrite Hctx, Hg. unfold rateOf. rewrite Hcx.
    eapply routed_noiseOn; eauto using wf_withContext, routed_withContext.
    rewrite (proj1 (withContext_flags s)). exact Hp.
Qed.

Lemma routed_toggledTones s : wf s -> routed s -> routed (toggledTones s).
Proof.
  intros Hwf Hr. unfold toggledTones.
  destruct (isBinauralPlaying s) eqn:Hp.
  - destruct (leftOscillator s) eqn:Hl; [|exact Hr].
    destruct (rightOscillator s) eqn:Hro; [|exact Hr].
    apply routed_tonesOff; assumption.
  - cbv zeta.
    destruct (withContext_context s Hwf) as (c & cx & g & Hctx & Hcx & Hg & _).
    rewrite Hg.
    eapply routed_tonesOn; eauto using wf_withContext, routed_withContext.
    rewrite (proj2 (withContext_flags s)). exact Hp.
Qed.

(** Writing the frequency of an oscillator changes no routing. *)
Lemma routed_valueSet_osc s o v :
  routed s ->
  nodeHas (nodes s) o (isNode Oscillator true false) ->
  routed (gainSet o v s).
Proof.
  intros [H1 H2 H3 H4 H5 H6] Ho.
  split; open_routed; unfold gainSet; cbn.
  - intros c' Hc'. destruct (H1 c' Hc') as (cx & g' & a & ? & ? & ? & ? & ? & ? & ?).
    exists cx, g', a. repeat (split; [assumption|]).
    split; [frame2|]. split; frame2.
  - intros Hnoise. destruct (H2 Hnoise) as (n & g' & b & r0 & ? & ? & ? & ?).
    exists n, g', b, r0. repeat (split; [assumption|]). split; [frame2|assumption].
  - intros Hon. destruct (H3 Hon) as (l & r & lg & rg & ? & ? & Hlg & Hrg & ? & ? & ? & ?).
    exists l, r, lg, rg. repeat (split; [assumption|]).
    split; [frame2|]. split; [frame2|]. split; frame2.
  - exact H4.
  - exact H5.
  - exact H6.
Qed.

Lemma routed_retuned s : wf s -> routed s -> routed (retuned s).
Proof.
  intros Hwf Hr. unfold retuned.
  pose proof (tone_refs_started s Hwf) as Href.
  destruct (leftOscillator s) as [l|]; [|exact Hr].
  destruct (rightOscillator s) as [r|]; [|exact Hr].
  destruct Href as (Hne & Hnl & Hnr).
  apply routed_valueSet_osc.
  - apply routed_valueSet_osc; assumption.
  - unfold gainSet. cbn.
    apply nodeHas_alter_keep; [intros ? ?; assumption|exact Hnr].
Qed.

Lemma routed_redrawn s : routed s -> routed (redrawn s).
Proof.
  intros Hr. unfold redrawn.
  destruct (analyserNode s) as [a|] eqn:Ha; [|exact Hr].
  destruct (canvas s) as [cv|]; [|exact Hr].
  destruct (context2d cv); [|exact Hr].
  eapply routed_same; try exact Hr; try reflexivity.
  intros _. rewrite Ha. discriminate.
Qed.

Lemma routed_reframed s : routed s -> routed (reframed s).
Proof.
  intros Hr. unfold reframed. cbv zeta.
  destruct (_ && negb _); [apply routed_redrawn, Hr|].
  destruct (_ && truthy _); [|exact Hr].
  destruct (animationFrameId s) as [id|]; [|exact Hr].
  eapply routed_same; try exact Hr; try reflexivity.
  intros H. contradiction H. reflexivity.
Qed.

Lemma routed_set_beatFrequency s f : routed s -> routed (set_beatFrequency f s).
Proof. intros []; split; assumption. Qed.

Lemma routed_set_volume s v : routed s -> routed (set_volume v s).
Proof. intros []; split; assumption. Qed.

Lemma routed_set_canvas s cv : routed s -> routed (set_canvas cv s).
Proof. intros []; split; assumption. Qed.

Lemma routed_performed s a : wf s -> routed s -> routed (performed a s).
Proof.
  intros Hwf Hr. destruct a as [cv w|w|f| | |v|id]; cbn [performed].
  - unfold resized. cbn. apply routed_set_canvas, routed_set_canvas, Hr.
  - unfold resized. destruct (canvas s); [apply routed_set_canvas|]; exact Hr.
  - unfold selected. destruct f as [f|]; cbv zeta; apply routed_reframed.
    + pose proof (wf_set_beatFrequency s f Hwf) as Hwf0.
      pose proof (routed_set_beatFrequency s f Hr) as Hr0.
      set (s0 := set_beatFrequency f s) in *.
      assert (Hs1 : wf (if isBrownNoisePlaying s0 then toggledNoise s0 else s0)
                    /\ routed (if isBrownNoisePlaying s0 then toggledNoise s0
                               else s0)).
      { destruct (isBrownNoisePlaying s0);
          auto using wf_toggledNoise, routed_toggledNoise. }
      destruct Hs1 as (Hwf1 & Hr1).
      destruct (isBinauralPlaying _);
        auto using routed_retuned, routed_toggledTones.
    + pose proof (wf_toggledNoise s Hwf) as Hwf1.
      pose proof (routed_toggledNoise s Hwf Hr) as Hr1.
      destruct (isBinauralPlaying _); auto using routed_toggledTones.
  - apply routed_toggledNoise; assumption.
  - apply routed_toggledTones; assumption.
  - unfold volumeApplied. cbn [gainNode set_volume].
    destruct (gainNode s) as [g|] eqn:Hg; [|apply routed_set_volume, Hr].
    apply routed_valueSet_gain; [apply routed_set_volume, Hr|exact Hg].
  - unfold fired. destruct (existsb _ _); [|exact Hr].
    apply routed_redrawn.
    eapply routed_same; try exact Hr; try reflexivity. apply Hr.
Qed.

Lemma routed_init t rate : routed (init t rate).
Proof.
  split; open_routed; cbn.
  - intros c H. discriminate H.
  - intros H. discriminate H.
  - intros H. discriminate H.
  - intros g H. discriminate H.
  - intros H. contradiction H. reflexivity.
  - reflexivity.
Qed.

(** The routing invariant holds in every reachable state. *)
Lemma reachable_routed t rate s : reachable t rate s -> routed s.
Proof.
  induction 1 as [|s a s' Hreach IH Hallowed Hstep]; [apply routed_init|].
  pose proof (reachable_wf _ _ _ Hreach) as Hwf.
  rewrite (perform_closed s a Hwf) in Hstep. injection Hstep as <-.
  apply routed_performed; assumption.
Qed.

(** *** Frequencies *)

Lemma tuned_same s s' :
  nodes s' = nodes s -> leftOscillator s' = leftOscillator s ->
  rightOscillator s' = rightOscillator s ->
  isBinauralPlaying s' = isBinauralPlaying s ->
  baseFrequency s' = baseFrequency s -> beatFrequency s' = beatFrequency s ->
  tuned s -> tuned s'.
Proof.
  intros Hn Hl Hr Hf Hb Hbeat H. unfold tuned in *.
  rewrite Hn, Hl, Hr, Hf, Hb, Hbeat. exact H.
Qed.

Lemma tuned_tonesOn s g : tuned (tonesOn g s).
Proof.
  intros _. unfold tonesOn. cbn.
  exists (length (nodes s)), (length (nodes s) + 1)%nat.
  repeat (split; [reflexivity|]).
  split; [eapply nodeHas_new0; [reflexivity|repeat split]|].
  eapply nodeHas_new; [reflexivity|repeat split].
Qed.

Lemma tuned_toggledTones s : wf s -> tuned (toggledTones s).
Proof.
  intros Hwf. unfold toggledTones.
  destruct (isBinauralPlaying s) eqn:Hp.
  - destruct (wf_tone_refs s Hwf Hp) as (l & r & -> & ->).
    intros Hon. discriminate Hon.
  - cbv zeta.
    destruct (withContext_context s Hwf) as (c & cx & g & _ & _ & Hg & _).
    rewrite Hg. apply tuned_tonesOn.
Qed.

(** An update of a node that is no oscillator leaves the frequencies. *)
Lemma tuned_alter s s' m f k st sp :
  k <> Oscillator -> nodeHas (nodes s) m (isNode k st sp) ->
  nodes s' = alter f m (nodes s) ->
  leftOscillator s' = leftOscillator s ->
  rightOscillator s' = rightOscillator s ->
  isBinauralPlaying s' = isBinauralPlaying s ->
  baseFrequency s' = baseFrequency s -> beatFrequency s' = beatFrequency s ->
  tuned s -> tuned s'.
Proof.
  intros Hk Hm Hn Hl Hr Hf Hb Hbeat H. unfold tuned in *.
  rewrite Hn, Hl, Hr, Hf, Hb, Hbeat. intros Hon.
  destruct (H Hon) as (l & r & ? & ? & Hnl & Hnr).
  exists l, r. repeat (split; [assumption|]).
  split; (apply nodeHas_alter_ne; [|assumption]).
  - intros ->. destruct Hm as (nd & Hnd & Hkind & _).
    destruct Hnl as (nd' & Hnd' & Hkind' & _). congruence.
  - intros ->. destruct Hm as (nd & Hnd & Hkind & _).
    destruct Hnr as (nd' & Hnd' & Hkind' & _). congruence.
Qed.

Lemma tuned_app s s' extra :
  nodes s' = nodes s ++ extra ->
  leftOscillator s' = leftOscillator s ->
  rightOscillator s' = rightOscillator s ->
  isBinauralPlaying s' = isBinauralPlaying s ->
  baseFrequency s' = baseFrequency s -> beatFrequency s' = beatFrequency s ->
  tuned s -> tuned s'.
Proof.
  intros Hn Hl Hr Hf Hb Hbeat H. unfold tuned in *.
  rewrite Hn, Hl, Hr, Hf, Hb, Hbeat. intros Hon.
  destruct (H Hon) as (l & r & ? & ? & Hnl & Hnr).
  exists l, r. repeat (split; [assumption|]). split; apply nodeHas_app; assumption.
Qed.

Lemma mix_gain_node s g :
  wf s -> gainNode s = Some g -> nodeHas (nodes s) g (isNode Gain false false).
Proof.
  intros [Hc _ _ _ _] Hg. unfold wf_context, nodeAt in Hc.
  destruct (audioContext s); [|destruct Hc as (Hx & _); congruence].
  destruct Hc as (_ & (g' & Hg' & Hgn) & _). congruence.
Qed.

Lemma tuned_valueSet_gain s g v :
  wf s -> gainNode s = Some g -> tuned s -> tuned (gainSet g v s).
Proof.
  intros Hwf Hg Ht.
  eapply (tuned_alter s _ g (with_value v) Gain false false);
    try reflexivity; try assumption; [discriminate|].
  apply mix_gain_node; assumption.
Qed.

Lemma tuned_withContext s : tuned s -> tuned (withContext s).
Proof.
  intros Ht. unfold withContext. destruct (audioContext s); [exact Ht|].
  eapply tuned_app; try exact Ht; reflexivity.
Qed.

Lemma tuned_toggledNoise s : wf s -> tuned s -> tuned (toggledNoise s).
Proof.
  intros Hwf Ht. unfold toggledNoise.
  destruct (isBrownNoisePlaying s) eqn:Hp.
  - destruct (brownNoiseNode s) as [n|] eqn:Hbn; [|exact Ht].
    pose proof (noise_ref_started s n Hwf Hbn) as Hnn.
    unfold tuned, noiseOff in *. cbn. intros Hon.
    destruct (Ht Hon) as (l & r & ? & ? & Hnl & Hnr).
    exists l, r. repeat (split; [assumption|]). split; frame2.
  - cbv zeta.
    destruct (withContext_context s Hwf) as (c & cx & g & Hctx & Hcx & Hg & _).
    rewrite Hctx, Hg.
    pose proof (wf_withContext s Hwf) as Hwf1.
    pose proof (tuned_withContext s Ht) as Ht1.
    pose proof (mix_gain_node _ g Hwf1 Hg) as Hgn.
    unfold tuned, noiseOn in *. cbn. intros Hon.
    destruct (Ht1 Hon) as (l & r & ? & ? & Hnl & Hnr).
    exists l, r. repeat (split; [assumption|]). split; frame2.
Qed.

Lemma tuned_retuned s : wf s -> tuned (retuned s).
Proof.
  intros Hwf. unfold retuned.
  pose proof (tone_refs_started s Hwf) as Href.
  destruct (leftOscillator s) as [l|] eqn:Hl.
  - destruct (rightOscillator s) as [r|] eqn:Hr; [|contradiction].
    destruct Href as (Hne & (ndl & Hndl & Hkl & _) & (ndr & Hndr & Hkr & _)).
    unfold tuned, gainSet. cbn. intros _. exists l, r.
    split; [exact Hl|]. split; [exact Hr|]. split.
    + exists (with_value (baseFrequency s) ndl).
      rewrite list_lookup_alter_ne by auto.
      rewrite list_lookup_alter_eq, Hndl. repeat split. exact Hkl.
    + exists (with_value (baseFrequency s + beatFrequency s) ndr).
      rewrite list_lookup_alter_eq.
      rewrite list_lookup_alter_ne by auto. rewrite Hndr.
      repeat split. exact Hkr.
  - destruct (rightOscillator s) as [r|] eqn:Hr; [contradiction|].
    intros Hon. destruct (wf_tone_refs s Hwf Hon) as (l & r & Hl' & _).
    congruence.
Qed.

Lemma tuned_redrawn s : tuned s -> tuned (redrawn s).
Proof.
  intros Ht. unfold redrawn.
  destruct (analyserNode s); [|exact Ht].
  destruct (canvas s) as [cv|]; [|exact Ht].
  destruct (context2d cv); exact Ht.
Qed.

Lemma tuned_reframed s : tuned s -> tuned (reframed s).
Proof.
  intros Ht. unfold reframed. cbv zeta.
  destruct (_ && negb _); [apply tuned_redrawn, Ht|].
  destruct (_ && truthy _); [|exact Ht].
  destruct (animationFrameId s); exact Ht.
Qed.

Lemma tuned_performed s a : wf s -> tuned s -> tuned (performed a s).
Proof.
  intros Hwf Ht. destruct a as [cv w|w|f| | |v|id]; cbn [performed].
  - exact Ht.
  - unfold resized. destruct (canvas s); exact Ht.
  - unfold selected. destruct f as [f|]; cbv zeta; apply tuned_reframed.
    + pose proof (wf_set_beatFrequency s f Hwf) as Hwf0.
      set (s0 := set_beatFrequency f s) in *.
      assert (Hwf1 : wf (if isBrownNoisePlaying s0 then toggledNoise s0 else s0))
        by (destruct (isBrownNoisePlaying s0); auto using wf_toggledNoise).
      destruct (isBinauralPlaying _);
        auto using tuned_retuned, tuned_toggledTones.
    + pose proof (wf_toggledNoise s Hwf) as Hwf1.
      pose proof (tuned_toggledNoise s Hwf Ht) as Ht1.
      destruct (isBinauralPlaying _); auto using tuned_toggledTones.
  - apply tuned_toggledNoise; assumption.
  - apply tuned_toggledTones; assumption.
  - unfold volumeApplied. cbn [gainNode set_volume].
    destruct (gainNode s) as [g|] eqn:Hg; [|exact Ht].
    apply tuned_valueSet_gain; [apply wf_set_volume, Hwf|exact Hg|exact Ht].
  - unfold fired. destruct (existsb _ _); [|exact Ht].
    apply tuned_redrawn. exact Ht.
Qed.

(** In every reachable state the playing oscillators are at the carrier and
    at carrier plus beat. *)
Lemma reachable_tuned t rate s : reachable t rate s -> tuned s.
Proof.
  induction 1 as [|s a s' Hreach IH Hallowed Hstep].
  - intros Hon. discriminate Hon.
  - pose proof (reachable_wf _ _ _ Hreach) as Hwf.
    rewrite (perform_closed s a Hwf) in Hstep. injection Hstep as <-.
    apply tuned_performed; assumption.
Qed.

End RoutingFacts.


(** ** Further properties of the component *)

Module MoreProperties.
Import Audio Generator Effects Invariant Observe Exec Preserve Properties.
Import Routing RoutingFacts.
Import Waveform Markup Redraw WaveformProperties.

Ltac split_matches :=
  repeat match goal with
         | |- context [match ?x with _ => _ end] => destruct x eqn:?
         | |- context [if ?x then _ else _] => destruct x eqn:?
         end.

(** The tape and the device rate never change. *)
Lemma performed_env s a :
  tape (performed a s) = tape s /\
  deviceSampleRate (performed a s) = deviceSampleRate s.
Proof.
  destruct a; cbn [performed];
    unfold resized, selected, fired, volumeApplied, reframed, redrawn,
      retuned, toggledTones, toggledNoise, withContext;
    cbv zeta; split_matches; split; reflexivity.
Qed.

Lemma reachable_env t rate s :
  reachable t rate s -> tape s = t /\ deviceSampleRate s = rate.
Proof.
  induction 1 as [|s a s' Hreach IH Hallowed Hstep]; [split; reflexivity|].
  pose proof (reachable_wf _ _ _ Hreach) as Hwf.
  rewrite (perform_closed s a Hwf) in Hstep. injection Hstep as <-.
  destruct (performed_env s a) as (-> & ->). exact IH.
Qed.

(** *** No function of the script throws *)

(** X5: in every reachable state every handler of the script (preset click,
    either toggle, slider input with any value, resize, a firing animation
    frame) and the teardown run to completion: no null reference is
    dereferenced and no source is started twice or stopped before it was
    started. *)
Theorem handlers_never_throw t rate s :
  reachable t rate s ->
  (forall a, exists s', perform a s = Ok tt s') /\
  (exists s', onDestroy s = Ok tt s').
Proof.
  intros Hreach. apply reachable_wf in Hreach as Hwf. split.
  - intros a. exists (performed a s). apply perform_closed, Hwf.
  - exists (destroyed s). apply onDestroy_closed, Hwf.
Qed.

Lemma handlers_never_throw_witness :
  (forall a, exists s', perform a bothPlaying = Ok tt s') /\
  (exists s', onDestroy bothPlaying = Ok tt s').
Proof.
  apply (handlers_never_throw exampleTape exampleRate).
  apply reachable_bothPlaying.
Defined.

(** *** Teardown in any state *)

Lemma halted_marks s n :
  (n < length (nodes s))%nat ->
  isStopped (halted n s) n = true /\ outputsOf (halted n s) n = [].
Proof.
  intros Hlt. unfold isStopped, outputsOf, halted. cbn.
  rewrite !list_lookup_alter_eq.
  destruct (lookup_lt_is_Some_2 _ _ Hlt) as [nd ->]. split; reflexivity.
Qed.

Lemma halted_keeps s m x :
  isStopped s x = true /\ outputsOf s x = [] ->
  isStopped (halted m s) x = true /\ outputsOf (halted m s) x = [].
Proof.
  unfold isStopped, outputsOf, halted. cbn. intros [Hs Ho].
  destruct (decide (m = x)) as [->|Hne].
  - rewrite !list_lookup_alter_eq. destruct (nodes s !! x); [|discriminate].
    split; reflexivity.
  - rewrite !list_lookup_alter_ne by exact Hne. auto.
Qed.

Lemma unframed_audio s :
  nodes (unframed s) = nodes s /\
  brownNoiseNode (unframed s) = brownNoiseNode s /\
  leftOscillator (unframed s) = leftOscillator s /\
  rightOscillator (unframed s) = rightOscillator s /\
  audioContext (unframed s) = audioContext s /\
  contexts (unframed s) = contexts s.
Proof.
  unfold unframed. destruct (truthy _); [|repeat split].
  destruct (animationFrameId s); repeat split.
Qed.

Lemma source_refs_lt s n :
  wf s -> n ∈ sourceRefs s -> (n < length (nodes s))%nat.
Proof.
  intros Hwf Hn. unfold sourceRefs in Hn.
  apply list_elem_of_omap in Hn as (o & Ho & ->).
  pose proof (tone_refs_started s Hwf) as Htones.
  repeat (apply elem_of_cons in Ho as [Ho|Ho]).
  - symmetry in Ho. eapply nodeHas_lt, noise_ref_started; eassumption.
  - rewrite <- Ho in Htones. destruct (rightOscillator s); [|contradiction].
    eapply nodeHas_lt, Htones.
  - rewrite <- Ho in Htones. destruct (leftOscillator s); [|contradiction].
    eapply nodeHas_lt, Htones.
  - apply elem_of_nil in Ho. contradiction.
Qed.

(** X6: teardown works in every reachable state, not only while both
    sources play: it returns normally, leaves no callback pending and a
    null frame handle, leaves every source the variables refer to stopped
    and disconnected, and closes the context if there is one.  It resets
    neither the source variables nor the playing flags. *)
Theorem teardown_any_state t rate s :
  reachable t rate s ->
  exists s',
    onDestroy s = Ok tt s' /\
    pending s' = [] /\ animationFrameId s' = None /\
    (forall n, n ∈ sourceRefs s ->
       isStopped s' n = true /\ outputsOf s' n = []) /\
    (forall c, audioContext s = Some c -> isClosed s' c = true) /\
    sourceRefs s' = sourceRefs s /\
    isBrownNoisePlaying s' = isBrownNoisePlaying s /\
    isBinauralPlaying s' = isBinauralPlaying s.
Proof.
  intros Hreach. apply reachable_wf in Hreach as Hwf.
  exists (destroyed s). split; [apply onDestroy_closed, Hwf|].
  destruct (unframed_spec s Hwf) as (_ & Hpend & Hfr).
  destruct (unframed_audio s) as (Hn1 & Hbn1 & Hl1 & Hr1 & Hc1 & Hctx1).
  assert (Hflags : isBrownNoisePlaying (unframed s) = isBrownNoisePlaying s /\
                   isBinauralPlaying (unframed s) = isBinauralPlaying s).
  { unfold unframed. destruct (truthy _); [|auto].
    destruct (animationFrameId s); auto. }
  destruct Hflags as (Hf1 & Hf2).
  pose proof (source_refs_lt s) as Hlt.
  unfold destroyed. cbv zeta.
  set (s1 := unframed s) in *.
  set (s2 := match brownNoiseNode s1 with
             | Some n => halted n s1 | None => s1 end).
  assert (H2 : pending s2 = [] /\ animationFrameId s2 = None /\
               leftOscillator s2 = leftOscillator s /\
               rightOscillator s2 = rightOscillator s /\
               brownNoiseNode s2 = brownNoiseNode s /\
               audioContext s2 = audioContext s /\
               contexts s2 = contexts s /\
               length (nodes s2) = length (nodes s) /\
               isBrownNoisePlaying s2 = isBrownNoisePlaying s /\
               isBinauralPlaying s2 = isBinauralPlaying s /\
               (forall n, brownNoiseNode s = Some n ->
                  isStopped s2 n = true /\ outputsOf s2 n = [])).
  { subst s2. rewrite Hbn1. destruct (brownNoiseNode s) as [n|] eqn:Hbn.
    - repeat (split; [first [assumption | reflexivity]|]).
      split; [unfold halted; cbn; rewrite !length_alter, Hn1; reflexivity|].
      split; [exact Hf1|]. split; [exact Hf2|].
      intros n' [= <-]. apply halted_marks. rewrite Hn1. apply Hlt; [exact Hwf|].
      unfold sourceRefs. rewrite Hbn. cbn. apply elem_of_cons. left. reflexivity.
    - repeat (split; [first [assumption | reflexivity]|]).
      split; [rewrite Hn1; reflexivity|].
      split; [exact Hf1|]. split; [exact Hf2|]. intros n' Hx. discriminate Hx. }
  clearbody s2.
  destruct H2 as (Hp2 & Hfr2 & Hl2 & Hr2 & Hbn2 & Hc2 & Hctx2 & Hlen2 & Hfn2 & Hft2 & Hs2).
  set (s3 := match leftOscillator s2 with
             | Some l => halted l s2 | None => s2 end).
  assert (H3 : pending s3 = [] /\ animationFrameId s3 = None /\
               leftOscillator s3 = leftOscillator s /\
               rightOscillator s3 = rightOscillator s /\
               brownNoiseNode s3 = brownNoiseNode s /\
               audioContext s3 = audioContext s /\
               contexts s3 = contexts s /\
               length (nodes s3) = length (nodes s) /\
               isBrownNoisePlaying s3 = isBrownNoisePlaying s /\
               isBinauralPlaying s3 = isBinauralPlaying s /\
               (forall n, brownNoiseNode s = Some n \/ leftOscillator s = Some n ->
                  isStopped s3 n = true /\ outputsOf s3 n = [])).
  { subst s3. rewrite Hl2. destruct (leftOscillator s) as [l|] eqn:Hl.
    - repeat (split; [first [assumption | reflexivity]|]).
      split; [unfold halted; cbn; rewrite !length_alter; exact Hlen2|].
      split; [exact Hfn2|]. split; [exact Hft2|].
      intros n' [Hx|Hx].
      + apply halted_keeps, Hs2, Hx.
      + injection Hx as <-. apply halted_marks. rewrite Hlen2.
        apply Hlt; [exact Hwf|]. unfold sourceRefs. rewrite Hl.
        destruct (brownNoiseNode s); cbn; repeat constructor.
    - repeat (split; [first [assumption | reflexivity]|]).
      intros n' [Hx|Hx]; [apply Hs2, Hx|discriminate Hx]. }
  clearbody s3.
  destruct H3 as (Hp3 & Hfr3 & Hl3 & Hr3 & Hbn3 & Hc3 & Hctx3 & Hlen3 & Hfn3 & Hft3 & Hs3).
  set (s4 := match rightOscillator s3 with
             | Some r => halted r s3 | None => s3 end).
  assert (H4 : pending s4 = [] /\ animationFrameId s4 = None /\
               leftOscillator s4 = leftOscillator s /\
               rightOscillator s4 = rightOscillator s /\
               brownNoiseNode s4 = brownNoiseNode s /\
               audioContext s4 = audioContext s /\
               contexts s4 = contexts s /\
               isBrownNoisePlaying s4 = isBrownNoisePlaying s /\
               isBinauralPlaying s4 = isBinauralPlaying s /\
               (forall n, n ∈ sourceRefs s ->
                  isStopped s4 n = true /\ outputsOf s4 n = [])).
  { subst s4. rewrite Hr3.
    assert (Hmem : forall n, n ∈ sourceRefs s ->
              (brownNoiseNode s = Some n \/ leftOscillator s = Some n) \/
              rightOscillator s = Some n).
    { intros n Hn. unfold sourceRefs in Hn.
      apply list_elem_of_omap in Hn as (o & Ho & ->).
      repeat (apply elem_of_cons in Ho as [Ho|Ho]); auto.
      apply elem_of_nil in Ho. contradiction. }
    destruct (rightOscillator s) as [r|] eqn:Hr.
    - repeat (split; [first [assumption | reflexivity]|]).
      intros n' Hn'. destruct (Hmem n' Hn') as [Hx|Hx].
      + apply halted_keeps, Hs3, Hx.
      + injection Hx as <-. apply halted_marks. rewrite Hlen3.
        apply Hlt; assumption.
    - repeat (split; [first [assumption | reflexivity]|]).
      intros n' Hn'. destruct (Hmem n' Hn') as [Hx|Hx];
        [apply Hs3, Hx|discriminate Hx]. }
  clearbody s4.
  destruct H4 as (Hp4 & Hfr4 & Hl4 & Hr4 & Hbn4 & Hc4 & Hctx4 & Hfn4 & Hft4 & Hs4).
  assert (Hcx : forall c, audioContext s = Some c ->
                  exists cx, contexts s !! c = Some cx).
  { intros c Hc. destruct Hwf as [Hctx _ _ _ _]. unfold wf_context in Hctx.
    rewrite Hc in Hctx. destruct Hctx as ((cx & Hcx & _) & _). eauto. }
  assert (Hrefs : sourceRefs (match audioContext s4 with
                               | Some c => contextClosed c s4
                               | None => s4 end) = sourceRefs s).
  { unfold sourceRefs. destruct (audioContext s4); cbn;
      rewrite Hbn4, Hl4, Hr4; reflexivity. }
  rewrite Hc4 in *. destruct (audioContext s) as [c|] eqn:Hc.
  - destruct (Hcx c eq_refl) as (cx & Hcx').
    split; [exact Hp4|]. split; [exact Hfr4|].
    split; [exact Hs4|].
    split; [|split; [exact Hrefs|split; assumption]].
    intros c' [= <-]. unfold isClosed, contextClosed. cbn.
    rewrite Hctx4, list_lookup_alter_eq, Hcx'. reflexivity.
  - split; [exact Hp4|]. split; [exact Hfr4|].
    split; [exact Hs4|].
    split; [intros c' Hx; discriminate Hx|].
    split; [exact Hrefs|split; assumption].
Qed.

Lemma teardown_any_state_witness :
  exists s',
    onDestroy tonesPlaying = Ok tt s' /\
    pending s' = [] /\ animationFrameId s' = None /\
    (forall n, n ∈ sourceRefs tonesPlaying ->
       isStopped s' n = true /\ outputsOf s' n = []) /\
    (forall c, audioContext tonesPlaying = Some c -> isClosed s' c = true) /\
    sourceRefs s' = sourceRefs tonesPlaying /\
    isBrownNoisePlaying s' = isBrownNoisePlaying tonesPlaying /\
    isBinauralPlaying s' = isBinauralPlaying tonesPlaying.
Proof.
  apply (teardown_any_state exampleTape exampleRate).
  apply reachable_tonesPlaying.
Defined.

(** *** The audio graph in every reachable state *)

Lemma nodeHas_outputs s n P out :
  nodeHas (nodes s) n P -> (forall nd, P nd -> outputs nd = out) ->
  outputsOf s n = out.
Proof.
  intros (nd & Hnd & HP) Himp. unfold outputsOf. rewrite Hnd. auto.
Qed.

Lemma nodeHas_param s n P v :
  nodeHas (nodes s) n P -> (forall nd, P nd -> value nd = v) ->
  paramOf s n = Some v.
Proof.
  intros (nd & Hnd & HP) Himp. unfold paramOf. rewrite Hnd.
  f_equal. auto.
Qed.

(** X7: once the audio context exists, it is open and runs at the device's
    sample rate, and the output chain is in place: the mix gain node feeds
    the analyser only, the analyser has [fftSize] 2048 and feeds the
    context's destination only. *)
Theorem output_chain t rate s c :
  reachable t rate s -> audioContext s = Some c ->
  exists cx g a,
    contexts s !! c = Some cx /\ sampleRate cx = rate /\ closed cx = false /\
    gainNode s = Some g /\ analyserNode s = Some a /\
    outputsOf s g = [(a, 0%nat, 0%nat)] /\
    outputsOf s a = [(destination cx, 0%nat, 0%nat)] /\
    nodeHas (nodes s) g (fun nd => kind nd = Gain) /\
    nodeHas (nodes s) a (fun nd => kind nd = Analyser /\ fftSize nd = 2048%nat) /\
    nodeHas (nodes s) (destination cx) (fun nd => kind nd = Destination).
Proof.
  intros Hreach Hc.
  pose proof (reachable_wf _ _ _ Hreach) as Hwf.
  pose proof (reachable_routed _ _ _ Hreach) as Hrt.
  destruct (reachable_env _ _ _ Hreach) as (_ & Hrate).
  destruct (rt_chain s Hrt c Hc) as (cx & g & a & Hcx & Hsr & Hg & Ha & Hmix & Htap & Hsink).
  exists cx, g, a.
  assert (Hopen : closed cx = false).
  { pose proof (wf_ctx s Hwf) as Hctx. unfold wf_context in Hctx.
    rewrite Hc in Hctx. destruct Hctx as ((cx' & Hcx' & Hcl) & _).
    congruence. }
  split; [exact Hcx|]. split; [congruence|]. split; [exact Hopen|].
  split; [exact Hg|]. split; [exact Ha|].
  split; [eapply nodeHas_outputs; [exact Hmix|intros nd [_ H]; exact H]|].
  split; [eapply nodeHas_outputs; [exact Htap|intros nd (_ & _ & H); exact H]|].
  split; [destruct Hmix as (nd & Hnd & Hk & _); exists nd; auto|].
  split; [destruct Htap as (nd & Hnd & Hk & Hf & _); exists nd; auto|].
  exact Hsink.
Qed.

Lemma output_chain_witness :
  exists cx g a,
    contexts noisePlaying !! 0%nat = Some cx /\
    sampleRate cx = exampleRate /\ closed cx = false /\
    gainNode noisePlaying = Some g /\ analyserNode noisePlaying = Some a /\
    outputsOf noisePlaying g = [(a, 0%nat, 0%nat)] /\
    outputsOf noisePlaying a = [(destination cx, 0%nat, 0%nat)] /\
    nodeHas (nodes noisePlaying) g (fun nd => kind nd = Gain) /\
    nodeHas (nodes noisePlaying) a
      (fun nd => kind nd = Analyser /\ fftSize nd = 2048%nat) /\
    nodeHas (nodes noisePlaying) (destination cx)
      (fun nd => kind nd = Destination).
Proof.
  apply (output_chain exampleTape exampleRate noisePlaying 0%nat).
  - apply reachable_noisePlaying.
  - reflexivity.
Defined.

(** X8: while the noise plays, its source is a started, looping buffer
    source that feeds the mix gain node only; its buffer holds one second
    at the device's rate, produced by one run of [createBrownNoise] on
    consecutive draws of [Math.random]; and the mix gain is a tenth of the
    volume. *)
Theorem noise_source t rate s :
  reachable t rate s -> isBrownNoisePlaying s = true ->
  exists n g b r0 data,
    brownNoiseNode s = Some n /\ gainNode s = Some g /\
    isStarted s n = true /\ isStopped s n = false /\
    outputsOf s n = [(g, 0%nat, 0%nat)] /\
    nodeHas (nodes s) n (fun nd => kind nd = BufferSource /\ loop nd = true) /\
    bufferOf s n = Some b /\ buffers s !! b = Some data /\
    data = Noise.createBrownNoise (fun k => t (r0 + k)%nat) 1 rate /\
    length data = rate /\
    mixGain s = Some (volume s * (1 # 10)).
Proof.
  intros Hreach Hplay.
  pose proof (reachable_wf _ _ _ Hreach) as Hwf.
  pose proof (reachable_routed _ _ _ Hreach) as Hrt.
  destruct (reachable_env _ _ _ Hreach) as (Htape & Hrate).
  destruct (rt_noise s Hrt Hplay) as (n & g & b & r0 & Hn & Hg & Hloop & Hbuf).
  pose proof (wf_nse s Hwf) as Hnse. unfold wf_noise in Hnse.
  rewrite Hplay in Hnse. destruct Hnse as (n' & Hn' & Hat).
  assert (n' = n) as -> by congruence.
  rewrite Htape, Hrate in Hbuf.
  exists n, g, b, r0, (Noise.createBrownNoise (fun k => t (r0 + k)%nat) 1 rate).
  split; [exact Hn|]. split; [exact Hg|].
  split; [eapply isStarted_true, Hat|].
  split; [eapply isStopped_false, Hat|].
  split; [eapply nodeHas_outputs; [exact Hloop|intros nd (_ & H & _); exact H]|].
  split; [destruct Hloop as (nd & Hnd & Hk & _ & Hl & _); exists nd; auto|].
  split; [destruct Hloop as (nd & Hnd & _ & _ & _ & Hb);
          unfold bufferOf; rewrite Hnd; exact Hb|].
  split; [exact Hbuf|]. split; [reflexivity|].
  split; [rewrite NoiseFacts.createBrownNoise_length; lia|].
  eapply reachable_noiseGain; eassumption.
Qed.

Lemma noise_source_witness :
  exists n g b r0 data,
    brownNoiseNode noisePlaying = Some n /\ gainNode noisePlaying = Some g /\
    isStarted noisePlaying n = true /\ isStopped noisePlaying n = false /\
    outputsOf noisePlaying n = [(g, 0%nat, 0%nat)] /\
    nodeHas (nodes noisePlaying) n
      (fun nd => kind nd = BufferSource /\ loop nd = true) /\
    bufferOf noisePlaying n = Some b /\ buffers noisePlaying !! b = Some data /\
    data = Noise.createBrownNoise (fun k => exampleTape (r0 + k)%nat) 1
             exampleRate /\
    length data = exampleRate /\
    mixGain noisePlaying = Some (volume noisePlaying * (1 # 10)).
Proof.
  apply (noise_source exampleTape exampleRate noisePlaying).
  - apply reachable_noisePlaying.
  - reflexivity.
Defined.

(** X9: while the tones play, the left oscillator is at the carrier of
    200 Hz and the right one at 200 Hz plus the selected beat frequency;
    both are started, each feeds its own channel gain node, which is at
    gain 0.1; the left channel enters the merger at input 0 and the right
    one at input 1, and the merger feeds the mix gain node. *)
Theorem stereo_routing t rate s :
  reachable t rate s -> isBinauralPlaying s = true ->
  exists l r lg rg m g,
    leftOscillator s = Some l /\ rightOscillator s = Some r /\ l <> r /\
    leftGain s = Some lg /\ rightGain s = Some rg /\ gainNode s = Some g /\
    paramOf s l = Some 200 /\
    paramOf s r = Some (200 + beatFrequency s) /\
    isStarted s l = true /\ isStopped s l = false /\
    isStarted s r = true /\ isStopped s r = false /\
    outputsOf s l = [(lg, 0%nat, 0%nat)] /\
    outputsOf s r = [(rg, 0%nat, 0%nat)] /\
    paramOf s lg = Some (1 # 10) /\ paramOf s rg = Some (1 # 10) /\
    outputsOf s lg = [(m, 0%nat, 0%nat)] /\
    outputsOf s rg = [(m, 0%nat, 1%nat)] /\
    outputsOf s m = [(g, 0%nat, 0%nat)] /\
    nodeHas (nodes s) m (fun nd => kind nd = ChannelMerger).
Proof.
  intros Hreach Hplay.
  pose proof (reachable_wf _ _ _ Hreach) as Hwf.
  pose proof (reachable_routed _ _ _ Hreach) as Hrt.
  pose proof (reachable_tuned _ _ _ Hreach Hplay) as (l & r & Hl & Hr & Hfl & Hfr).
  destruct (rt_tones s Hrt Hplay)
    as (l' & r' & lg & rg & Hl' & Hr' & Hlg & Hrg & Hol & Horr & Hcl & Hcr).
  assert (l' = l) as -> by congruence. assert (r' = r) as -> by congruence.
  destruct (wf_channels_playing s Hwf Hplay)
    as (lg' & rg' & m & g & Hlg' & Hrg' & Hg & Hwl & Hwr & Hwm).
  assert (lg' = lg) as -> by congruence. assert (rg' = rg) as -> by congruence.
  pose proof (wf_tns s Hwf) as Htns. unfold wf_tones in Htns.
  rewrite Hplay in Htns.
  destruct Htns as (l' & r' & Hl'' & Hr'' & Hne & Hal & Har).
  assert (l' = l) as -> by congruence. assert (r' = r) as -> by congruence.
  rewrite (rt_base s Hrt) in Hfl, Hfr.
  exists l, r, lg, rg, m, g.
  repeat (split; [assumption|]).
  split; [eapply nodeHas_param; [exact Hfl|intros nd [_ H]; exact H]|].
  split; [eapply nodeHas_param; [exact Hfr|intros nd [_ H]; exact H]|].
  split; [eapply isStarted_true, Hal|].
  split; [eapply isStopped_false, Hal|].
  split; [eapply isStarted_true, Har|].
  split; [eapply isStopped_false, Har|].
  split; [eapply nodeHas_outputs; [exact Hol|intros nd [_ H]; exact H]|].
  split; [eapply nodeHas_outputs; [exact Horr|intros nd [_ H]; exact H]|].
  split; [eapply nodeHas_param; [exact Hcl|intros nd [_ H]; exact H]|].
  split; [eapply nodeHas_param; [exact Hcr|intros nd [_ H]; exact H]|].
  split; [eapply outputsOf_wired, Hwl|].
  split; [eapply outputsOf_wired, Hwr|].
  split; [eapply outputsOf_wired, Hwm|].
  destruct Hwm as (nd & Hnd & Hk & _). exists nd. auto.
Qed.

Lemma stereo_routing_witness :
  exists l r lg rg m g,
    leftOscillator tonesPlaying = Some l /\
    rightOscillator tonesPlaying = Some r /\ l <> r /\
    leftGain tonesPlaying = Some lg /\ rightGain tonesPlaying = Some rg /\
    gainNode tonesPlaying = Some g /\
    paramOf tonesPlaying l = Some 200 /\
    paramOf tonesPlaying r = Some (200 + beatFrequency tonesPlaying) /\
    isStarted tonesPlaying l = true /\ isStopped tonesPlaying l = false /\
    isStarted tonesPlaying r = true /\ isStopped tonesPlaying r = false /\
    outputsOf tonesPlaying l = [(lg, 0%nat, 0%nat)] /\
    outputsOf tonesPlaying r = [(rg, 0%nat, 0%nat)] /\
    paramOf tonesPlaying lg = Some (1 # 10) /\
    paramOf tonesPlaying rg = Some (1 # 10) /\
    outputsOf tonesPlaying lg = [(m, 0%nat, 0%nat)] /\
    outputsOf tonesPlaying rg = [(m, 0%nat, 1%nat)] /\
    outputsOf tonesPlaying m = [(g, 0%nat, 0%nat)] /\
    nodeHas (nodes tonesPlaying) m (fun nd => kind nd = ChannelMerger).
Proof.
  apply (stereo_routing exampleTape exampleRate tonesPlaying).
  - apply reachable_tonesPlaying.
  - reflexivity.
Defined.

(** *** Presets *)

Lemma toggledNoise_frame s :
  isBinauralPlaying (toggledNoise s) = isBinauralPlaying s /\
  leftOscillator (toggledNoise s) = leftOscillator s /\
  rightOscillator (toggledNoise s) = rightOscillator s /\
  beatFrequency (toggledNoise s) = beatFrequency s /\
  baseFrequency (toggledNoise s) = baseFrequency s /\
  volume (toggledNoise s) = volume s /\
  canvas (toggledNoise s) = canvas s /\
  pending (toggledNoise s) = pending s /\
  animationFrameId (toggledNoise s) = animationFrameId s /\
  nextFrame (toggledNoise s) = nextFrame s.
Proof.
  unfold toggledNoise, withContext. cbv zeta.
  split_matches; repeat split; reflexivity.
Qed.

Lemma toggledTones_frame s :
  isBrownNoisePlaying (toggledTones s) = isBrownNoisePlaying s /\
  brownNoiseNode (toggledTones s) = brownNoiseNode s /\
  beatFrequency (toggledTones s) = beatFrequency s /\
  baseFrequency (toggledTones s) = baseFrequency s /\
  volume (toggledTones s) = volume s /\
  canvas (toggledTones s) = canvas s /\
  pending (toggledTones s) = pending s /\
  animationFrameId (toggledTones s) = animationFrameId s /\
  nextFrame (toggledTones s) = nextFrame s.
Proof.
  unfold toggledTones, withContext. cbv zeta.
  split_matches; repeat split; reflexivity.
Qed.

Lemma retuned_frame s :
  isBrownNoisePlaying (retuned s) = isBrownNoisePlaying s /\
  isBinauralPlaying (retuned s) = isBinauralPlaying s /\
  brownNoiseNode (retuned s) = brownNoiseNode s /\
  leftOscillator (retuned s) = leftOscillator s /\
  rightOscillator (retuned s) = rightOscillator s /\
  beatFrequency (retuned s) = beatFrequency s /\
  baseFrequency (retuned s) = baseFrequency s /\
  volume (retuned s) = volume s /\
  canvas (retuned s) = canvas s /\
  pending (retuned s) = pending s /\
  animationFrameId (retuned s) = animationFrameId s /\
  nextFrame (retuned s) = nextFrame s /\
  analyserNode (retuned s) = analyserNode s /\
  length (nodes (retuned s)) = length (nodes s).
Proof.
  unfold retuned.
  destruct (leftOscillator s) eqn:Hl;
    [|repeat split; first [reflexivity | assumption | symmetry; assumption]].
  destruct (rightOscillator s) eqn:Hr;
    [|repeat split; first [reflexivity | assumption | symmetry; assumption]].
  repeat split; try reflexivity; try assumption.
  unfold gainSet. cbn. rewrite !length_alter. reflexivity.
Qed.

Lemma reframed_frame s :
  beatFrequency (reframed s) = beatFrequency s /\
  baseFrequency (reframed s) = baseFrequency s /\
  canvas (reframed s) = canvas s /\
  analyserNode (reframed s) = analyserNode s /\
  audioContext (reframed s) = audioContext s.
Proof.
  unfold reframed, redrawn. cbv zeta.
  split_matches; repeat split; first [reflexivity | assumption].
Qed.

Lemma toggledNoise_flag s :
  wf s -> isBrownNoisePlaying (toggledNoise s) = negb (isBrownNoisePlaying s).
Proof.
  intros Hwf. destruct (isBrownNoisePlaying s) eqn:Hp.
  - apply toggledNoise_stops; assumption.
  - unfold toggledNoise. rewrite Hp. cbv zeta.
    destruct (withContext_context s Hwf) as (c & cx & g & Hctx & Hcx & Hg & _).
    rewrite Hctx, Hg. reflexivity.
Qed.

Lemma selected_tone_plays s f :
  wf s -> isBinauralPlaying (selected (Some f) s) = true.
Proof.
  intros Hwf. unfold selected. cbv zeta.
  pose proof (wf_set_beatFrequency s f Hwf) as Hwf0.
  set (s0 := set_beatFrequency f s) in *.
  assert (Hwf1 : wf (if isBrownNoisePlaying s0 then toggledNoise s0 else s0))
    by (destruct (isBrownNoisePlaying s0); auto using wf_toggledNoise).
  set (s1 := if isBrownNoisePlaying s0 then toggledNoise s0 else s0) in *.
  destruct (reframed_flags
              (if isBinauralPlaying s1 then retuned s1 else toggledTones s1))
    as (_ & ->).
  destruct (isBinauralPlaying s1) eqn:Hp.
  - rewrite retuned_tone_flag. exact Hp.
  - apply toggledTones_starts; assumption.
Qed.

Lemma selected_beat s f : beatFrequency (selected (Some f) s) = f.
Proof.
  unfold selected. cbv zeta.
  set (s0 := set_beatFrequency f s).
  assert (H0 : beatFrequency s0 = f) by reflexivity.
  set (s1 := if isBrownNoisePlaying s0 then toggledNoise s0 else s0).
  assert (H1 : beatFrequency s1 = f).
  { subst s1. destruct (isBrownNoisePlaying s0); [|exact H0].
    destruct (toggledNoise_frame s0) as (_ & _ & _ & -> & _). exact H0. }
  destruct (reframed_frame
              (if isBinauralPlaying s1 then retuned s1 else toggledTones s1))
    as (-> & _).
  destruct (isBinauralPlaying s1).
  - destruct (retuned_frame s1) as (_ & _ & _ & _ & _ & -> & _). exact H1.
  - destruct (toggledTones_frame s1) as (_ & _ & -> & _). exact H1.
Qed.

(** X10: a click on a tone preset of beat frequency [f] always ends with the
    tones playing and the noise off, whatever was playing before, with the
    left oscillator at 200 Hz and the right one at [200 + f] Hz, and [f]
    stored as the beat frequency; the volume is not touched. *)
Theorem tone_preset_tunes t rate s f :
  reachable t rate s ->
  exists s' l r,
    setBrainwavePreset (Some f) s = Ok tt s' /\
    beatFrequency s' = f /\
    isBinauralPlaying s' = true /\ isBrownNoisePlaying s' = false /\
    leftOscillator s' = Some l /\ rightOscillator s' = Some r /\
    paramOf s' l = Some 200 /\ paramOf s' r = Some (200 + f) /\
    isStarted s' l = true /\ isStarted s' r = true.
Proof.
  intros Hreach.
  pose proof (reachable_wf _ _ _ Hreach) as Hwf.
  destruct (reachable_perform t rate s (SelectPreset (Some f)) Hreach I)
    as (Hrun & Hreach').
  cbn [perform performed] in Hrun, Hreach'.
  set (s' := selected (Some f) s) in *.
  pose proof (selected_tone_plays s f Hwf) as Hplay. fold s' in Hplay.
  pose proof (selected_beat s f) as Hbeat. fold s' in Hbeat.
  pose proof (reachable_wf _ _ _ Hreach') as Hwf'.
  pose proof (reachable_routed _ _ _ Hreach') as Hrt'.
  destruct (reachable_tuned _ _ _ Hreach' Hplay) as (l & r & Hl & Hr & Hfl & Hfr).
  rewrite (rt_base s' Hrt') in Hfl, Hfr. rewrite Hbeat in Hfr.
  pose proof (wf_tns s' Hwf') as Htns. unfold wf_tones in Htns.
  rewrite Hplay in Htns.
  destruct Htns as (l' & r' & Hl' & Hr' & _ & Hal & Har).
  assert (l' = l) as -> by congruence. assert (r' = r) as -> by congruence.
  exists s', l, r.
  split; [exact Hrun|]. split; [exact Hbeat|]. split; [exact Hplay|].
  split; [apply selected_tone_silences_noise, Hwf|].
  split; [exact Hl|]. split; [exact Hr|].
  split; [eapply nodeHas_param; [exact Hfl|intros nd [_ H]; exact H]|].
  split; [eapply nodeHas_param; [exact Hfr|intros nd [_ H]; exact H]|].
  split; [eapply isStarted_true, Hal|eapply isStarted_true, Har].
Qed.

Lemma tone_preset_tunes_witness :
  exists s' l r,
    setBrainwavePreset (Some 8) bothPlaying = Ok tt s' /\
    beatFrequency s' = 8 /\
    isBinauralPlaying s' = true /\ isBrownNoisePlaying s' = false /\
    leftOscillator s' = Some l /\ rightOscillator s' = Some r /\
    paramOf s' l = Some 200 /\ paramOf s' r = Some (200 + 8) /\
    isStarted s' l = true /\ isStarted s' r = true.
Proof.
  apply (tone_preset_tunes exampleTape exampleRate bothPlaying 8).
  apply reachable_bothPlaying.
Defined.

(** X11: a click on a tone preset while the tones already play retunes the
    running oscillators in place: after the noise source, if one plays,
    has been stopped and disconnected, the platform sees one write of 200
    to the left oscillator's frequency and one of [200 + f] to the right
    one's, then at most redraw events.  No node is created, and the
    oscillators are the same ones, still running. *)
Theorem retune_in_place t rate s f l r :
  reachable t rate s -> isBinauralPlaying s = true ->
  leftOscillator s = Some l -> rightOscillator s = Some r ->
  exists s' fl,
    setBrainwavePreset (Some f) s = Ok tt s' /\
    since s s'
    = (if isBrownNoisePlaying s
       then match brownNoiseNode s with
            | Some n => [EvStop n; EvDisconnect n]
            | None => []
            end
       else []) ++
      [EvSetValue l 200; EvSetValue r (200 + f)] ++ fl /\
    Forall (fun e => isFrameEvent e = true) fl /\
    leftOscillator s' = Some l /\ rightOscillator s' = Some r /\
    length (nodes s') = length (nodes s) /\
    isStarted s' l = true /\ isStopped s' l = false /\
    isStarted s' r = true /\ isStopped s' r = false.
Proof.
  intros Hreach Hplay Hl Hr.
  pose proof (reachable_wf _ _ _ Hreach) as Hwf.
  pose proof (reachable_routed _ _ _ Hreach) as Hrt.
  destruct (reachable_perform t rate s (SelectPreset (Some f)) Hreach I)
    as (Hrun & Hreach').
  cbn [perform performed] in Hrun, Hreach'.
  pose proof (reachable_wf _ _ _ Hreach') as Hwf'.
  pose proof (selected_tone_plays s f Hwf) as Hplay'.
  set (pre := if isBrownNoisePlaying s
              then match brownNoiseNode s with
                   | Some n => [EvStop n; EvDisconnect n]
                   | None => []
                   end
              else []).
  set (s0 := set_beatFrequency f s).
  set (s1 := if isBrownNoisePlaying s0 then toggledNoise s0 else s0).
  assert (H1 : trace s1 = trace s ++ pre /\
               length (nodes s1) = length (nodes s) /\
               isBinauralPlaying s1 = true /\
               leftOscillator s1 = Some l /\ rightOscillator s1 = Some r /\
               baseFrequency s1 = 200 /\ beatFrequency s1 = f).
  { subst s1 pre. change (isBrownNoisePlaying s0) with (isBrownNoisePlaying s).
    destruct (isBrownNoisePlaying s) eqn:Hn.
    - unfold toggledNoise.
      change (isBrownNoisePlaying s0) with (isBrownNoisePlaying s).
      change (brownNoiseNode s0) with (brownNoiseNode s). rewrite Hn.
      destruct (brownNoiseNode s) as [n|].
      + unfold noiseOff. cbn. rewrite !length_alter.
        repeat (split; [first [assumption | reflexivity | apply (rt_base s Hrt)]|]).
        reflexivity.
      + cbn. rewrite app_nil_r.
        repeat (split; [first [assumption | reflexivity | apply (rt_base s Hrt)]|]).
        reflexivity.
    - cbn. rewrite app_nil_r.
      repeat (split; [first [assumption | reflexivity | apply (rt_base s Hrt)]|]).
      reflexivity. }
  destruct H1 as (Htr1 & Hlen1 & Hp1 & Hl1 & Hr1 & Hbase1 & Hbeat1).
  assert (Hsel : selected (Some f) s = reframed (retuned s1)).
  { unfold selected. cbv zeta. fold s0. fold s1. rewrite Hp1. reflexivity. }
  rewrite Hsel in *.
  assert (H2 : trace (retuned s1)
               = trace s ++ pre ++ [EvSetValue l 200; EvSetValue r (200 + f)] /\
               leftOscillator (retuned s1) = Some l /\
               rightOscillator (retuned s1) = Some r /\
               length (nodes (retuned s1)) = length (nodes s)).
  { destruct (retuned_frame s1)
      as (_ & _ & _ & Hl2 & Hr2 & _ & _ & _ & _ & _ & _ & _ & _ & Hlen2).
    rewrite Hl2, Hr2, Hlen2.
    split; [|auto]. unfold retuned. rewrite Hl1, Hr1. unfold gainSet. cbn.
    rewrite Htr1, Hbase1, Hbeat1, <- !app_assoc. reflexivity. }
  destruct H2 as (Htr2 & Hl2 & Hr2 & Hlen2).
  destruct (reframed_spec (retuned s1))
    as (fl & Htr3 & Hfl & Hn3 & _ & _ & _ & _ & Hl3 & Hr3 & _).
  exists (reframed (retuned s1)), fl.
  split; [exact Hrun|].
  split; [apply since_app; rewrite Htr3, Htr2, <- !app_assoc; reflexivity|].
  split; [exact Hfl|].
  split; [congruence|]. split; [congruence|].
  split; [rewrite Hn3; exact Hlen2|].
  pose proof (wf_tns _ Hwf') as Htns. unfold wf_tones in Htns.
  rewrite Hplay' in Htns.
  destruct Htns as (l' & r' & Hl' & Hr' & _ & Hal & Har).
  assert (l' = l) as -> by congruence. assert (r' = r) as -> by congruence.
  split; [eapply isStarted_true, Hal|].
  split; [eapply isStopped_false, Hal|].
  split; [eapply isStarted_true, Har|eapply isStopped_false, Har].
Qed.

Lemma retune_in_place_witness :
  exists s' fl,
    setBrainwavePreset (Some 8) tonesPlaying = Ok tt s' /\
    since tonesPlaying s'
    = (if isBrownNoisePlaying tonesPlaying
       then match brownNoiseNode tonesPlaying with
            | Some n => [EvStop n; EvDisconnect n]
            | None => []
            end
       else []) ++
      [EvSetValue 3 200; EvSetValue 4 (200 + 8)] ++ fl /\
    Forall (fun e => isFrameEvent e = true) fl /\
    leftOscillator s' = Some 3%nat /\ rightOscillator s' = Some 4%nat /\
    length (nodes s') = length (nodes tonesPlaying) /\
    isStarted s' 3 = true /\ isStopped s' 3 = false /\
    isStarted s' 4 = true /\ isStopped s' 4 = false.
Proof.
  apply (retune_in_place exampleTape exampleRate tonesPlaying 8 3 4).
  - apply reachable_tonesPlaying.
  - reflexivity.
  - reflexivity.
  - reflexivity.
Defined.

(** *** The level of the mix gain *)

Lemma levelled_same s s' :
  nodes s' = nodes s -> gainNode s' = gainNode s -> volume s' = volume s ->
  levelled s -> levelled s'.
Proof.
  intros Hn Hg Hv H. unfold levelled in *. rewrite Hn, Hg, Hv. exact H.
Qed.

(** An update of a node that is no gain node leaves the level. *)
Lemma levelled_alter s s' m f k st sp :
  k <> Gain -> nodeHas (nodes s) m (isNode k st sp) ->
  nodes s' = alter f m (nodes s) ->
  gainNode s' = gainNode s -> volume s' = volume s ->
  levelled s -> levelled s'.
Proof.
  intros Hk Hm Hn Hg Hv [Hvol H]. unfold levelled in *.
  rewrite Hn, Hg, Hv. split; [exact Hvol|]. intros g Hgn.
  specialize (H g Hgn). apply nodeHas_alter_ne; [|exact H].
  intros ->. destruct Hm as (nd & Hnd & Hkind & _).
  destruct H as (nd' & Hnd' & Hkind' & _). congruence.
Qed.

Lemma levelled_app s s' extra :
  nodes s' = nodes s ++ extra ->
  gainNode s' = gainNode s -> volume s' = volume s ->
  levelled s -> levelled s'.
Proof.
  intros Hn Hg Hv [Hvol H]. unfold levelled in *.
  rewrite Hn, Hg, Hv. split; [exact Hvol|]. intros g Hgn.
  apply nodeHas_app, H, Hgn.
Qed.

(** Writing the volume, or a tenth of it, to the mix gain. *)
Lemma levelled_write s g x :
  gainNode s = Some g -> x = volume s \/ x = volume s * (1 # 10) ->
  levelled s -> levelled (gainSet g x s).
Proof.
  intros Hg Hx [Hvol H]. split; [exact Hvol|].
  unfold gainSet. cbn. intros g' Hg'. rewrite Hg in Hg'. injection Hg' as <-.
  destruct (H g Hg) as (nd & Hnd & Hk & _).
  exists (with_value x nd). rewrite list_lookup_alter_eq, Hnd.
  split; [reflexivity|]. split; [exact Hk|exact Hx].
Qed.

Lemma levelled_withContext s : levelled s -> levelled (withContext s).
Proof.
  intros [Hvol H]. unfold withContext.
  destruct (audioContext s); [split; assumption|].
  split; [exact Hvol|]. unfold contextCreated. cbn.
  intros g [= <-]. eapply nodeHas_new; [reflexivity|].
  split; [reflexivity|left; reflexivity].
Qed.

Lemma levelled_toggledNoise s : wf s -> levelled s -> levelled (toggledNoise s).
Proof.
  intros Hwf Hlv. unfold toggledNoise.
  destruct (isBrownNoisePlaying s) eqn:Hp.
  - destruct (brownNoiseNode s) as [n|] eqn:Hbn; [|exact Hlv].
    pose proof (noise_ref_started s n Hwf Hbn) as Hnn.
    eapply (levelled_alter (set_nodes (alter (with_stopped true) n (nodes s)) s)
              _ n (with_outputs []) BufferSource true true);
      [discriminate| |reflexivity|reflexivity|reflexivity|].
    + destruct Hnn as (nd & Hnd & Hk & Hst & _).
      exists (with_stopped true nd). cbn.
      rewrite list_lookup_alter_eq, Hnd. split; [reflexivity|].
      split; [exact Hk|]. split; [exact Hst|reflexivity].
    + eapply (levelled_alter s _ n (with_stopped true) BufferSource true false);
        [discriminate|exact Hnn|reflexivity|reflexivity|reflexivity|exact Hlv].
  - cbv zeta.
    destruct (withContext_context s Hwf) as (c & cx & g & Hctx & Hcx & Hg & _).
    rewrite Hctx, Hg.
    pose proof (levelled_withContext s Hlv) as Hlv1.
    set (s1 := withContext s) in *.
    eapply (levelled_app (gainSet g (volume s1 * (1 # 10)) s1));
      [reflexivity|reflexivity|reflexivity|].
    apply levelled_write; [exact Hg|right; reflexivity|exact Hlv1].
Qed.

Lemma levelled_toggledTones s : wf s -> levelled s -> levelled (toggledTones s).
Proof.
  intros Hwf Hlv. unfold toggledTones.
  destruct (isBinauralPlaying s) eqn:Hp.
  - pose proof (tone_refs_started s Hwf) as Href.
    destruct (leftOscillator s) as [l|] eqn:Hl; [|exact Hlv].
    destruct (rightOscillator s) as [r|] eqn:Hr; [|exact Hlv].
    destruct Href as (Hne & Hnl & Hnr).
    assert (Hsame : forall k, gainNode s = Some k ->
              nodes (tonesOff l r s) !! k = nodes s !! k).
    { intros k Hk. apply tonesOff_lookup.
      - pose proof (mix_gain_node s k Hwf Hk) as Hgn. apart_tac.
      - pose proof (mix_gain_node s k Hwf Hk) as Hgn. apart_tac. }
    destruct Hlv as [Hvol H]. split; [exact Hvol|].
    change (gainNode (tonesOff l r s)) with (gainNode s).
    change (volume (tonesOff l r s)) with (volume s).
    intros g Hg. destruct (H g Hg) as (nd & Hnd & HP).
    exists nd. rewrite (Hsame g Hg). auto.
  - cbv zeta.
    destruct (withContext_context s Hwf) as (c & cx & g & _ & _ & Hg & _).
    rewrite Hg.
    eapply (levelled_app (withContext s));
      [reflexivity|reflexivity|reflexivity|apply levelled_withContext, Hlv].
Qed.

Lemma levelled_retuned s : wf s -> levelled s -> levelled (retuned s).
Proof.
  intros Hwf Hlv. unfold retuned.
  pose proof (tone_refs_started s Hwf) as Href.
  destruct (leftOscillator s) as [l|] eqn:Hl; [|exact Hlv].
  destruct (rightOscillator s) as [r|] eqn:Hr; [|exact Hlv].
  destruct Href as (Hne & Hnl & Hnr).
  eapply (levelled_alter (gainSet l (baseFrequency s) s) _ r
            (with_value (baseFrequency s + beatFrequency s))
            Oscillator true false);
    [discriminate| |reflexivity|reflexivity|reflexivity|].
  - unfold gainSet. cbn. apply nodeHas_alter_ne; [exact Hne|exact Hnr].
  - eapply (levelled_alter s _ l (with_value (baseFrequency s))
              Oscillator true false);
      [discriminate|exact Hnl|reflexivity|reflexivity|reflexivity|exact Hlv].
Qed.

Lemma levelled_reframed s : levelled s -> levelled (reframed s).
Proof.
  destruct (reframed_spec s)
    as (l & _ & _ & Hn & Hg & _ & _ & _ & _ & _ & _ & _ & Hv & _).
  apply levelled_same; assumption.
Qed.

Lemma levelled_performed s a :
  wf s -> allowed a -> levelled s -> levelled (performed a s).
Proof.
  intros Hwf Ha Hlv. destruct a as [cv w|w|f| | |v|id]; cbn [performed].
  - unfold resized. cbn. exact Hlv.
  - unfold resized. destruct (canvas s); exact Hlv.
  - unfold selected. destruct f as [f|]; cbv zeta; apply levelled_reframed.
    + pose proof (wf_set_beatFrequency s f Hwf) as Hwf0.
      assert (Hlv0 : levelled (set_beatFrequency f s)) by exact Hlv.
      set (s0 := set_beatFrequency f s) in *.
      assert (H1 : wf (if isBrownNoisePlaying s0 then toggledNoise s0 else s0)
                   /\ levelled
                        (if isBrownNoisePlaying s0 then toggledNoise s0 else s0))
        by (destruct (isBrownNoisePlaying s0);
            auto using wf_toggledNoise, levelled_toggledNoise).
      destruct H1 as (Hwf1 & Hlv1).
      destruct (isBinauralPlaying _);
        auto using levelled_retuned, levelled_toggledTones.
    + pose proof (wf_toggledNoise s Hwf) as Hwf1.
      pose proof (levelled_toggledNoise s Hwf Hlv) as Hlv1.
      destruct (isBinauralPlaying _); auto using levelled_toggledTones.
  - apply levelled_toggledNoise; assumption.
  - apply levelled_toggledTones; assumption.
  - cbn [allowed] in Ha. destruct Hlv as [_ H].
    unfold volumeApplied. cbn [gainNode set_volume isBrownNoisePlaying volume].
    destruct (gainNode s) as [g|] eqn:Hg.
    + split; [exact Ha|]. unfold gainSet. cbn. rewrite Hg.
      intros g' [= <-]. destruct (H g eq_refl) as (nd & Hnd & Hk & _).
      eexists. rewrite list_lookup_alter_eq, Hnd. split; [reflexivity|].
      split; [exact Hk|]. cbn.
      destruct (isBrownNoisePlaying s); [right|left]; reflexivity.
    + split; [exact Ha|]. cbn. rewrite Hg. intros g' Hx. discriminate Hx.
  - unfold fired. destruct (existsb _ _); [|exact Hlv].
    destruct (redrawn_audio
                (set_pending
                   (List.filter (fun k => negb (Nat.eqb k id)) (pending s)) s))
      as (Hn & Hg & Hv & _).
    eapply levelled_same; eauto.
Qed.

Lemma levelled_init t rate : levelled (init t rate).
Proof.
  split; [cbn; lra|]. intros g Hg. discriminate Hg.
Qed.

Lemma reachable_levelled t rate s : reachable t rate s -> levelled s.
Proof.
  induction 1 as [|s a s' Hreach IH Hallowed Hstep]; [apply levelled_init|].
  pose proof (reachable_wf _ _ _ Hreach) as Hwf.
  rewrite (perform_closed s a Hwf) in Hstep. injection Hstep as <-.
  apply levelled_performed; assumption.
Qed.

(** X12: in every reachable state the volume is within the slider's range
    [0,1], and the gain of the mix gain node is either the volume or a
    tenth of the volume, hence within [0,1] as well: no handler writes
    anything else to it. *)
Theorem mix_gain_levels t rate s :
  reachable t rate s ->
  0 <= volume s <= 1 /\
  forall x, mixGain s = Some x ->
    (x = volume s \/ x = volume s * (1 # 10)) /\ 0 <= x <= 1.
Proof.
  intros Hreach. destruct (reachable_levelled _ _ _ Hreach) as [Hvol H].
  split; [exact Hvol|]. intros x Hx. unfold mixGain in Hx.
  destruct (gainNode s) as [g|] eqn:Hg; [|discriminate].
  destruct (H g eq_refl) as (nd & Hnd & _ & Hval). rewrite Hnd in Hx.
  injection Hx as <-. split; [exact Hval|].
  destruct Hval as [-> | ->]; lra.
Qed.

Lemma mix_gain_levels_witness :
  0 <= volume bothPlaying <= 1 /\
  forall x, mixGain bothPlaying = Some x ->
    (x = volume bothPlaying \/ x = volume bothPlaying * (1 # 10)) /\
    0 <= x <= 1.
Proof.
  apply (mix_gain_levels exampleTape exampleRate bothPlaying).
  apply reachable_bothPlaying.
Defined.

(** X13: while the noise plays, every sample of the playing buffer, scaled
    by the mix gain, stays within 0.35 times the volume of zero, given that
    [Math.random] yields values in [0,1): the loudness factor 3.5 of
    [createBrownNoise] and the factor 0.1 of [toggleBrownNoise] compose to
    at most 0.35 of full scale. *)
Theorem noise_output_level t rate s :
  (forall k, 0 <= t k < 1) ->
  reachable t rate s -> isBrownNoisePlaying s = true ->
  exists n b data g,
    brownNoiseNode s = Some n /\ bufferOf s n = Some b /\
    buffers s !! b = Some data /\ mixGain s = Some g /\
    forall i x, data !! i = Some x ->
      -((35 # 100) * volume s) <= x * g <= (35 # 100) * volume s /\
      -(35 # 100) <= x * g <= 35 # 100.
Proof.
  intros Ht Hreach Hplay.
  pose proof (reachable_routed _ _ _ Hreach) as Hrt.
  destruct (reachable_env _ _ _ Hreach) as (Htape & Hrate).
  destruct (reachable_levelled _ _ _ Hreach) as [Hvol _].
  destruct (rt_noise s Hrt Hplay) as (n & g & b & r0 & Hn & Hg & Hloop & Hbuf).
  rewrite Htape in Hbuf.
  exists n, b,
    (Noise.createBrownNoise (fun k => t (r0 + k)%nat) 1 (deviceSampleRate s)),
    (volume s * (1 # 10)).
  split; [exact Hn|].
  split; [destruct Hloop as (nd & Hnd & _ & _ & _ & Hb);
          unfold bufferOf; rewrite Hnd; exact Hb|].
  split; [exact Hbuf|].
  split; [eapply reachable_noiseGain; eassumption|].
  intros i x Hx.
  assert (Hi : (i < 1 * deviceSampleRate s)%nat).
  { apply lookup_lt_Some in Hx.
    now rewrite NoiseFacts.createBrownNoise_length in Hx. }
  rewrite NoiseFacts.createBrownNoise_lookup in Hx by exact Hi.
  assert (Hxe : x = Noise.integrator (fun k => t (r0 + k)%nat) (S i) * (35 # 10))
    by congruence.
  assert (Hb : -1 <= Noise.integrator (fun k => t (r0 + k)%nat) (S i) <= 1).
  { apply NoiseFacts.integrator_bound, NoiseFacts.white_of_random.
    intros k. apply Ht. }
  rewrite Hxe.
  set (y := Noise.integrator (fun k => t (r0 + k)%nat) (S i)) in *.
  set (v := volume s) in *. clearbody y v. nra.
Qed.

Lemma noise_output_level_witness :
  exists n b data g,
    brownNoiseNode noisePlaying = Some n /\ bufferOf noisePlaying n = Some b /\
    buffers noisePlaying !! b = Some data /\ mixGain noisePlaying = Some g /\
    forall i x, data !! i = Some x ->
      -((35 # 100) * volume noisePlaying) <= x * g
      <= (35 # 100) * volume noisePlaying /\
      -(35 # 100) <= x * g <= 35 # 100.
Proof.
  apply (noise_output_level exampleTape exampleRate noisePlaying).
  - intros k. unfold exampleTape. lra.
  - apply reachable_noisePlaying.
  - reflexivity.
Defined.

(** *** The noise preset and the redraw handle *)

Lemma wf_handle_truthy s id :
  wf s -> animationFrameId s = Some id -> truthy (animationFrameId s) = true.
Proof.
  intros Hwf Hid. destruct (wf_frm s Hwf) as (_ & Hpos & _).
  specialize (Hpos id Hid). rewrite Hid. unfold truthy.
  destruct id; [lia|reflexivity].
Qed.

Lemma wf_no_handle s :
  wf s -> animationFrameId s = None -> pending s = [].
Proof.
  intros Hwf Hid. destruct (wf_frm s Hwf) as ([Hp | (id & _ & Hx)] & _);
    [exact Hp|congruence].
Qed.

Lemma reframed_idle s :
  wf s -> isBrownNoisePlaying s = false -> isBinauralPlaying s = false ->
  animationFrameId (reframed s) = None.
Proof.
  intros Hwf Hn Ht. unfold reframed. cbv zeta. rewrite Hn, Ht. cbn.
  destruct (animationFrameId s) as [id|] eqn:Hid; [|cbn; exact Hid].
  pose proof (wf_handle_truthy s id Hwf Hid) as Htr. rewrite Hid in Htr.
  rewrite Htr. reflexivity.
Qed.

Lemma noise_preset_flags s :
  wf s ->
  isBrownNoisePlaying (selected None s) = negb (isBrownNoisePlaying s) /\
  isBinauralPlaying (selected None s) = false.
Proof.
  intros Hwf. unfold selected. cbv zeta.
  pose proof (wf_toggledNoise s Hwf) as Hwf1.
  pose proof (toggledNoise_flag s Hwf) as Hflag.
  set (s1 := toggledNoise s) in *.
  destruct (reframed_flags (if isBinauralPlaying s1 then toggledTones s1 else s1))
    as (-> & ->).
  destruct (isBinauralPlaying s1) eqn:Hp.
  - rewrite toggledTones_noise_flag.
    split; [exact Hflag|apply toggledTones_stops; assumption].
  - split; assumption.
Qed.

(** X14: a click on the noise preset toggles the noise and always leaves the
    tones off; it changes neither the beat frequency nor the volume.  When
    it stops the noise, nothing plays any more, the scheduled redraw is
    cancelled and no callback stays pending. *)
Theorem noise_preset_toggles t rate s :
  reachable t rate s ->
  exists s',
    setBrainwavePreset None s = Ok tt s' /\
    isBrownNoisePlaying s' = negb (isBrownNoisePlaying s) /\
    isBinauralPlaying s' = false /\
    beatFrequency s' = beatFrequency s /\ volume s' = volume s /\
    (isBrownNoisePlaying s = true ->
     animationFrameId s' = None /\ pending s' = []).
Proof.
  intros Hreach.
  pose proof (reachable_wf _ _ _ Hreach) as Hwf.
  destruct (reachable_perform t rate s (SelectPreset None) Hreach I)
    as (Hrun & Hreach').
  cbn [perform performed] in Hrun, Hreach'.
  pose proof (reachable_wf _ _ _ Hreach') as Hwf'.
  exists (selected None s). split; [exact Hrun|].
  revert Hwf'. unfold selected. cbv zeta.
  pose proof (wf_toggledNoise s Hwf) as Hwf1.
  pose proof (toggledNoise_flag s Hwf) as Hflag.
  destruct (toggledNoise_frame s)
    as (_ & _ & _ & Hbeat1 & _ & Hvol1 & _).
  set (s1 := toggledNoise s) in *.
  set (s2 := if isBinauralPlaying s1 then toggledTones s1 else s1).
  assert (H2 : wf s2 /\ isBrownNoisePlaying s2 = negb (isBrownNoisePlaying s) /\
               isBinauralPlaying s2 = false /\
               beatFrequency s2 = beatFrequency s /\ volume s2 = volume s).
  { subst s2. destruct (isBinauralPlaying s1) eqn:Hp.
    - destruct (toggledTones_frame s1) as (Hn & _ & Hb & _ & Hv & _).
      split; [apply wf_toggledTones, Hwf1|].
      split; [congruence|].
      split; [apply toggledTones_stops; assumption|].
      split; congruence.
    - repeat (split; [assumption|]). assumption. }
  clearbody s2. destruct H2 as (Hwf2 & Hn2 & Ht2 & Hb2 & Hv2).
  intros Hwf'.
  destruct (reframed_flags s2) as (Hn3 & Ht3).
  destruct (reframed_frame s2) as (Hb3 & _).
  destruct (reframed_spec s2)
    as (l & _ & _ & _ & _ & _ & _ & _ & _ & _ & _ & _ & Hv3 & _).
  split; [congruence|]. split; [congruence|].
  split; [congruence|]. split; [congruence|].
  intros Hon. rewrite Hon in Hn2. cbn in Hn2.
  pose proof (reframed_idle s2 Hwf2 Hn2 Ht2) as Hid.
  split; [exact Hid|]. apply wf_no_handle; assumption.
Qed.

Lemma noise_preset_toggles_witness :
  exists s',
    setBrainwavePreset None bothPlaying = Ok tt s' /\
    isBrownNoisePlaying s' = negb (isBrownNoisePlaying bothPlaying) /\
    isBinauralPlaying s' = false /\
    beatFrequency s' = beatFrequency bothPlaying /\
    volume s' = volume bothPlaying /\
    (isBrownNoisePlaying bothPlaying = true ->
     animationFrameId s' = None /\ pending s' = []).
Proof.
  apply (noise_preset_toggles exampleTape exampleRate bothPlaying).
  apply reachable_bothPlaying.
Defined.

(** X15: at most one redraw callback is pending at any time, and it is the
    one whose handle is stored; a callback that is no longer pending (a
    cancelled or stale one) does nothing when it fires. *)
Theorem single_pending_frame t rate s :
  reachable t rate s ->
  (length (pending s) <= 1)%nat /\
  (forall id, id ∈ pending s ->
     animationFrameId s = Some id /\ (0 < id)%nat) /\
  (forall id, id ∉ pending s -> onFrame id s = Ok tt s).
Proof.
  intros Hreach. pose proof (reachable_wf _ _ _ Hreach) as Hwf.
  destruct (wf_frm s Hwf) as (Hp & Hpos & _).
  split; [|split].
  - destruct Hp as [-> | (id & -> & _)]; cbn; lia.
  - intros id Hin. destruct Hp as [Hp | (id' & Hp & Hid)].
    + rewrite Hp in Hin. apply elem_of_nil in Hin. contradiction.
    + rewrite Hp in Hin. apply list_elem_of_singleton in Hin. subst id'.
      split; [exact Hid|]. apply (Hpos id Hid).
  - intros id Hnot. rewrite onFrame_closed. unfold fired.
    destruct (existsb (Nat.eqb id) (pending s)) eqn:Hex; [|reflexivity].
    exfalso. apply Hnot. apply existsb_exists in Hex as (k & Hk & Heq).
    apply Nat.eqb_eq in Heq. subst k. apply list_elem_of_In. exact Hk.
Qed.

Lemma single_pending_frame_witness :
  (length (pending noisePlaying) <= 1)%nat /\
  (forall id, id ∈ pending noisePlaying ->
     animationFrameId noisePlaying = Some id /\ (0 < id)%nat) /\
  (forall id, id ∉ pending noisePlaying ->
     onFrame id noisePlaying = Ok tt noisePlaying).
Proof.
  apply (single_pending_frame exampleTape exampleRate noisePlaying).
  apply reachable_noisePlaying.
Defined.

(** *** The redraw loop on a canvas with a 2d context *)

Lemma reachable2d_reachable t rate s : reachable2d t rate s -> reachable t rate s.
Proof.
  induction 1 as [|s a s' _ IH [Ha _] Hstep]; [constructor|].
  eapply reachable_step; eassumption.
Qed.

Lemma reachable2d_perform t rate s a :
  reachable2d t rate s -> allowed2d a -> reachable2d t rate (performed a s).
Proof.
  intros Hreach Ha. eapply reachable2d_step; [exact Hreach|exact Ha|].
  apply perform_closed, reachable_wf with t rate, reachable2d_reachable, Hreach.
Qed.

Lemma looping_same s s' :
  canvas s' = canvas s -> animationFrameId s' = animationFrameId s ->
  pending s' = pending s ->
  (analyserNode s <> None -> analyserNode s' <> None) ->
  looping s -> looping s'.
Proof.
  intros Hc Hid Hp Ha [H1 H2]. unfold looping. rewrite Hc, Hid, Hp.
  split; [exact H1|]. intros id Hh. destruct (H2 id Hh) as (? & ? & ?).
  auto.
Qed.

Lemma toggledNoise_analyser s :
  analyserNode s <> None -> analyserNode (toggledNoise s) <> None.
Proof.
  unfold toggledNoise, withContext, contextCreated. cbv zeta.
  split_matches; cbn; congruence.
Qed.

Lemma toggledTones_analyser s :
  analyserNode s <> None -> analyserNode (toggledTones s) <> None.
Proof.
  unfold toggledTones, withContext, contextCreated. cbv zeta.
  split_matches; cbn; congruence.
Qed.

Lemma looping_toggledNoise s : looping s -> looping (toggledNoise s).
Proof.
  destruct (toggledNoise_frame s)
    as (_ & _ & _ & _ & _ & _ & Hc & Hp & Hid & _).
  apply looping_same; auto using toggledNoise_analyser.
Qed.

Lemma looping_toggledTones s : looping s -> looping (toggledTones s).
Proof.
  destruct (toggledTones_frame s)
    as (_ & _ & _ & _ & _ & Hc & Hp & Hid & _).
  apply looping_same; auto using toggledTones_analyser.
Qed.

Lemma looping_retuned s : looping s -> looping (retuned s).
Proof.
  destruct (retuned_frame s)
    as (_ & _ & _ & _ & _ & _ & _ & _ & Hc & Hp & Hid & _ & Ha & _).
  apply looping_same; auto. rewrite Ha. auto.
Qed.

(** [drawWaveform] with no callback pending, when a stored handle implies
    that there is something to draw on. *)
Lemma looping_redrawn s :
  (forall cv, canvas s = Some cv -> context2d cv = true) ->
  pending s = [] ->
  (forall id, animationFrameId s = Some id ->
     canvas s <> None /\ analyserNode s <> None) ->
  looping (redrawn s) /\
  (canvas s <> None -> analyserNode s <> None ->
   exists a, analyserNode s = Some a /\ redrawn s = drawn a s).
Proof.
  intros H2d Hp Hh. unfold redrawn.
  destruct (analyserNode s) as [a|] eqn:Ha.
  - destruct (canvas s) as [cv|] eqn:Hc.
    + rewrite (H2d cv eq_refl). split.
      * split; cbn; [rewrite Hc; exact H2d|].
        intros id [= <-]. rewrite Hp, Hc, Ha. repeat split; discriminate.
      * intros _ _. exists a. split; reflexivity.
    + split; [|intros Hx; contradiction].
      split; [rewrite Hc; intros cv Hx; discriminate Hx|].
      intros id Hid. destruct (Hh id Hid) as (Hx & _). contradiction.
  - split; [|intros _ Hx; contradiction].
    split; [exact H2d|].
    intros id Hid. destruct (Hh id Hid) as (_ & Hx). contradiction.
Qed.

Lemma looping_reframed s : wf s -> looping s -> looping (reframed s).
Proof.
  intros Hwf [H1 H2]. unfold reframed. cbv zeta.
  destruct (animationFrameId s) as [id|] eqn:Hid.
  - pose proof (wf_handle_truthy s id Hwf Hid) as Htr. rewrite Hid in Htr.
    rewrite Htr, andb_false_r, andb_true_r.
    destruct (negb (isBrownNoisePlaying s || isBinauralPlaying s)).
    + split; [exact H1|]. intros id' Hx. discriminate Hx.
    + split; [rewrite ?Hid; exact H1|]. rewrite Hid. exact H2.
  - cbn [truthy negb]. rewrite andb_true_r, andb_false_r.
    destruct (isBrownNoisePlaying s || isBinauralPlaying s).
    + apply looping_redrawn; [exact H1|apply wf_no_handle; assumption|].
      intros id Hx. congruence.
    + split; [exact H1|]. rewrite Hid. exact H2.
Qed.

(** The state [setBrainwavePreset] hands to its last block. *)
Lemma selected_stage s f :
  wf s -> looping s ->
  exists x, selected f s = reframed x /\ wf x /\ looping x /\
            canvas x = canvas s.
Proof.
  intros Hwf Hlp. unfold selected. destruct f as [f|]; cbv zeta.
  - pose proof (wf_set_beatFrequency s f Hwf) as Hwf0.
    assert (Hlp0 : looping (set_beatFrequency f s)) by exact Hlp.
    assert (Hc0 : canvas (set_beatFrequency f s) = canvas s) by reflexivity.
    set (s0 := set_beatFrequency f s) in *.
    set (s1 := if isBrownNoisePlaying s0 then toggledNoise s0 else s0).
    assert (H1 : wf s1 /\ looping s1 /\ canvas s1 = canvas s).
    { subst s1. destruct (isBrownNoisePlaying s0); [|auto].
      destruct (toggledNoise_frame s0) as (_ & _ & _ & _ & _ & _ & Hc & _).
      split; [apply wf_toggledNoise, Hwf0|].
      split; [apply looping_toggledNoise, Hlp0|congruence]. }
    clearbody s1. destruct H1 as (Hwf1 & Hlp1 & Hc1).
    eexists. split; [reflexivity|].
    destruct (isBinauralPlaying s1).
    + destruct (retuned_frame s1)
        as (_ & _ & _ & _ & _ & _ & _ & _ & Hc & _).
      split; [apply wf_retuned, Hwf1|].
      split; [apply looping_retuned, Hlp1|congruence].
    + destruct (toggledTones_frame s1) as (_ & _ & _ & _ & _ & Hc & _).
      split; [apply wf_toggledTones, Hwf1|].
      split; [apply looping_toggledTones, Hlp1|congruence].
  - pose proof (wf_toggledNoise s Hwf) as Hwf1.
    pose proof (looping_toggledNoise s Hlp) as Hlp1.
    destruct (toggledNoise_frame s) as (_ & _ & _ & _ & _ & _ & Hc1 & _).
    set (s1 := toggledNoise s) in *.
    eexists. split; [reflexivity|].
    destruct (isBinauralPlaying s1); [|auto].
    destruct (toggledTones_frame s1) as (_ & _ & _ & _ & _ & Hc & _).
    split; [apply wf_toggledTones, Hwf1|].
    split; [apply looping_toggledTones, Hlp1|congruence].
Qed.

Lemma wf_pending_handle s id :
  wf s -> existsb (Nat.eqb id) (pending s) = true ->
  pending s = [id] /\ animationFrameId s = Some id.
Proof.
  intros Hwf Hex. apply existsb_exists in Hex as (k & Hk & Heq).
  apply Nat.eqb_eq in Heq. subst k.
  destruct (wf_frm s Hwf) as ([Hp | (id' & Hp & Hid)] & _).
  - rewrite Hp in Hk. destruct Hk.
  - rewrite Hp in Hk. destruct Hk as [-> | []]. auto.
Qed.

Lemma looping_fired s id : wf s -> looping s -> looping (fired id s).
Proof.
  intros Hwf [H1 H2]. unfold fired.
  destruct (existsb (Nat.eqb id) (pending s)) eqn:Hex; [|split; assumption].
  destruct (wf_pending_handle s id Hwf Hex) as (Hp & Hid).
  apply looping_redrawn; cbn.
  - exact H1.
  - rewrite Hp. cbn. rewrite Nat.eqb_refl. reflexivity.
  - intros id' Hx. destruct (H2 id' Hx) as (_ & ? & ?). auto.
Qed.

Lemma looping_performed s a :
  wf s -> allowed2d a -> looping s -> looping (performed a s).
Proof.
  intros Hwf [_ Ha] Hlp. destruct a as [cv w|w|f| | |v|id]; cbn [performed].
  - destruct Hlp as [H1 H2]. unfold resized. cbn.
    split; cbn; [intros cv' [= <-]; exact Ha|].
    intros id Hid. destruct (H2 id Hid) as (? & _ & ?).
    repeat split; [assumption|discriminate|assumption].
  - unfold resized.
    destruct (canvas s) as [cv|] eqn:Hc; [|exact Hlp].
    destruct Hlp as [H1 H2].
    split; cbn; [intros cv' [= <-]; cbn; apply H1; exact Hc|].
    intros id Hid. destruct (H2 id Hid) as (? & _ & ?).
    repeat split; [assumption|discriminate|assumption].
  - destruct (selected_stage s f Hwf Hlp) as (x & -> & Hwfx & Hlpx & _).
    apply looping_reframed; assumption.
  - apply looping_toggledNoise, Hlp.
  - apply looping_toggledTones, Hlp.
  - unfold volumeApplied. cbn [gainNode set_volume].
    destruct (gainNode s); exact Hlp.
  - apply looping_fired; assumption.
Qed.

Lemma reachable2d_looping t rate s : reachable2d t rate s -> looping s.
Proof.
  induction 1 as [|s a s' Hreach IH Hallowed Hstep].
  - split; [intros cv Hx|intros id Hx]; discriminate Hx.
  - pose proof (reachable_wf _ _ _ (reachable2d_reachable _ _ _ Hreach)) as Hwf.
    rewrite (perform_closed s a Hwf) in Hstep. injection Hstep as <-.
    apply looping_performed; assumption.
Qed.

Lemma reachable2d_mounted : reachable2d exampleTape exampleRate mounted.
Proof.
  apply reachable2d_perform; [constructor|]. split; [exact I|reflexivity].
Qed.

Lemma reachable2d_noisePlaying :
  reachable2d exampleTape exampleRate noisePlaying.
Proof.
  apply reachable2d_perform; [apply reachable2d_mounted|]. split; exact I.
Qed.

(** X16: on a canvas with a 2d context the redraw loop keeps itself going:
    a pending callback that fires draws one frame from the analyser and
    requests exactly one new callback, whose handle is stored, whether or
    not anything still plays; it touches no audio node. *)
Theorem frame_reschedules t rate s id :
  reachable2d t rate s -> id ∈ pending s ->
  exists s' a,
    onFrame id s = Ok tt s' /\ analyserNode s = Some a /\
    since s s' = [EvDraw a; EvRequestFrame (nextFrame s)] /\
    pending s' = [nextFrame s] /\
    animationFrameId s' = Some (nextFrame s) /\ nextFrame s <> id /\
    nodes s' = nodes s /\
    isBrownNoisePlaying s' = isBrownNoisePlaying s /\
    isBinauralPlaying s' = isBinauralPlaying s.
Proof.
  intros Hreach Hin.
  pose proof (reachable_wf _ _ _ (reachable2d_reachable _ _ _ Hreach)) as Hwf.
  destruct (reachable2d_looping _ _ _ Hreach) as [H1 H2].
  assert (Hex : existsb (Nat.eqb id) (pending s) = true).
  { apply existsb_exists. exists id. split; [|apply Nat.eqb_refl].
    apply list_elem_of_In. exact Hin. }
  destruct (wf_pending_handle s id Hwf Hex) as (Hp & Hid).
  destruct (H2 id Hid) as (_ & Hcv & Han).
  destruct (wf_frm s Hwf) as (_ & Hpos & _). specialize (Hpos id Hid).
  set (s0 := set_pending
               (List.filter (fun k => negb (Nat.eqb k id)) (pending s)) s).
  assert (Hp0 : pending s0 = []).
  { subst s0. cbn. rewrite Hp. cbn. rewrite Nat.eqb_refl. reflexivity. }
  destruct (looping_redrawn s0 H1 Hp0) as (_ & Hdraw).
  { intros id' _. split; assumption. }
  destruct (Hdraw Hcv Han) as (a & Ha & Hred).
  exists (fired id s), a.
  split; [apply onFrame_closed|]. split; [exact Ha|].
  unfold fired. rewrite Hex. fold s0. rewrite Hred.
  split; [apply since_app; reflexivity|].
  split; [change (pending (drawn a s0)) with (pending s0 ++ [nextFrame s0]);
          rewrite Hp0; reflexivity|].
  split; [reflexivity|]. split; [lia|]. repeat split.
Qed.

Lemma pending_noisePlaying : pending noisePlaying = [1%nat].
Proof. reflexivity. Qed.

Lemma frame_reschedules_witness :
  exists s' a,
    onFrame 1 noisePlaying = Ok tt s' /\ analyserNode noisePlaying = Some a /\
    since noisePlaying s' = [EvDraw a; EvRequestFrame (nextFrame noisePlaying)] /\
    pending s' = [nextFrame noisePlaying] /\
    animationFrameId s' = Some (nextFrame noisePlaying) /\
    nextFrame noisePlaying <> 1%nat /\
    nodes s' = nodes noisePlaying /\
    isBrownNoisePlaying s' = isBrownNoisePlaying noisePlaying /\
    isBinauralPlaying s' = isBinauralPlaying noisePlaying.
Proof.
  apply (frame_reschedules exampleTape exampleRate noisePlaying 1).
  - apply reachable2d_noisePlaying.
  - rewrite pending_noisePlaying. apply list_elem_of_here.
Defined.

(** X17: on a mounted canvas with a 2d context, a click on any preset leaves
    the redraw loop in step with playback: if something plays afterwards,
    exactly one callback is pending and its handle is stored; if nothing
    plays, no handle is stored and no callback is pending. *)
Theorem redraw_follows_presets t rate s f :
  reachable2d t rate s -> canvas s <> None ->
  exists s',
    setBrainwavePreset f s = Ok tt s' /\
    (isBrownNoisePlaying s' || isBinauralPlaying s' = true ->
     exists id, animationFrameId s' = Some id /\ pending s' = [id]) /\
    (isBrownNoisePlaying s' || isBinauralPlaying s' = false ->
     animationFrameId s' = None /\ pending s' = []).
Proof.
  intros Hreach Hcv.
  pose proof (reachable_wf _ _ _ (reachable2d_reachable _ _ _ Hreach)) as Hwf.
  pose proof (reachable2d_looping _ _ _ Hreach) as Hlp.
  pose proof (reachable2d_perform t rate s (SelectPreset f) Hreach
                (conj I I)) as Hreach'.
  cbn [performed] in Hreach'.
  pose proof (reachable_wf _ _ _ (reachable2d_reachable _ _ _ Hreach')) as Hwf'.
  destruct (reachable2d_looping _ _ _ Hreach') as [_ H2'].
  exists (selected f s). split; [apply setBrainwavePreset_closed, Hwf|].
  revert Hwf' H2'.
  destruct (selected_stage s f Hwf Hlp) as (x & -> & Hwfx & [H1 H2] & Hcx).
  intros Hwf' H2'.
  destruct (reframed_flags x) as (-> & ->).
  split.
  - intros Hplay.
    assert (Hsome : exists id, animationFrameId (reframed x) = Some id).
    { unfold reframed. cbv zeta. rewrite Hplay.
      destruct (animationFrameId x) as [id|] eqn:Hid.
      - pose proof (wf_handle_truthy x id Hwfx Hid) as Htr.
        rewrite Hid in Htr. rewrite Htr. cbn. eauto.
      - cbn.
        destruct (wf_playing_context x Hwfx) as (c & g & Hc & _).
        { apply orb_true_iff in Hplay. exact Hplay. }
        pose proof (wf_ctx x Hwfx) as Hctx. unfold wf_context in Hctx.
        rewrite Hc in Hctx. destruct Hctx as (_ & _ & (a & Ha & _)).
        destruct (looping_redrawn x H1 (wf_no_handle x Hwfx Hid))
          as (_ & Hdraw).
        { intros id Hx. congruence. }
        destruct Hdraw as (a' & _ & ->); [congruence|congruence|].
        cbn. eauto. }
    destruct Hsome as (id & Hid). exists id. split; [exact Hid|].
    apply (H2' id Hid).
  - intros Hidle. apply orb_false_iff in Hidle as (Hn & Ht).
    pose proof (reframed_idle x Hwfx Hn Ht) as Hid.
    split; [exact Hid|]. apply wf_no_handle; assumption.
Qed.

Lemma redraw_follows_presets_witness :
  exists s',
    setBrainwavePreset (Some 4) mounted = Ok tt s' /\
    (isBrownNoisePlaying s' || isBinauralPlaying s' = true ->
     exists id, animationFrameId s' = Some id /\ pending s' = [id]) /\
    (isBrownNoisePlaying s' || isBinauralPlaying s' = false ->
     animationFrameId s' = None /\ pending s' = []).
Proof.
  apply (redraw_follows_presets exampleTape exampleRate mounted (Some 4)).
  - apply reachable2d_mounted.
  - discriminate.
Defined.

(** *** The highlighted button *)

(** X18: after a click on a button of the preset table exactly that button
    is highlighted when a tone preset was clicked, whatever played before;
    a click on the noise button highlights it if the noise was off, and
    leaves no button highlighted if the noise was on. *)
Theorem active_button_after_click t rate s name frequency description :
  reachable t rate s ->
  (name, frequency, description) ∈ brainwavePresets ->
  exists s',
    setBrainwavePreset frequency s = Ok tt s' /\
    activeButtons s'
    = match frequency with
      | Some _ => [name]
      | None => if isBrownNoisePlaying s then [] else [name]
      end.
Proof.
  intros Hreach Hin.
  pose proof (reachable_wf _ _ _ Hreach) as Hwf.
  exists (selected frequency s).
  split; [apply setBrainwavePreset_closed, Hwf|].
  destruct frequency as [f|].
  - pose proof (selected_tone_plays s f Hwf) as Hplay.
    pose proof (selected_tone_silences_noise s f Hwf) as Hnoise.
    pose proof (selected_beat s f) as Hbeat.
    unfold activeButtons, isActive. rewrite Hplay, Hnoise, Hbeat.
    unfold brainwavePresets in Hin.
    repeat (apply elem_of_cons in Hin as [Hin|Hin];
            [inversion Hin; subst; reflexivity|]).
    apply elem_of_nil in Hin. contradiction.
  - destruct (noise_preset_flags s Hwf) as (Hnoise & Hplay).
    unfold activeButtons, isActive. rewrite Hplay, Hnoise.
    unfold brainwavePresets. cbn -[Qeq_bool]. rewrite !andb_false_r.
    unfold brainwavePresets in Hin.
    repeat (apply elem_of_cons in Hin as [Hin|Hin];
            [inversion Hin; subst;
             destruct (isBrownNoisePlaying s); reflexivity|]).
    apply elem_of_nil in Hin. contradiction.
Qed.

Lemma active_button_after_click_witness :
  exists s',
    setBrainwavePreset (Some 4) noisePlaying = Ok tt s' /\
    activeButtons s' = ["Theta"%string].
Proof.
  apply (active_button_after_click exampleTape exampleRate noisePlaying
           "Theta" (Some 4) "Meditation, creativity").
  - apply reachable_noisePlaying.
  - apply list_elem_of_further, list_elem_of_further, list_elem_of_here.
Defined.

(** *** The canvas and what a frame draws on it *)

Lemma performed_canvas s a :
  canvas (performed a s)
  = match a with
    | Mount cv w => Some (mkCanvas w 100 (context2d cv))
    | Resize w =>
        match canvas s with
        | Some cv => Some (mkCanvas w 100 (context2d cv))
        | None => None
        end
    | _ => canvas s
    end.
Proof.
  destruct a as [cv w|w|f| | |v|id]; cbn [performed].
  - reflexivity.
  - unfold resized. destruct (canvas s) eqn:Hc; [reflexivity|exact Hc].
  - unfold selected. destruct f as [f|]; cbv zeta.
    + rewrite (proj1 (proj2 (proj2 (reframed_frame _)))).
      set (s0 := set_beatFrequency f s).
      set (s1 := if isBrownNoisePlaying s0 then toggledNoise s0 else s0).
      assert (H1 : canvas s1 = canvas s).
      { subst s1. destruct (isBrownNoisePlaying s0); [|reflexivity].
        destruct (toggledNoise_frame s0) as (_ & _ & _ & _ & _ & _ & -> & _).
        reflexivity. }
      destruct (isBinauralPlaying s1).
      * destruct (retuned_frame s1)
          as (_ & _ & _ & _ & _ & _ & _ & _ & -> & _). exact H1.
      * destruct (toggledTones_frame s1) as (_ & _ & _ & _ & _ & -> & _).
        exact H1.
    + rewrite (proj1 (proj2 (proj2 (reframed_frame _)))).
      destruct (toggledNoise_frame s) as (_ & _ & _ & _ & _ & _ & H1 & _).
      destruct (isBinauralPlaying (toggledNoise s)); [|exact H1].
      destruct (toggledTones_frame (toggledNoise s))
        as (_ & _ & _ & _ & _ & -> & _). exact H1.
  - apply toggledNoise_frame.
  - apply toggledTones_frame.
  - unfold volumeApplied. cbn [gainNode set_volume].
    destruct (gainNode s); reflexivity.
  - unfold fired, redrawn. split_matches; reflexivity.
Qed.

Lemma sized_performed s a : sized s -> sized (performed a s).
Proof.
  intros Hs cv. rewrite performed_canvas.
  destruct a as [cv0 w|w|f| | |v|id]; try apply Hs.
  - intros [= <-]. reflexivity.
  - destruct (canvas s); intros [= <-]. reflexivity.
Qed.

Lemma reachable_sized t rate s : reachable t rate s -> sized s.
Proof.
  induction 1 as [|s a s' Hreach IH Hallowed Hstep].
  - intros cv Hx. discriminate Hx.
  - pose proof (reachable_wf _ _ _ Hreach) as Hwf.
    rewrite (perform_closed s a Hwf) in Hstep. injection Hstep as <-.
    apply sized_performed, IH.
Qed.

(** X19: whenever [drawWaveform] draws in a reachable state, the canvas is
    100 pixels high and the analyser delivers 1024 bytes (half of its FFT
    size 2048); for bytes in 0..255 every point of the stroked path lies on
    the canvas, the path ends at the right edge at half height (50), and
    for 1024 bytes the frame consists of 1032 calls on the 2d context;
    the call then requests the next animation frame. *)
Theorem frame_on_canvas t rate s dataArray cmds :
  reachable t rate s ->
  frameOf s dataArray = Some cmds ->
  Forall (fun d => (d <= 255)%N) dataArray ->
  exists a nd cv,
    analyserNode s = Some a /\ nodes s !! a = Some nd /\
    frequencyBinCount nd = 1024%nat /\
    canvas s = Some cv /\ height cv = 100%nat /\
    Forall (fun p : Q * Q =>
              0 <= fst p <= inject_Z (Z.of_nat (width cv)) /\
              0 <= snd p <= 100)
      (vertices cmds) /\
    cmds !! (6 + length dataArray)%nat
    = Some (LineTo (inject_Z (Z.of_nat (width cv))) (100 / 2)) /\
    (length dataArray = frequencyBinCount nd -> length cmds = 1032%nat) /\
    exists s',
      drawWaveform s = Ok tt s' /\
      since s s' = [EvDraw a; EvRequestFrame (nextFrame s)].
Proof.
  intros Hreach Hframe Hbytes.
  pose proof (reachable_wf _ _ _ Hreach) as Hwf.
  pose proof (reachable_routed _ _ _ Hreach) as Hrt.
  pose proof (reachable_sized _ _ _ Hreach) as Hsz.
  unfold frameOf in Hframe.
  destruct (analyserNode s) as [a|] eqn:Ha; [|discriminate].
  destruct (canvas s) as [cv|] eqn:Hcv; [|discriminate].
  destruct (context2d cv) eqn:H2d; [|discriminate].
  injection Hframe as <-.
  pose proof (Hsz cv Hcv) as Hh. rewrite Hh.
  assert (Hctx : exists c, audioContext s = Some c).
  { pose proof (wf_ctx s Hwf) as Hc. unfold wf_context in Hc.
    destruct (audioContext s) as [c|]; [eauto|].
    destruct Hc as (_ & Hx & _). congruence. }
  destruct Hctx as (c & Hc).
  destruct (rt_chain s Hrt c Hc)
    as (cx & g & a' & _ & _ & _ & Ha' & _ & (nd & Hnd & _ & Hfft & _) & _).
  assert (a' = a) as -> by congruence.
  exists a, nd, cv.
  split; [reflexivity|]. split; [exact Hnd|].
  split; [unfold frequencyBinCount; rewrite Hfft; reflexivity|].
  split; [reflexivity|]. split; [exact Hh|].
  change (inject_Z (Z.of_nat 100)) with 100.
  split; [|split; [|split]].
  - apply drawing_within; [apply inject_nat_nonneg|lra|exact Hbytes].
  - pose proof (plot_length 100
                  (inject_Z (Z.of_nat (width cv))
                   / inject_Z (Z.of_nat (length dataArray)))
                  dataArray 0 0) as Hlen.
    unfold drawing. cbv zeta.
    rewrite lookup_app_r by (cbn [length]; lia). cbn [length].
    replace (6 + length dataArray - 6)%nat with (length dataArray) by lia.
    rewrite lookup_app_r by (rewrite Hlen; lia).
    rewrite Hlen, Nat.sub_diag. reflexivity.
  - intros Hlen. rewrite drawing_length, Hlen.
    unfold frequencyBinCount. rewrite Hfft. reflexivity.
  - exists (drawn a s). split; [|apply since_app; reflexivity].
    rewrite drawWaveform_closed. unfold redrawn. rewrite Ha, Hcv, H2d.
    reflexivity.
Qed.

Lemma frame_on_canvas_witness :
  exists a nd cv,
    analyserNode noisePlaying = Some a /\ nodes noisePlaying !! a = Some nd /\
    frequencyBinCount nd = 1024%nat /\
    canvas noisePlaying = Some cv /\ height cv = 100%nat /\
    Forall (fun p : Q * Q =>
              0 <= fst p <= inject_Z (Z.of_nat (width cv)) /\
              0 <= snd p <= 100)
      (vertices (drawing 1280 100 [128; 255; 0; 64]%N)) /\
    drawing 1280 100 [128; 255; 0; 64]%N
      !! (6 + length [128; 255; 0; 64]%N)%nat
    = Some (LineTo (inject_Z (Z.of_nat (width cv))) (100 / 2)) /\
    (length [128; 255; 0; 64]%N = frequencyBinCount nd ->
     length (drawing 1280 100 [128; 255; 0; 64]%N) = 1032%nat) /\
    exists s',
      drawWaveform noisePlaying = Ok tt s' /\
      since noisePlaying s' = [EvDraw a; EvRequestFrame (nextFrame noisePlaying)].
Proof.
  apply (frame_on_canvas exampleTape exampleRate noisePlaying
           [128; 255; 0; 64]%N).
  - apply reachable_noisePlaying.
  - reflexivity.
  - repeat constructor; discriminate.
Defined.

(** *** Lazy activation *)

Lemma sameContext_refl s : sameContext s s.
Proof. repeat split. Qed.

Lemma sameContext_trans s1 s2 s3 :
  sameContext s1 s2 -> sameContext s2 s3 -> sameContext s1 s3.
Proof.
  intros (? & ? & ? & ?) (? & ? & ? & ?). repeat split; congruence.
Qed.

Lemma withContext_some s c : audioContext s = Some c -> withContext s = s.
Proof. intros Hc. unfold withContext. rewrite Hc. reflexivity. Qed.

Lemma sameContext_toggledNoise s c :
  audioContext s = Some c -> sameContext s (toggledNoise s).
Proof.
  intros Hc. unfold toggledNoise. cbv zeta.
  rewrite (withContext_some s c Hc), Hc.
  destruct (isBrownNoisePlaying s).
  - destruct (brownNoiseNode s); repeat split.
  - destruct (gainNode s) eqn:Hg; repeat split; cbn; congruence.
Qed.

Lemma sameContext_toggledTones s c :
  audioContext s = Some c -> sameContext s (toggledTones s).
Proof.
  intros Hc. unfold toggledTones. cbv zeta.
  rewrite (withContext_some s c Hc).
  destruct (isBinauralPlaying s).
  - destruct (leftOscillator s); [|repeat split].
    destruct (rightOscillator s); repeat split.
  - destruct (gainNode s) eqn:Hg; repeat split; cbn; congruence.
Qed.

Lemma sameContext_retuned s : sameContext s (retuned s).
Proof.
  unfold retuned. destruct (leftOscillator s); [|repeat split].
  destruct (rightOscillator s); repeat split.
Qed.

Lemma sameContext_redrawn s : sameContext s (redrawn s).
Proof.
  unfold redrawn. destruct (analyserNode s) eqn:Ha; [|repeat split; congruence].
  destruct (canvas s) as [cv|]; [|repeat split; congruence].
  destruct (context2d cv); repeat split; cbn; congruence.
Qed.

Lemma sameContext_reframed s : sameContext s (reframed s).
Proof.
  unfold reframed. cbv zeta.
  destruct (_ && negb _); [apply sameContext_redrawn|].
  destruct (_ && truthy _); [|repeat split].
  destruct (animationFrameId s); repeat split.
Qed.

(** Once the context exists, no action replaces it, the mix gain node or
    the analyser. *)
Lemma sameContext_performed s a c :
  audioContext s = Some c -> sameContext s (performed a s).
Proof.
  intros Hc. destruct a as [cv w|w|f| | |v|id]; cbn [performed].
  - repeat split.
  - unfold resized. destruct (canvas s); repeat split.
  - unfold selected. destruct f as [f|]; cbv zeta.
    + set (s0 := set_beatFrequency f s).
      assert (H0 : sameContext s s0) by (repeat split).
      set (s1 := if isBrownNoisePlaying s0 then toggledNoise s0 else s0).
      assert (H1 : sameContext s s1).
      { subst s1. destruct (isBrownNoisePlaying s0); [|exact H0].
        eapply sameContext_trans; [exact H0|].
        apply (sameContext_toggledNoise s0 c). exact Hc. }
      assert (Hc1 : audioContext s1 = Some c)
        by (destruct H1 as (-> & _); exact Hc).
      eapply sameContext_trans; [|apply sameContext_reframed].
      eapply sameContext_trans; [exact H1|].
      destruct (isBinauralPlaying s1);
        [apply sameContext_retuned|apply (sameContext_toggledTones s1 c Hc1)].
    + pose proof (sameContext_toggledNoise s c Hc) as H1.
      set (s1 := toggledNoise s) in *.
      assert (Hc1 : audioContext s1 = Some c)
        by (destruct H1 as (-> & _); exact Hc).
      eapply sameContext_trans; [|apply sameContext_reframed].
      destruct (isBinauralPlaying s1); [|exact H1].
      eapply sameContext_trans; [exact H1|].
      apply (sameContext_toggledTones s1 c Hc1).
  - apply (sameContext_toggledNoise s c Hc).
  - apply (sameContext_toggledTones s c Hc).
  - unfold volumeApplied. cbn [gainNode set_volume].
    destruct (gainNode s) eqn:Hg; repeat split; cbn; congruence.
  - unfold fired. destruct (existsb _ _); [|repeat split].
    eapply sameContext_trans; [|apply sameContext_redrawn]. repeat split.
Qed.

(** Before activation only a preset or a toggle changes anything but the
    canvas and the volume. *)
Lemma dormant_performed s a :
  wf s -> audioContext s = None -> activates a = false ->
  audioContext (performed a s) = None /\
  contexts (performed a s) = contexts s /\ nodes (performed a s) = nodes s /\
  buffers (performed a s) = buffers s /\ trace (performed a s) = trace s /\
  rng (performed a s) = rng s.
Proof.
  intros Hwf Hc Ha.
  pose proof (wf_ctx s Hwf) as Hctx. unfold wf_context in Hctx.
  rewrite Hc in Hctx. destruct Hctx as (Hg & Han & _).
  destruct a as [cv w|w|f| | |v|id]; cbn [performed]; try discriminate Ha.
  - repeat split; assumption.
  - unfold resized. destruct (canvas s); repeat split; assumption.
  - unfold volumeApplied. cbn [gainNode set_volume]. rewrite Hg.
    repeat split; assumption.
  - unfold fired, redrawn. cbn [analyserNode set_pending]. rewrite Han.
    destruct (existsb _ _); repeat split; assumption.
Qed.

Lemma activated_withContext s :
  audioContext s = None -> contexts s = [] ->
  audioContext (withContext s) = Some 0%nat /\
  length (contexts (withContext s)) = 1%nat.
Proof.
  intros Hc Hnil. unfold withContext. rewrite Hc. unfold contextCreated. cbn.
  rewrite Hnil. split; reflexivity.
Qed.

Lemma activated_toggledNoise s :
  audioContext s = None -> contexts s = [] -> isBrownNoisePlaying s = false ->
  audioContext (toggledNoise s) = Some 0%nat /\
  length (contexts (toggledNoise s)) = 1%nat.
Proof.
  intros Hc Hnil Hn. destruct (activated_withContext s Hc Hnil) as (Hw1 & Hw2).
  unfold toggledNoise. rewrite Hn. cbv zeta. rewrite Hw1.
  destruct (gainNode (withContext s)); split; assumption.
Qed.

Lemma activated_toggledTones s :
  audioContext s = None -> contexts s = [] -> isBinauralPlaying s = false ->
  audioContext (toggledTones s) = Some 0%nat /\
  length (contexts (toggledTones s)) = 1%nat.
Proof.
  intros Hc Hnil Ht. destruct (activated_withContext s Hc Hnil) as (Hw1 & Hw2).
  unfold toggledTones. rewrite Ht. cbv zeta.
  destruct (gainNode (withContext s)); split; assumption.
Qed.

Lemma activated_performed s a :
  wf s -> audioContext s = None -> activates a = true ->
  contexts s = [] ->
  audioContext (performed a s) = Some 0%nat /\
  length (contexts (performed a s)) = 1%nat.
Proof.
  intros Hwf Hc Ha Hnil.
  pose proof (wf_ctx s Hwf) as Hctx. unfold wf_context in Hctx.
  rewrite Hc in Hctx. destruct Hctx as (Hg & Han & Hn & Ht & _).
  destruct a as [cv w|w|f| | |v|id]; cbn [performed]; try discriminate Ha;
    [|apply activated_toggledNoise; assumption
     |apply activated_toggledTones; assumption].
  unfold selected. destruct f as [f|]; cbv zeta.
  - change (isBrownNoisePlaying (set_beatFrequency f s))
      with (isBrownNoisePlaying s). rewrite Hn.
    change (isBinauralPlaying (set_beatFrequency f s))
      with (isBinauralPlaying s). rewrite Ht.
    destruct (sameContext_reframed (toggledTones (set_beatFrequency f s)))
      as (-> & -> & _).
    apply activated_toggledTones; assumption.
  - destruct (sameContext_reframed
                (if isBinauralPlaying (toggledNoise s)
                 then toggledTones (toggledNoise s) else toggledNoise s))
      as (-> & -> & _).
    destruct (toggledNoise_frame s) as (-> & _). rewrite Ht.
    apply activated_toggledNoise; assumption.
Qed.

Lemma lazily_performed s a : wf s -> lazily s -> lazily (performed a s).
Proof.
  intros Hwf Hlz. unfold lazily in *.
  destruct (audioContext s) as [c|] eqn:Hc.
  - destruct (sameContext_performed s a c Hc) as (-> & -> & _).
    rewrite Hc. exact Hlz.
  - destruct Hlz as (Hx & Hnd & Hb & Htr & Hr).
    destruct (activates a) eqn:Ha.
    + destruct (activated_performed s a Hwf Hc Ha Hx) as (-> & Hlen).
      split; [reflexivity|exact Hlen].
    + destruct (dormant_performed s a Hwf Hc Ha)
        as (-> & -> & -> & -> & -> & ->).
      repeat split; assumption.
Qed.

Lemma reachable_lazily t rate s : reachable t rate s -> lazily s.
Proof.
  induction 1 as [|s a s' Hreach IH Hallowed Hstep]; [repeat split|].
  pose proof (reachable_wf _ _ _ Hreach) as Hwf.
  rewrite (perform_closed s a Hwf) in Hstep. injection Hstep as <-.
  apply lazily_performed; assumption.
Qed.

(** X20: the audio is activated lazily and once.  Until a preset is clicked
    (or a source is toggled) there is no audio context, no node, no buffer
    and no platform call at all, and mounting, resizing, the volume slider
    and animation frames do not change that; the first such click creates
    the one audio context; from then on every handler keeps this context,
    its mix gain node and its analyser, and never creates a second one. *)
Theorem activation_lazy_and_single t rate s :
  reachable t rate s ->
  (audioContext s = None ->
   contexts s = [] /\ nodes s = [] /\ buffers s = [] /\ trace s = [] /\
   forall a, exists s',
     perform a s = Ok tt s' /\
     audioContext s' = (if activates a then Some 0%nat else None)) /\
  (forall c, audioContext s = Some c ->
     c = 0%nat /\ length (contexts s) = 1%nat /\
     forall a, exists s',
       perform a s = Ok tt s' /\
       audioContext s' = Some c /\ contexts s' = contexts s /\
       gainNode s' = gainNode s /\ analyserNode s' = analyserNode s).
Proof.
  intros Hreach.
  pose proof (reachable_wf _ _ _ Hreach) as Hwf.
  pose proof (reachable_lazily _ _ _ Hreach) as Hlz. unfold lazily in Hlz.
  split.
  - intros Hc. rewrite Hc in Hlz. destruct Hlz as (Hx & Hnd & Hb & Htr & _).
    repeat (split; [assumption|]).
    intros a. exists (performed a s). split; [apply perform_closed, Hwf|].
    destruct (activates a) eqn:Ha.
    + apply (activated_performed s a Hwf Hc Ha Hx).
    + apply (dormant_performed s a Hwf Hc Ha).
  - intros c Hc. rewrite Hc in Hlz. destruct Hlz as (Hz & Hlen).
    split; [exact Hz|]. split; [exact Hlen|].
    intros a. exists (performed a s). split; [apply perform_closed, Hwf|].
    destruct (sameContext_performed s a c Hc) as (H1 & H2 & H3 & H4).
    repeat split; congruence.
Qed.

Lemma activation_lazy_and_single_witness :
  (audioContext mounted = None ->
   contexts mounted = [] /\ nodes mounted = [] /\ buffers mounted = [] /\
   trace mounted = [] /\
   forall a, exists s',
     perform a mounted = Ok tt s' /\
     audioContext s' = (if activates a then Some 0%nat else None)) /\
  (forall c, audioContext mounted = Some c ->
     c = 0%nat /\ length (contexts mounted) = 1%nat /\
     forall a, exists s',
       perform a mounted = Ok tt s' /\
       audioContext s' = Some c /\ contexts s' = contexts mounted /\
       gainNode s' = gainNode mounted /\
       analyserNode s' = analyserNode mounted).
Proof.
  apply (activation_lazy_and_single exampleTape exampleRate mounted).
  apply reachable_mounted.
Defined.

End MoreProperties.
